(** * The event-service executor of pilot2 (raythenaexecutor.py)

    A shallow embedding of [GenericExecutor]
    (src/pilot/eventservice/workexecutor/plugins/raythenaexecutor.py):
    the fields of the executor object are a record, every method is a
    computation in a state-and-exception monad over that record, and each
    call that leaves the class (the reporting service, the worker process,
    the communicator, the logger) is written to a trace, so that "a report
    is transmitted" and "a removal is attempted" are statements about the
    trace.

    Conventions.
    - A parsed worker message is a Python dict with string keys; it is a
      [gmap string string].  [msg['k']] raises [KeyError] on a missing key,
      ['k' in msg] is a lookup test.
    - Times are integers ([time.time()] is only compared and added).
    - [json.dumps v] is kept symbolic as [PJson v].
    - The methods of the base class and of [ESProcess] are not part of the
      file; what they answer, and whether they raise, is read from an
      environment [Env] as a function of the history.  [get_job()] is a
      field of the executor that may be [None].
    - The worker process ends: its answers to [is_alive()] are a finite
      list, after which it answers [False].
    - The hook [handle_out_message] is called by the worker's notification
      thread.  While [run] or [clean] is under way the worker's messages
      reach the executor during [time.sleep], where the executor's thread
      gives way; which messages arrive at which sleep is read from the
      environment.  Finer interleavings (a message handled between two
      statements of a method) are outside this development; between the
      sleeps every method is a sequential operation on the executor.

    The functions of src/pilot/util/filehandling.py are embedded in the
    same way in [Module filehandling], which states its own conventions;
    their properties follow those of the executor. *)

From Stdlib Require Import ZArith List Lia Bool.
From stdpp Require Import base option list strings gmap.

Open Scope Z_scope.
Open Scope string_scope.
Open Scope list_scope.

(** ** Data *)

(** A parsed message: ['id'], ['status'], ['output'], ['cpu'], ['wall'],
    ['message'] are its usual keys, none of them is guaranteed. *)
Abbreviation message := (gmap string string).

(** The payload descriptor handed to [ESProcess]; it is only passed on. *)
Definition payload := string.

(** Python values sent to the job-update interface. *)
#[local] Set Warnings "-register-all".
Inductive pyval : Type :=
| PStr (s : string)
| PInt (z : Z)
| PList (l : list pyval)
| PDict (kv : list (string * pyval))
| PJson (v : pyval).
#[local] Set Warnings "register-all".

(** The job handle returned by [get_job()]: [jobid], the event counter
    [nevents] and [infosys.queuedata.es_stageout_gap]. *)
Record Job : Type := mkJob {
  jobid : string;
  nevents : Z;
  es_stageout_gap : Z
}.

(** Calls that leave the class.  [CSleep d] carries the duration in tenths
    of a second.  [CRemove p] is [os.remove(p)]: [clean] has it commented
    out (line 138), so no method issues it; it is listed so that "no
    removal is attempted" can be said of a trace. *)
Inductive call : Type :=
| CUpdateEvents (m : pyval)
| CRetrievePayload
| CNewESProcess (p : payload)
| CSetGetEventRangesHook
| CSetHandleOutMessageHook
| CStart
| CIsAlive
| CIsStop
| CStop
| CPoll
| CSleep (d : Z)
| CStopCommunicator
| CRemove (p : string).

(** The exceptions met in the file, all of them subclasses of [Exception]:
    a missing dict key, an attribute read on [None], the local [payload]
    read before assignment, and whatever a collaborator raised in a call. *)
Inductive exn : Type :=
| KeyError (k : string)
| AttributeError (a : string)
| UnboundLocalError (v : string)
| ExternalError (c : call).

Inductive logmsg : Type :=
| LStarting
| LNoPayload
| LPayload (p : payload)
| LStartingESProcess
| LESProcessInitialized
| LESProcessStarts
| LESProcessStarted
| LStopSet
| LRunning (iteration : Z) (exit_code : option Z)
| LESProcessFinished
| LExecuteFailed (e : exn)
| LExecutorFinished
| LHandling (m : message)
| LRemoving (p : string)
| LRemoveFailed (p : string) (e : exn).

Inductive event : Type :=
| Call (c : call)
| LogInfo (m : logmsg)
| LogError (m : logmsg).

(** The executor object.  [the_job] is what [get_job()] returns ([None]
    when there is no job), [alive] the answers the worker process will give
    to [is_alive()], in order ([False] once they are used up), [trace] the
    calls and log lines issued so far, oldest first. *)
Record executor : Type := mkExecutor {
  queued_out_messages : list message;
  last_stageout_time : option Z;
  all_out_messages : list message;
  proc : option payload;
  exit_code : option Z;
  the_job : option Job;
  alive : list bool;
  trace : list event
}.

(** What the collaborators answer, as functions of the history: whether a
    call raises, the flags and payload of the base executor, the clock, the
    stop flag, the exit status of the worker, and the messages the worker
    hands to the hook of line 175 while the executor sleeps. *)
Record Env : Type := mkEnv {
  raises : list event -> call -> bool;
  is_set_payload : bool;
  get_payload : payload;
  is_retrieve_payload : bool;
  retrieve_payload : payload;
  time_time : list event -> Z;
  is_stop : list event -> bool;
  poll : list event -> option Z;
  delivers : list event -> list message
}.

(** ** The monad *)

Inductive result (A : Type) : Type :=
| Ok (a : A)
| Raise (e : exn).
Arguments Ok {A} a.
Arguments Raise {A} e.

Definition M (A : Type) : Type := executor -> result A * executor.

Definition ret {A} (a : A) : M A := fun st => (Ok a, st).

Definition raise {A} (e : exn) : M A := fun st => (Raise e, st).

Definition bind {A B} (m : M A) (k : A -> M B) : M B :=
  fun st =>
    match m st with
    | (Ok a, st') => k a st'
    | (Raise e, st') => (Raise e, st')
    end.

(** [try: m  except Exception as e: h e] *)
Definition try_except {A} (m : M A) (h : exn -> M A) : M A :=
  fun st =>
    match m st with
    | (Ok a, st') => (Ok a, st')
    | (Raise e, st') => h e st'
    end.

Declare Scope exec_scope.
Delimit Scope exec_scope with exec.
Notation "x <~ c ;; k" := (bind c (fun x => k))
  (at level 100, c at next level, right associativity) : exec_scope.
Notation "c ;;; k" := (bind c (fun _ => k))
  (at level 100, right associativity) : exec_scope.
Open Scope exec_scope.

Definition get : M executor := fun st => (Ok st, st).

Definition modify (f : executor -> executor) : M unit := fun st => (Ok tt, f st).

Definition emit (e : event) (st : executor) : executor :=
  mkExecutor (queued_out_messages st) (last_stageout_time st)
    (all_out_messages st) (proc st) (exit_code st) (the_job st) (alive st)
    (trace st ++ [e]).

Definition set_queued (q : list message) (st : executor) : executor :=
  mkExecutor q (last_stageout_time st) (all_out_messages st) (proc st)
    (exit_code st) (the_job st) (alive st) (trace st).

Definition set_last (t : option Z) (st : executor) : executor :=
  mkExecutor (queued_out_messages st) t (all_out_messages st) (proc st)
    (exit_code st) (the_job st) (alive st) (trace st).

Definition set_all (l : list message) (st : executor) : executor :=
  mkExecutor (queued_out_messages st) (last_stageout_time st) l (proc st)
    (exit_code st) (the_job st) (alive st) (trace st).

Definition set_proc (p : option payload) (st : executor) : executor :=
  mkExecutor (queued_out_messages st) (last_stageout_time st)
    (all_out_messages st) p (exit_code st) (the_job st) (alive st) (trace st).

Definition set_exit_code (c : option Z) (st : executor) : executor :=
  mkExecutor (queued_out_messages st) (last_stageout_time st)
    (all_out_messages st) (proc st) c (the_job st) (alive st) (trace st).

Definition set_job (j : option Job) (st : executor) : executor :=
  mkExecutor (queued_out_messages st) (last_stageout_time st)
    (all_out_messages st) (proc st) (exit_code st) j (alive st) (trace st).

Definition set_alive (a : list bool) (st : executor) : executor :=
  mkExecutor (queued_out_messages st) (last_stageout_time st)
    (all_out_messages st) (proc st) (exit_code st) (the_job st) a (trace st).

(** [__init__] *)
Definition init (j : option Job) (script : list bool) : executor :=
  mkExecutor [] None [] None None j script [].

(** ** Python primitives *)

(** [d[k]] *)
Definition getitem (d : message) (k : string) : M string :=
  match d !! k with
  | Some v => ret v
  | None => raise (KeyError k)
  end.

(** [s in ['failed', 'fatal']] *)
Definition in_failed_fatal (s : string) : bool :=
  bool_decide (s = "failed") || bool_decide (s = "fatal").

(** [l.pop()] on a non-empty list: the last element and the rest. *)
Definition pop (l : list message) : option (message * list message) :=
  match rev l with
  | [] => None
  | x :: r => Some (x, rev r)
  end.

Definition log_info (m : logmsg) : M unit := modify (emit (LogInfo m)).
Definition log_error (m : logmsg) : M unit := modify (emit (LogError m)).

(** [job.jobid], [job.nevents], ... on what [get_job()] returned. *)
Definition attr {A} (name : string) (f : Job -> A) (j : option Job) : M A :=
  match j with
  | Some job => ret (f job)
  | None => raise (AttributeError name)
  end.

(** The dict literal of line 66. *)
Definition finished_range (i o : string) : pyval :=
  PDict [("eventRangeID", PStr i); ("eventStatus", PStr "finished");
         ("fileLocation", PStr o)].

(** The dict literal of line 88. *)
Definition failed_range (i status : string) : pyval :=
  PDict [("errorCode", PInt 1220); ("eventRangeID", PStr i);
         ("eventStatus", PStr status)].

(** The report of lines 67-69 for the ranges [event_ranges]. *)
Definition finished_report (event_ranges : list pyval) : pyval :=
  let event_range_status :=
    PDict [("esOutput", PDict [("numEvents", PInt (Z.of_nat (length event_ranges)))]);
           ("eventRanges", PList event_ranges)] in
  PDict [("version", PInt 1);
         ("eventRanges", PJson (PList [event_range_status]))].

(** The report of line 89 for the ranges [event_ranges]. *)
Definition failed_report (event_ranges : list pyval) : pyval :=
  PDict [("version", PInt 0); ("eventRanges", PJson (PList event_ranges))].

Section Executor.

Variable env : Env.

(** A call to a collaborator: it is recorded, then it returns or raises. *)
Definition ext (c : call) : M unit :=
  fun st =>
    if raises env (trace st) c
    then (Raise (ExternalError c), emit (Call c) st)
    else (Ok tt, emit (Call c) st).

Definition get_job : M (option Job) := fun st => (Ok (the_job st), st).

(** A call to a collaborator that returns a value. *)
Definition ext_val {A} (c : call) (answer : list event -> A) : M A :=
  fun st =>
    if raises env (trace st) c
    then (Raise (ExternalError c), emit (Call c) st)
    else (Ok (answer (trace st)), emit (Call c) st).

(** [self.update_events(m)] *)
Definition update_events (m : pyval) : M unit := ext (CUpdateEvents m).

(** [proc.is_alive()]: the next answer of the worker process. *)
Definition is_alive : M bool :=
  ext CIsAlive ;;;
  st <~ get ;;
  match alive st with
  | [] => ret false
  | a :: rest => modify (set_alive rest) ;;; ret a
  end.

(** ** update_finished_event_ranges (lines 55-73) *)

(** The [for out_msg in out_messagess] loop, [event_ranges] being the list
    built so far. *)
Fixpoint finished_loop (out_messagess : list message) (event_ranges : list pyval)
  : M (list pyval) :=
  match out_messagess with
  | [] => ret event_ranges
  | out_msg :: rest =>
      i <~ getitem out_msg "id" ;;
      o <~ getitem out_msg "output" ;;
      finished_loop rest (event_ranges ++ [finished_range i o])
  end.

Definition update_finished_event_ranges (out_messagess : list message) : M unit :=
  if (length out_messagess =? 0)%nat then ret tt
  else
    event_ranges <~ finished_loop out_messagess [] ;;
    let event_range_message := finished_report event_ranges in
    update_events event_range_message ;;;
    job <~ get_job ;;
    n <~ attr "nevents" nevents job ;;
    modify (fun st =>
      set_job (option_map (fun j => mkJob (jobid j)
                                      (n + Z.of_nat (length event_ranges))
                                      (es_stageout_gap j)) job) st).

(** ** update_failed_event_ranges (lines 75-90) *)

(** The [for message in out_messagess] loop; the report is built and sent
    inside the loop body (lines 89-90). *)
Fixpoint failed_loop (out_messagess : list message) (event_ranges : list pyval)
  : M unit :=
  match out_messagess with
  | [] => ret tt
  | message :: rest =>
      s <~ getitem message "status" ;;
      let status := if in_failed_fatal s then s else "failed" in
      i <~ getitem message "id" ;;
      let event_ranges := event_ranges ++ [failed_range i status] in
      let event_range_message := failed_report event_ranges in
      update_events event_range_message ;;;
      failed_loop rest event_ranges
  end.

Definition update_failed_event_ranges (out_messagess : list message) : M unit :=
  if (length out_messagess =? 0)%nat then ret tt
  else failed_loop out_messagess [].

(** ** handle_out_message (lines 92-110) *)

Definition handle_out_message (message : message) : M unit :=
  job <~ get_job ;;
  _ <~ attr "jobid" jobid job ;;
  log_info (LHandling message) ;;;
  modify (fun st => set_all (all_out_messages st ++ [message]) st) ;;;
  s <~ getitem message "status" ;;
  if in_failed_fatal s
  then update_failed_event_ranges [message]
  else modify (fun st => set_queued (queued_out_messages st ++ [message]) st).

(** ** stageout_es (lines 112-123) *)

(** [while len(q) > 0: out_messages.append(q.pop())]; the loop runs once
    per queued message, [fuel] is the length of the queue. *)
Fixpoint drain (fuel : nat) (out_messages : list message) : M (list message) :=
  match fuel with
  | O => ret out_messages
  | S fuel' =>
      st <~ get ;;
      match pop (queued_out_messages st) with
      | None => ret out_messages
      | Some (x, rest) =>
          modify (set_queued rest) ;;;
          drain fuel' (out_messages ++ [x])
      end
  end.

(** The condition of line 119, evaluated left to right. *)
Definition flush_due (force : bool) (job : option Job) : M bool :=
  if force then ret true
  else
    st <~ get ;;
    match last_stageout_time st with
    | None => ret true
    | Some last =>
        let now := time_time env (trace st) in
        gap <~ attr "infosys" es_stageout_gap job ;;
        ret (now >? last + gap)%Z
    end.

Definition stageout_es (force : bool) : M unit :=
  job <~ get_job ;;
  st <~ get ;;
  if negb (length (queued_out_messages st) =? 0)%nat then
    due <~ flush_due force job ;;
    if due then
      out_messages <~ drain (length (queued_out_messages st)) [] ;;
      update_finished_event_ranges out_messages
    else ret tt
  else ret tt.

(** ** clean (lines 125-150) *)

(** The body of [for msg in self.__all_out_messages]. *)
Definition clean_entry (msg : message) : M unit :=
  s <~ getitem msg "status" ;;
  if in_failed_fatal s then ret tt
  else
    match msg !! "output" with
    | Some out =>
        try_except
          (log_info (LRemoving out))
          (fun e => log_error (LRemoveFailed out e))
    | None => ret tt
    end.

Fixpoint for_each {A} (body : A -> M unit) (l : list A) : M unit :=
  match l with
  | [] => ret tt
  | x :: rest => body x ;;; for_each body rest
  end.

(** ** The messages of the worker

    The worker calls the hook registered at line 175,
    [handle_out_message], from its own thread, while [run] or [clean] is
    under way.  The executor's thread gives way to it in [time.sleep]:
    the messages the worker has at that point are handled there, one after
    the other, before the sleep returns.  What [handle_out_message] raises
    is raised in the worker's thread: it does not reach the executor's, and
    the next message is handled all the same. *)
Definition deliver (message : message) : M unit :=
  fun st => (Ok tt, snd (handle_out_message message st)).

(** [time.sleep(d)], [d] in tenths of a second. *)
Definition sleep (d : Z) : M unit :=
  ext (CSleep d) ;;;
  st <~ get ;;
  for_each deliver (delivers env (trace st)).

(** [while proc.is_alive(): time.sleep(d)]; every test uses up one answer
    of the worker, [fuel] is the number of answers left. *)
Fixpoint wait_while_alive (fuel : nat) (d : Z) : M unit :=
  a <~ is_alive ;;
  if a then
    match fuel with
    | O => ret tt
    | S fuel' => sleep d ;;; wait_while_alive fuel' d
    end
  else ret tt.

Definition clean : M unit :=
  job <~ get_job ;;
  _ <~ attr "jobid" jobid job ;;
  st <~ get ;;
  for_each clean_entry (all_out_messages st) ;;;
  modify (set_queued []) ;;;
  modify (set_last None) ;;;
  modify (set_all []) ;;;
  st <~ get ;;
  match proc st with
  | Some _ => ext CStop ;;; wait_while_alive (length (alive st)) 1
  | None => ret tt
  end ;;;
  ext CStopCommunicator.

(** ** run (lines 152-212) *)

(** The poll loop of lines 186-197; leaving through [break] and leaving
    through the loop test both continue at line 199. *)
Fixpoint poll_loop (fuel : nat) (iteration : Z) : M unit :=
  a <~ is_alive ;;
  if a then
    match fuel with
    | O => ret tt
    | S fuel' =>
        let iteration := iteration + 1 in
        stop <~ ext_val CIsStop (is_stop env) ;;
        if stop then
          log_info LStopSet ;;;
          ext CStop
        else
          stageout_es false ;;;
          exit_code <~ ext_val CPoll (poll env) ;;
          (if (iteration mod 60 =? 0)%Z
           then log_info (LRunning iteration exit_code)
           else ret tt) ;;;
          sleep 50 ;;;
          poll_loop fuel' iteration
    end
  else ret tt.

(** Lines 157-206, the body of the [try]. *)
Definition run_body : M unit :=
  log_info LStarting ;;;
  payload <~ (if is_set_payload env then ret (Some (get_payload env))
              else if is_retrieve_payload env
                   then ext_val CRetrievePayload (fun _ => Some (retrieve_payload env))
                   else log_error LNoPayload ;;; ret None) ;;
  job <~ get_job ;;
  _ <~ attr "jobid" jobid job ;;
  payload <~ match payload with
             | Some p => ret p
             | None => raise (UnboundLocalError "payload")
             end ;;
  log_info (LPayload payload) ;;;
  log_info LStartingESProcess ;;;
  ext (CNewESProcess payload) ;;;
  modify (set_proc (Some payload)) ;;;
  log_info LESProcessInitialized ;;;
  ext CSetGetEventRangesHook ;;;
  ext CSetHandleOutMessageHook ;;;
  log_info LESProcessStarts ;;;
  ext CStart ;;;
  log_info LESProcessStarted ;;;
  st <~ get ;;
  poll_loop (length (alive st)) 0 ;;;
  st <~ get ;;
  wait_while_alive (length (alive st)) 10 ;;;
  log_info LESProcessFinished ;;;
  stageout_es true ;;;
  clean ;;;
  code <~ ext_val CPoll (poll env) ;;
  modify (set_exit_code code).

Definition run : M unit :=
  try_except run_body
    (fun e =>
       log_error (LExecuteFailed e) ;;;
       clean ;;;
       modify (set_exit_code (Some (-1)))) ;;;
  log_info LExecutorFinished.

End Executor.

(** ** Reading a trace *)

(** The events a computation added to a trace. *)
Definition added (before after : executor) : list event :=
  drop (length (trace before)) (trace after).

(** The reports handed to [update_events], oldest first. *)
Definition reports (tr : list event) : list pyval :=
  omap (fun e => match e with Call (CUpdateEvents m) => Some m | _ => None end) tr.

(** The paths [os.remove] was called on. *)
Definition removal_attempts (tr : list event) : list string :=
  omap (fun e => match e with Call (CRemove p) => Some p | _ => None end) tr.

(** The paths announced by "Removing es premerge file". *)
Definition removal_notices (tr : list event) : list string :=
  omap (fun e => match e with LogInfo (LRemoving p) => Some p | _ => None end) tr.

(** The error lines "Failed to remove file". *)
Definition removal_failures (tr : list event) : list string :=
  omap (fun e => match e with LogError (LRemoveFailed p _) => Some p | _ => None end) tr.

(** Calls by which [run] gets a payload and creates, starts or polls the
    worker process. *)
Definition worker_call (e : event) : bool :=
  match e with
  | Call (CNewESProcess _) | Call CStart | Call CIsStop | Call CPoll
  | Call CSetGetEventRangesHook | Call CSetHandleOutMessageHook
  | Call CRetrievePayload => true
  | _ => false
  end.

(** The calls [clean] makes after its loop (lines 145-150). *)
Definition cleanup_call (e : event) : bool :=
  match e with
  | Call CStop | Call CIsAlive | Call (CSleep _) | Call CStopCommunicator => true
  | _ => false
  end.

(** ** Notions used in the statements *)

(** The record [update_finished_event_ranges] builds for a message. *)
Definition finished_range_of (m : message) : option pyval :=
  match m !! "id", m !! "output" with
  | Some i, Some o => Some (finished_range i o)
  | _, _ => None
  end.

(** The record [update_failed_event_ranges] builds for a message. *)
Definition failed_range_of (m : message) : option pyval :=
  match m !! "status", m !! "id" with
  | Some s, Some i => Some (failed_range i (if in_failed_fatal s then s else "failed"))
  | _, _ => None
  end.

(** The output path [clean] announces for an entry of the audit log, if
    any: the entry is neither failed nor fatal and has an ['output']. *)
Definition cleanable (msg : message) : option string :=
  match msg !! "status" with
  | Some s => if in_failed_fatal s then None else msg !! "output"
  | None => None
  end.

(** Appending several events at once. *)
Definition emit_all (es : list event) (st : executor) : executor :=
  mkExecutor (queued_out_messages st) (last_stageout_time st)
    (all_out_messages st) (proc st) (exit_code st) (the_job st) (alive st)
    (trace st ++ es).

(** The executor as [clean] leaves it when it returns: [tail] are the calls
    of lines 145-150, [rest] the answers the worker has not given yet. *)
Definition cleaned (st : executor) (tail : list event) (rest : list bool) : executor :=
  mkExecutor [] None [] (proc st) (exit_code st) (the_job st) rest
    (trace st ++
       map (fun p => LogInfo (LRemoving p)) (omap cleanable (all_out_messages st)) ++
       tail).

(** Lines 145-150 of [clean] on their own: stopping the worker, waiting
    for its end, stopping the communicator. *)
Definition clean_tail (env : Env) : M unit :=
  st <~ get ;;
  match proc st with
  | Some _ => ext env CStop ;;; wait_while_alive env (length (alive st)) 1
  | None => ret tt
  end ;;;
  ext env CStopCommunicator.

(** What [clean] needs of the executor to get through its first lines and
    its loop: a job handle, and a status in every entry of the audit log. *)
Definition cleanable_state (st : executor) : Prop :=
  is_Some (the_job st) /\
  Forall (fun m : message => is_Some (m !! "status")) (all_out_messages st).

(** What [clean] needs of the collaborators: the calls of lines 145-150 do
    not raise. *)
Definition cleanup_calls_return (env : Env) : Prop :=
  forall tr,
    raises env tr CStop = false /\ raises env tr CIsAlive = false /\
    raises env tr CStopCommunicator = false /\
    forall d, raises env tr (CSleep d) = false.

(** The worker has no message for the hook, whatever the history. *)
Definition quiet (env : Env) : Prop :=
  forall tr, delivers env tr = [].

(** A property of the executor that a computation keeps, whether it
    returns or raises. *)
Definition preserves {A} (P : executor -> Prop) (m : M A) : Prop :=
  forall st, P st -> P (snd (m st)).

(** C6 as it is worded: [clean] removes the output of every
    entry of the audit log that is neither failed nor fatal and has an
    output path. *)
Definition clean_removes_artifacts (env : Env) (st : executor) : Prop :=
  forall (m : message) (out : string),
    m ∈ all_out_messages st -> cleanable m = Some out ->
    out ∈ removal_attempts (added st (snd (clean env st))).

(** ** Sample data *)

Definition job0 : Job := mkJob "4711" 0 600.

(** Collaborators that never fail; the payload is pre-set, the clock shows
    1000 plus the number of events so far, no stop is requested, the
    worker's exit status is 0 and it has no message for the hook. *)
Definition env0 : Env :=
  mkEnv (fun _ _ => false) true "payload" false "retrieved"
        (fun tr => 1000 + Z.of_nat (length tr)) (fun _ => false) (fun _ => Some 0)
        (fun _ => []).

(** As [env0], with neither a pre-set payload nor payload retrieval. *)
Definition env_nopayload : Env :=
  mkEnv (fun _ _ => false) false "payload" false "retrieved"
        (fun tr => 1000 + Z.of_nat (length tr)) (fun _ => false) (fun _ => Some 0)
        (fun _ => []).

(** As [env0], except that stopping the communicator fails every time. *)
Definition env_stopfail : Env :=
  mkEnv (fun _ c => match c with CStopCommunicator => true | _ => false end)
        true "payload" false "retrieved"
        (fun tr => 1000 + Z.of_nat (length tr)) (fun _ => false) (fun _ => Some 0)
        (fun _ => []).

Definition msg_r1 : message :=
  {[ "id" := "r1"; "status" := "finished"; "output" := "/tmp/r1.out" ]}.
Definition msg_r2 : message :=
  {[ "id" := "r2"; "status" := "failed" ]}.
Definition msg_r3 : message :=
  {[ "id" := "r3"; "status" := "fatal" ]}.
Definition msg_r4 : message :=
  {[ "id" := "r4"; "status" := "finished"; "output" := "/tmp/r4.out" ]}.
(** A finished message without its ['output'] field. *)
Definition msg_r5 : message :=
  {[ "id" := "r5"; "status" := "finished" ]}.
(** A message without ['status']. *)
Definition msg_r6 : message :=
  {[ "id" := "r6" ]}.

(** A fresh executor with a job; the worker, once started, is found dead at
    the first test. *)
Definition st0 : executor := init (Some job0) [].

(** The executor after the worker reported [msg_r1]. *)
Definition st_r1 : executor := snd (handle_out_message env0 msg_r1 st0).
(** ... after a first, non-forced stage-out, *)
Definition st_r1_flushed : executor := snd (stageout_es env0 false st_r1).
(** ... after the worker then reported [msg_r4], *)
Definition st_r4 : executor := snd (handle_out_message env0 msg_r4 st_r1_flushed).
(** ... and after a second, non-forced stage-out. *)
Definition st_r4_flushed : executor := snd (stageout_es env0 false st_r4).

(** The executor after the worker reported [msg_r1] and then [msg_r4]. *)
Definition st_r1_r4 : executor := snd (handle_out_message env0 msg_r4 st_r1).

(** The executor after the worker reported [msg_r5], finished but without
    an output path. *)
Definition st_r5 : executor := snd (handle_out_message env0 msg_r5 st0).

(** The executor after the worker delivered [msg_r6], which has no
    status. *)
Definition st_r6 : executor := snd (handle_out_message env0 msg_r6 st0).

(** ** Further notions

    Used by the properties that follow the claims. *)

(** A computation started where [P] holds returns in [Q] or raises in
    [E]. *)
Definition triple {A} (P : executor -> Prop) (m : M A)
    (Q : A -> executor -> Prop) (E : exn -> executor -> Prop) : Prop :=
  forall st, P st ->
    match m st with
    | (Ok a, st') => Q a st'
    | (Raise e, st') => E e st'
    end.

(** The executor after a stage-out of the whole queue that went through:
    the queue is empty, the report with the records [ers] was handed to
    [update_events], the event counter of the job is increased. *)
Definition flushed (st : executor) (ers : list pyval) : executor :=
  set_job
    (option_map (fun j => mkJob (jobid j) (nevents j + Z.of_nat (length ers))
                            (es_stageout_gap j)) (the_job st))
    (emit (Call (CUpdateEvents (finished_report ers))) (set_queued [] st)).

(** The reports [update_failed_event_ranges] sends for messages whose
    records are [recs], oldest first: line 90 is inside the loop, so the
    k-th report carries the records of the first k messages. *)
Definition failure_reports (recs : list pyval) : list pyval :=
  map (fun k => failed_report (take (S k) recs)) (seq 0 (length recs)).

(** The executor at the point where [clean] has reset its fields. *)
Definition reset (st : executor) : executor :=
  set_all [] (set_last None (set_queued [] st)).

(** [message['status'] in ['failed', 'fatal']], false without a status. *)
Definition is_failure (m : message) : bool :=
  match m !! "status" with
  | Some s => in_failed_fatal s
  | None => false
  end.

(** The report [handle_out_message] sends for a message on its own, if it
    sends one. *)
Definition failure_report_of (m : message) : option pyval :=
  if is_failure m
  then option_map (fun r => failed_report [r]) (failed_range_of m)
  else None.

(** A message as [handle_out_message] queues it: it has a status, which is
    neither failed nor fatal. *)
Definition pending_ok (m : message) : Prop :=
  exists s, m !! "status" = Some s /\ in_failed_fatal s = false.

(** What the methods may do to the job handle [j0] the executor started
    with: nothing but increase its event counter. *)
Definition job_frame (j0 j : option Job) : Prop :=
  match j0, j with
  | Some a, Some b =>
      jobid b = jobid a /\ es_stageout_gap b = es_stageout_gap a /\
      nevents a <= nevents b
  | None, None => True
  | _, _ => False
  end.

(** The executor states that can be met: the one [__init__] builds, and
    those the methods lead to from there, whatever they are given and
    whether they return or raise. *)
Inductive reachable (env : Env) (j0 : option Job) (script : list bool)
  : executor -> Prop :=
| reach_init : reachable env j0 script (init j0 script)
| reach_handle_out_message st m :
    reachable env j0 script st ->
    reachable env j0 script (snd (handle_out_message env m st))
| reach_update_finished_event_ranges st l :
    reachable env j0 script st ->
    reachable env j0 script (snd (update_finished_event_ranges env l st))
| reach_update_failed_event_ranges st l :
    reachable env j0 script st ->
    reachable env j0 script (snd (update_failed_event_ranges env l st))
| reach_stageout_es st force :
    reachable env j0 script st ->
    reachable env j0 script (snd (stageout_es env force st))
| reach_clean st :
    reachable env j0 script st ->
    reachable env j0 script (snd (clean env st))
| reach_run st :
    reachable env j0 script st ->
    reachable env j0 script (snd (run env st)).

(** What holds of every state that can be met. *)
Definition executor_invariant (j0 : option Job) (st : executor) : Prop :=
  last_stageout_time st = None /\
  sublist (queued_out_messages st) (all_out_messages st) /\
  Forall pending_ok (queued_out_messages st) /\
  job_frame j0 (the_job st).

(** No call to a collaborator raises. *)
Definition reliable (env : Env) : Prop :=
  forall tr c, raises env tr c = false.

(** An audit log that [clean] cannot get through. *)
Definition poisoned (st : executor) : Prop :=
  is_Some (the_job st) /\
  Exists (fun m : message => m !! "status" = None) (all_out_messages st).

(** As [env0], but the stop flag is set. *)
Definition env_stop : Env :=
  mkEnv (fun _ _ => false) true "payload" false "retrieved"
        (fun tr => 1000 + Z.of_nat (length tr)) (fun _ => true) (fun _ => Some 0)
        (fun _ => []).

(** The sleeps in a trace. *)
Definition sleeps (tr : list event) : list Z :=
  omap (fun e => match e with Call (CSleep d) => Some d | _ => None end) tr.

(** As [env0], with a worker that hands the given messages to the hook
    during the first sleep of the executor, and none afterwards. *)
Definition env_delivering (msgs : list message) : Env :=
  mkEnv (fun _ _ => false) true "payload" false "retrieved"
        (fun tr => 1000 + Z.of_nat (length tr)) (fun _ => false) (fun _ => Some 0)
        (fun tr => if (length (sleeps tr) =? 1)%nat then msgs else []).

(** The calls of the two waiting loops: the test of the worker and the
    sleep. *)
Definition waiting_call (e : event) : bool :=
  match e with
  | Call CIsAlive | Call (CSleep _) => true
  | _ => false
  end.

(** The calls of [proc.stop()] and of [proc.poll()] in a trace, and the
    sleeps of the poll loop (5 seconds). *)
Definition stop_calls (tr : list event) : list unit :=
  omap (fun e => match e with Call CStop => Some tt | _ => None end) tr.

Definition poll_calls (tr : list event) : list unit :=
  omap (fun e => match e with Call CPoll => Some tt | _ => None end) tr.

(** * File handling (filehandling.py)

    A shallow embedding of the functions of src/pilot/util/filehandling.py
    that are made of control flow, string handling and calls to the
    operating system.  A call that leaves the module ([os], [open] and the
    file object, [tarfile], [time], [execute]) is written to a history, and
    what it answers, or the exception it raises, is read from an [OS] as a
    function of the history so far.  The module is Python 2 ([0770],
    [long], [basestring]): [IOError] and [OSError] are different classes.
    What a generator yields ([os.walk], the lines of a file) is taken when
    the loop starts. *)

Module filehandling.

(** ** Strings *)

(** ['\n'] and ['\t'] *)
Definition nl : string := String (Ascii.ascii_of_nat 10) "".
Definition tab : string := String (Ascii.ascii_of_nat 9) "".

(** [s.endswith(suffix)] *)
Fixpoint endswith (s suffix : string) : bool :=
  if String.eqb s suffix then true
  else match s with
       | EmptyString => false
       | String _ s' => endswith s' suffix
       end.

(** [s[:-1]] *)
Fixpoint drop_last (s : string) : string :=
  match s with
  | EmptyString => ""
  | String _ EmptyString => ""
  | String c s' => String c (drop_last s')
  end.

(** [s.split(sep)] for a separator that is not empty: [cur] is the piece
    being read, [skip] the number of characters of a separator still to be
    passed over. *)
Fixpoint split_from (sep : string) (skip : nat) (cur s : string) : list string :=
  match s with
  | EmptyString => [cur]
  | String c s' =>
      match skip with
      | S n => split_from sep n cur s'
      | O =>
          if String.prefix sep s
          then cur :: split_from sep (String.length sep - 1) "" s'
          else split_from sep 0 (cur +:+ String c "") s'
      end
  end.

(** [s.split(sep)]; [None] stands for the [ValueError] of an empty
    separator. *)
Definition py_split (s sep : string) : option (list string) :=
  if String.eqb sep "" then None else Some (split_from sep 0 "" s).

(** [os.path.join(a, b)] of posixpath. *)
Definition os_path_join (a b : string) : string :=
  if String.prefix "/" b then b
  else if String.eqb a "" || endswith a "/" then a +:+ b
  else a +:+ "/" +:+ b.

(** ** Exceptions, calls and the history *)

Inductive pyexn : Type :=
| IOError
| OSError
| ValueError
| IndexError
| TypeError
| KeyError (key : string)
| NoSuchFile (message : string)
| FileHandlingFailure (cause : pyexn)
| OtherException (name : string).

Definition is_IOError (e : pyexn) : bool :=
  match e with IOError => true | _ => false end.

Definition is_OSError (e : pyexn) : bool :=
  match e with OSError => true | _ => false end.

(** An open file object; it is known by the name it was opened with. *)
Definition file := string.

Inductive os_call : Type :=
| os_path_exists (path : string)
| os_path_getsize (path : string)
| os_remove (path : string)
| os_rmdir (path : string)
| os_walk (top : string) (topdown : bool)
| open_ (filename mode : string)
| f_read (f : file)
| f_write (f : file) (contents : string)
| f_iter (f : file)
| f_close (f : file)
| tarfile_open (name mode : string)
| tar_add (name arcname : string)
| tar_close
| time_time
| time_sleep (seconds : Z)
| execute (cmd : string).

Inductive log_line : Type :=
| warn_remove_failed
| warn_files_not_a_list
| warn_io_retry (delay : Z)
| warn_io_give_up
| debug_pack_time (seconds : Z)
| warn_open_failed (filename : string) (e : pyexn)
| warn_float_failed (field : string)
| info_file_size (path : string) (size : Z)
| warn_skipping_file (path : string)
| warn_getsize_failed (e : pyexn)
| warn_no_local_file (filename : string).

Inductive os_event : Type :=
| Did (c : os_call)
| Logged (l : log_line).

Definition history := list os_event.

(** What the operating system answers, as functions of the history:
    whether a call raises, and what it returns when it does not. *)
Record OS : Type := mkOS {
  fails : history -> os_call -> option pyexn;
  path_exists : history -> string -> bool;
  getsize : history -> string -> Z;
  walked : history -> string -> bool -> list (string * list string * list string);
  relpath : string -> string -> string;
  clock : history -> Z;
  contents : history -> file -> string;
  lines : history -> file -> list string;
  stdout : history -> string -> option string
}.

(** ** The monad *)

Inductive outcome (A : Type) : Type :=
| Returns (a : A)
| Raises (e : pyexn).
Arguments Returns {A} a.
Arguments Raises {A} e.

Definition IO (A : Type) : Type := history -> outcome A * history.

Definition ret {A} (a : A) : IO A := fun h => (Returns a, h).

Definition raise {A} (e : pyexn) : IO A := fun h => (Raises e, h).

Definition bind {A B} (m : IO A) (k : A -> IO B) : IO B :=
  fun h =>
    match m h with
    | (Returns a, h') => k a h'
    | (Raises e, h') => (Raises e, h')
    end.

(** [try: m  except <class> as e: handler e], for the classes [catches]
    accepts. *)
Definition try_except {A} (m : IO A) (catches : pyexn -> bool)
    (handler : pyexn -> IO A) : IO A :=
  fun h =>
    match m h with
    | (Returns a, h') => (Returns a, h')
    | (Raises e, h') => if catches e then handler e h' else (Raises e, h')
    end.

Declare Scope io_scope.
Delimit Scope io_scope with io.
Notation "x <~ c ;; k" := (bind c (fun x => k))
  (at level 100, c at next level, right associativity) : io_scope.
Notation "c ;;; k" := (bind c (fun _ => k))
  (at level 100, right associativity) : io_scope.
Open Scope io_scope.

Definition log (l : log_line) : IO unit := fun h => (Returns tt, h ++ [Logged l]).

(** [for x in l: body x] *)
Fixpoint for_each {A} (body : A -> IO unit) (l : list A) : IO unit :=
  match l with
  | [] => ret tt
  | x :: rest => body x ;;; for_each body rest
  end.

(** The argument [files] of [remove_files], which tests its type. *)
Inductive pyfiles : Type :=
| a_list (files : list string)
| not_a_list.

Section Functions.

Variable os : OS.

(** A call to the operating system: it is recorded, then it raises or
    returns its answer. *)
Definition ask {A} (c : os_call) (answer : history -> A) : IO A :=
  fun h =>
    match fails os h c with
    | Some e => (Raises e, h ++ [Did c])
    | None => (Returns (answer h), h ++ [Did c])
    end.

Definition do (c : os_call) : IO unit := ask c (fun _ => tt).

(** ** open_file, read_file, write_file (lines 51-112) *)

Definition open_file (filename mode : string) : IO (option file) :=
  let f : option file := None in
  found <~ ask (os_path_exists filename) (fun h => path_exists os h filename) ;;
  f <~ (if found
        then try_except (do (open_ filename mode) ;;; ret (Some filename))
               is_IOError (fun e => raise (FileHandlingFailure e))
        else raise (NoSuchFile ("File does not exist: " +:+ filename))) ;;
  ret f.

Definition read_file (filename : string) : IO string :=
  let out := "" in
  f <~ open_file filename "r" ;;
  out <~ match f with
         | Some f =>
             out <~ ask (f_read f) (fun h => contents os h f) ;;
             do (f_close f) ;;;
             ret out
         | None => ret out
         end ;;
  ret out.

Definition write_file (filename contents : string) : IO bool :=
  let status := false in
  f <~ open_file filename "w" ;;
  status <~ match f with
            | Some f =>
                status <~ try_except (do (f_write f contents) ;;; ret true)
                            is_IOError (fun e => raise (FileHandlingFailure e)) ;;
                do (f_close f) ;;;
                ret status
            | None => ret status
            end ;;
  ret status.

(** ** get_files (lines 115-132) *)

Definition get_files (pattern : string) : IO (list string) :=
  let files := [] in
  let cmd := "find . -name " +:+ pattern in
  out <~ ask (execute cmd) (fun h => stdout os h cmd) ;;
  match out with
  | Some out =>
      if negb (String.eqb out "")
      then
        let out := if endswith out nl then drop_last out else out in
        match py_split out nl with
        | Some files => ret files
        | None => raise ValueError
        end
      else ret files
  | None => ret files
  end.

(** ** remove_empty_directories (lines 255-270) *)

Fixpoint remove_empty_directories_loop (src_dir : string)
    (yielded : list (string * list string * list string)) : IO unit :=
  match yielded with
  | [] => ret tt
  | (dirpath, _, _) :: rest =>
      if String.eqb dirpath src_dir then ret tt
      else
        try_except (do (os_rmdir dirpath)) is_OSError (fun _ => ret tt) ;;;
        remove_empty_directories_loop src_dir rest
  end.

Definition remove_empty_directories (src_dir : string) : IO unit :=
  yielded <~ ask (os_walk src_dir false) (fun h => walked os h src_dir false) ;;
  remove_empty_directories_loop src_dir yielded.

(** ** remove, remove_files (lines 273-307) *)

Definition remove (path : string) : IO Z :=
  try_except (do (os_remove path) ;;; ret 0) is_OSError
    (fun _ => log warn_remove_failed ;;; ret (-1)).

Fixpoint remove_files_loop (workdir : string) (files : list string) (ec : Z) : IO Z :=
  match files with
  | [] => ret ec
  | f :: rest =>
      _ec <~ remove (os_path_join workdir f) ;;
      let ec := if negb (_ec =? 0)%Z && (ec =? 0)%Z then _ec else ec in
      remove_files_loop workdir rest ec
  end.

Definition remove_files (workdir : string) (files : pyfiles) : IO Z :=
  let ec := 0 in
  match files with
  | not_a_list => log warn_files_not_a_list ;;; ret (-1)
  | a_list files => remove_files_loop workdir files ec
  end.

(** ** tar_files (lines 310-354) *)

(** The loops of lines 323-329 over what [os.walk] yields. *)
Fixpoint to_pack_files (wkdir : string) (excludedfiles : list string)
    (path : string) (files : list string) : list (string * string) :=
  match files with
  | [] => []
  | file :: rest =>
      if bool_decide (file ∈ excludedfiles)
      then to_pack_files wkdir excludedfiles path rest
      else
        let rel_dir := relpath os path wkdir in
        let file_rel_path := os_path_join rel_dir file in
        let file_path := os_path_join path file in
        (file_path, file_rel_path) :: to_pack_files wkdir excludedfiles path rest
  end.

Fixpoint to_pack_walk (wkdir : string) (excludedfiles : list string)
    (yielded : list (string * list string * list string)) : list (string * string) :=
  match yielded with
  | [] => []
  | (path, _, files) :: rest =>
      to_pack_files wkdir excludedfiles path files
        ++ to_pack_walk wkdir excludedfiles rest
  end.

(** Lines 332-336. *)
Definition pack (logfile_name : string) (to_pack : list (string * string)) : IO unit :=
  do (tarfile_open logfile_name "w:gz") ;;;
  for_each (fun f => do (tar_add (fst f) (snd f))) to_pack ;;;
  do tar_close.

(** The body of [tar_files]; [again] is the call of line 342. *)
Definition tar_files_body (again : string -> IO Z)
    (wkdir : string) (excludedfiles : list string) (logfile_name : string)
    (attempt : Z) : IO Z :=
  pack_start <~ ask time_time (clock os) ;;
  yielded <~ ask (os_walk wkdir true) (fun h => walked os h wkdir true) ;;
  let to_pack := to_pack_walk wkdir excludedfiles yielded in
  returned <~
    match to_pack with
    | _ :: _ =>
        let logfile_name := os_path_join wkdir logfile_name in
        try_except (pack logfile_name to_pack ;;; ret None) is_IOError
          (fun _ =>
             if (attempt =? 0)%Z
             then
               let safe_delay := 15 in
               log (warn_io_retry safe_delay) ;;;
               do (time_sleep safe_delay) ;;;
               again logfile_name ;;;
               ret None
             else
               log warn_io_give_up ;;;
               ret (Some 1))
    | [] => ret None
    end ;;
  match returned with
  | Some code => ret code
  | None =>
      for_each (fun f => remove (fst f) ;;; ret tt) to_pack ;;;
      remove_empty_directories wkdir ;;;
      now <~ ask time_time (clock os) ;;
      let pack_time := now - pack_start in
      log (debug_pack_time pack_time) ;;;
      ret 0
  end.

(** [tar_files] calls itself with [attempt=1] only, and a call with
    [attempt=1] does not call itself. *)
Definition tar_files_again (wkdir : string) (excludedfiles : list string)
    (logfile_name : string) : IO Z :=
  tar_files_body (fun _ => ret 0) wkdir excludedfiles logfile_name 1.

Definition tar_files (wkdir : string) (excludedfiles : list string)
    (logfile_name : string) (attempt : Z) : IO Z :=
  tar_files_body (tar_files_again wkdir excludedfiles)
    wkdir excludedfiles logfile_name attempt.

(** ** add_to_total_size, get_local_file_size (lines 413-452) *)

Definition get_local_file_size (filename : string) : IO (option Z) :=
  let file_size := None in
  found <~ ask (os_path_exists filename) (fun h => path_exists os h filename) ;;
  if found
  then
    fun h =>
      match fails os h (os_path_getsize filename) with
      | Some e =>
          (Returns file_size,
           h ++ [Did (os_path_getsize filename); Logged (warn_getsize_failed e)])
      | None =>
          (Returns (Some (getsize os h filename)),
           h ++ [Did (os_path_getsize filename)])
      end
  else log (warn_no_local_file filename) ;;; ret file_size.

Definition add_to_total_size (path : string) (total_size : Z) : IO Z :=
  found <~ ask (os_path_exists path) (fun h => path_exists os h path) ;;
  if found
  then
    fsize <~ get_local_file_size path ;;
    match fsize with
    | Some fsize =>
        if negb (fsize =? 0)%Z
        then log (info_file_size path fsize) ;;; ret (total_size + fsize)
        else ret total_size
    | None => ret total_size
    end
  else log (warn_skipping_file path) ;;; ret total_size.

(** ** get_table_from_file, _define_tabledict_keys (lines 466-557) *)

Section Table.

(** Python's floats and [float(field)], [None] when it raises. *)
Variable float : Type.
Variable to_float : string -> option float.

Inductive cell : Type :=
| Str (s : string)
| Float (x : float).

(** The loop of lines 538-545 and 549-555. *)
Fixpoint define_keys_loop (keys : list string)
    (tabledict : gmap string (list cell)) (keylist : list string)
  : gmap string (list cell) * list string :=
  match keys with
  | [] => (tabledict, keylist)
  | key :: rest =>
      if String.eqb key "" then define_keys_loop rest tabledict keylist
      else
        let key := if endswith key nl then drop_last key else key in
        define_keys_loop rest (<[key := []]> tabledict) (keylist ++ [key])
  end.

(** [not header]: the header is [None] or empty. *)
Definition no_header (header : option string) : bool :=
  match header with
  | None => true
  | Some h => String.eqb h ""
  end.

Definition _define_tabledict_keys (header : option string) (fields : list string)
    (separator : string) : IO (gmap string (list cell) * list string) :=
  let tabledict := ∅ in
  let keylist := [] in
  if no_header header
  then ret (define_keys_loop fields tabledict keylist)
  else
    match py_split (default "" header) separator with
    | Some keys => ret (define_keys_loop keys tabledict keylist)
    | None => raise ValueError
    end.

(** The loop of lines 505-516 over the fields of one line; it returns
    [None] when the function returns [None] (line 514). *)
Fixpoint fill_fields (convert_to_float : bool) (keylist : list string)
    (fields : list string) (i : nat) (tabledict : gmap string (list cell))
  : IO (option (gmap string (list cell))) :=
  match fields with
  | [] => ret (Some tabledict)
  | field :: rest =>
      match keylist !! i with
      | None => raise IndexError
      | Some key =>
          converted <~
            (if convert_to_float
             then match to_float field with
                  | Some x => ret (Some (Float x))
                  | None => log (warn_float_failed field) ;;; ret None
                  end
             else ret (Some (Str field))) ;;
          match converted with
          | None => ret None
          | Some field =>
              match tabledict !! key with
              | None => raise (KeyError key)
              | Some column =>
                  fill_fields convert_to_float keylist rest (S i)
                    (<[key := column ++ [field]]> tabledict)
              end
          end
      end
  end.

(** The loop of lines 495-516 over the lines of the file. *)
Fixpoint table_loop (header : option string) (separator : string)
    (convert_to_float : bool) (rows : list string) (firstline : bool)
    (tabledict : gmap string (list cell)) (keylist : list string)
  : IO (option (gmap string (list cell))) :=
  match rows with
  | [] => ret (Some tabledict)
  | line :: rest =>
      match py_split line separator with
      | None => raise ValueError
      | Some fields =>
          if firstline
          then
            keys <~ _define_tabledict_keys header fields separator ;;
            let tabledict := fst keys in
            let keylist := snd keys in
            if no_header header
            then table_loop header separator convert_to_float rest false
                   tabledict keylist
            else
              filled <~ fill_fields convert_to_float keylist fields 0 tabledict ;;
              match filled with
              | None => ret None
              | Some tabledict =>
                  table_loop header separator convert_to_float rest false
                    tabledict keylist
              end
          else
            filled <~ fill_fields convert_to_float keylist fields 0 tabledict ;;
            match filled with
            | None => ret None
            | Some tabledict =>
                table_loop header separator convert_to_float rest false
                  tabledict keylist
            end
      end
  end.

Definition get_table_from_file (filename : string) (header : option string)
    (separator : string) (convert_to_float : bool)
  : IO (option (gmap string (list cell))) :=
  let tabledict := ∅ in
  let keylist := [] in
  fun h =>
    match open_file filename "r" h with
    | (Raises e, h') =>
        (log (warn_open_failed filename e) ;;; ret (Some tabledict)) h'
    | (Returns None, h') => (Raises TypeError, h')
    | (Returns (Some f), h') =>
        (rows <~ ask (f_iter f) (fun h => lines os h f) ;;
         filled <~ table_loop header separator convert_to_float rows true
                     tabledict keylist ;;
         match filled with
         | None => ret None
         | Some tabledict => do (f_close f) ;;; ret (Some tabledict)
         end) h'
    end.

End Table.

End Functions.

Arguments Str {float} s.
Arguments Float {float} x.
Arguments define_keys_loop {float} keys tabledict keylist.
Arguments _define_tabledict_keys {float} header fields separator.
Arguments fill_fields {float} to_float convert_to_float keylist fields i tabledict.
Arguments table_loop {float} to_float header separator convert_to_float rows firstline tabledict keylist.
Arguments get_table_from_file os {float} to_float filename header separator convert_to_float.

(** ** Reading a history *)

(** The paths [os.remove] was called on, oldest first. *)
Definition removals (h : history) : list string :=
  omap (fun e => match e with Did (os_remove p) => Some p | _ => None end) h.

(** The directories [os.rmdir] was called on. *)
Definition rmdirs (h : history) : list string :=
  omap (fun e => match e with Did (os_rmdir p) => Some p | _ => None end) h.

(** The archives [tarfile.open] was called on. *)
Definition archives (h : history) : list string :=
  omap (fun e => match e with Did (tarfile_open n _) => Some n | _ => None end) h.

(** The warnings of [remove]. *)
Definition remove_warnings (h : history) : list unit :=
  omap (fun e => match e with Logged warn_remove_failed => Some tt | _ => None end) h.

(** Whether an archive was closed. *)
Definition closes_archive (e : os_event) : bool :=
  match e with Did tar_close => true | _ => false end.

(** A computation that returns nothing but values in [P]. *)
Definition returns_only {A} (P : A -> Prop) (m : IO A) : Prop :=
  forall h, match fst (m h) with Returns a => P a | Raises _ => True end.

(** An operating system none of whose calls raises, except that
    [tarfile.open] raises [IOError]. *)
Definition cannot_open_archive (os : OS) : Prop :=
  forall h c,
    fails os h c =
      match c with
      | tarfile_open _ _ => Some IOError
      | _ => None
      end.

(** [path] is relative. *)
Definition relative (path : string) : Prop := String.prefix "/" path = false.

(** Whether a name has a newline in it. *)
Fixpoint has_newline (s : string) : bool :=
  match s with
  | EmptyString => false
  | String c s' => Ascii.eqb c (Ascii.ascii_of_nat 10) || has_newline s'
  end.

(** What [find] prints for the files [names]: one name per line. *)
Fixpoint find_output (names : list string) : string :=
  match names with
  | [] => ""
  | name :: rest => name +:+ nl +:+ find_output rest
  end.

(** The key a field of the header gives (lines 542-543), and the keys a
    header gives (lines 538-545). *)
Definition key_of (field : string) : string :=
  if endswith field nl then drop_last field else field.

Definition keys_of (fields : list string) : list string :=
  map key_of (List.filter (fun f => negb (String.eqb f "")) fields).

(** The value stored for a field (lines 509-515), if its conversion does
    not fail. *)
Definition convert_field {float} (to_float : string -> option float)
    (convert_to_float : bool) (field : string) : option (cell float) :=
  if convert_to_float
  then option_map Float (to_float field)
  else Some (Str field).

(** The fields the header comes from, and the lines that hold data: with
    a header the first line is data, without one it is the header. *)
Definition header_fields (header : option string) (separator : string)
    (first_fields : list string) : option (list string) :=
  if no_header header then Some first_fields
  else py_split (default "" header) separator.

Definition data_lines (header : option string) (first : string)
    (rest : list string) : list string :=
  if no_header header then rest else first :: rest.

(** An operating system none of whose calls raises. *)
Definition reliable_os (os : OS) : Prop := forall h c, fails os h c = None.

(** The cell a line adds to column [j], when its fields go to the columns
    from [i] on. *)
Definition cell_at {float} (i j : nat) (cells : list (cell float))
  : list (cell float) :=
  if decide (i <= j)%nat then option_list (cells !! (j - i)%nat) else [].

(** ** Sample data *)

(** A work directory [w] with a log, a file that is not to be packed, and
    a subdirectory with a second log. *)
Definition walked0 (top : string) (topdown : bool)
  : list (string * list string * list string) :=
  if topdown
  then [("w", ["sub"], ["a.log"; "skip.me"]); ("w/sub", [], ["b.log"])]
  else [("w/sub", [], ["b.log"]); ("w", ["sub"], ["a.log"; "skip.me"])].

Definition relpath0 (path start : string) : string :=
  if String.eqb path start then "." else "sub".

(** A table of two columns under a first line that names them. *)
Definition table_lines : list string :=
  ["Time" +:+ tab +:+ "VMEM" +:+ nl;
   "1" +:+ tab +:+ "2" +:+ nl;
   "3" +:+ tab +:+ "4" +:+ nl].

(** As [table_lines], with a third field in the second line. *)
Definition long_lines : list string :=
  ["Time" +:+ tab +:+ "VMEM" +:+ nl;
   "1" +:+ tab +:+ "2" +:+ tab +:+ "3" +:+ nl].

(** An operating system where nothing fails and every path exists. *)
Definition os0 : OS :=
  mkOS (fun _ _ => None) (fun _ _ => true) (fun _ _ => 42)
       (fun _ => walked0) relpath0 (fun h => Z.of_nat (length h))
       (fun _ _ => "") (fun _ _ => table_lines)
       (fun _ _ => Some (find_output ["./a.log"; "./b.log"])).

(** As [os0], with the longer table. *)
Definition os_long : OS :=
  mkOS (fun _ _ => None) (fun _ _ => true) (fun _ _ => 42)
       (fun _ => walked0) relpath0 (fun h => Z.of_nat (length h))
       (fun _ _ => "") (fun _ _ => long_lines)
       (fun _ _ => Some (find_output ["./a.log"; "./b.log"])).

(** As [os0], but no path exists. *)
Definition os_absent : OS :=
  mkOS (fun _ _ => None) (fun _ _ => false) (fun _ _ => 42)
       (fun _ => walked0) relpath0 (fun h => Z.of_nat (length h))
       (fun _ _ => "") (fun _ _ => table_lines)
       (fun _ _ => Some (find_output ["./a.log"; "./b.log"])).

(** As [os0], but [w/a.log] cannot be removed. *)
Definition os_denied : OS :=
  mkOS (fun _ c => match c with
                   | os_remove p => if String.eqb p "w/a.log" then Some OSError else None
                   | _ => None
                   end)
       (fun _ _ => true) (fun _ _ => 42)
       (fun _ => walked0) relpath0 (fun h => Z.of_nat (length h))
       (fun _ _ => "") (fun _ _ => table_lines)
       (fun _ _ => Some (find_output ["./a.log"; "./b.log"])).

(** As [os0], but no archive can be opened. *)
Definition os_noarchive : OS :=
  mkOS (fun _ c => match c with tarfile_open _ _ => Some IOError | _ => None end)
       (fun _ _ => true) (fun _ _ => 42)
       (fun _ => walked0) relpath0 (fun h => Z.of_nat (length h))
       (fun _ _ => "") (fun _ _ => table_lines)
       (fun _ _ => Some (find_output ["./a.log"; "./b.log"])).

(** A conversion that knows the numbers 1 to 4 (with or without the
    newline that ends a line). *)
Definition to_float0 (field : string) : option Z :=
  let field := if endswith field nl then drop_last field else field in
  if String.eqb field "1" then Some 1
  else if String.eqb field "2" then Some 2
  else if String.eqb field "3" then Some 3
  else if String.eqb field "4" then Some 4
  else None.


End filehandling.

(** ** Basic facts *)

Lemma bind_ok {A B} (m : M A) (k : A -> M B) st a st' :
  m st = (Ok a, st') -> bind m k st = k a st'.
Proof. intros H. unfold bind. now rewrite H. Qed.

Lemma bind_raise {A B} (m : M A) (k : A -> M B) st e st' :
  m st = (Raise e, st') -> bind m k st = (Raise e, st').
Proof. intros H. unfold bind. now rewrite H. Qed.

(** Two continuations that agree after [m] has returned give the same
    computation. *)
Lemma bind_congr {A B} (m : M A) (k1 k2 : A -> M B) st :
  (forall a st1, m st = (Ok a, st1) -> k1 a st1 = k2 a st1) ->
  bind m k1 st = bind m k2 st.
Proof.
  intros H. unfold bind. destruct (m st) as [[a|e] st1]; [now apply H | reflexivity].
Qed.

Lemma pop_snoc (l : list message) (x : message) : pop (l ++ [x]) = Some (x, l).
Proof. unfold pop. rewrite rev_app_distr. simpl. now rewrite rev_involutive. Qed.

Lemma set_queued_same st : set_queued (queued_out_messages st) st = st.
Proof. now destruct st. Qed.

Lemma added_app st st' l : trace st' = trace st ++ l -> added st st' = l.
Proof. intros H. unfold added. rewrite H. apply drop_app_length. Qed.

Lemma emit_all_nil st : emit_all [] st = st.
Proof. destruct st. unfold emit_all. simpl. now rewrite app_nil_r. Qed.

Lemma emit_all_app es1 es2 st : emit_all es2 (emit_all es1 st) = emit_all (es1 ++ es2) st.
Proof. unfold emit_all. simpl. now rewrite app_assoc. Qed.

Lemma removal_attempts_app tr1 tr2 :
  removal_attempts (tr1 ++ tr2) = removal_attempts tr1 ++ removal_attempts tr2.
Proof. apply omap_app. Qed.

Lemma removal_notices_app tr1 tr2 :
  removal_notices (tr1 ++ tr2) = removal_notices tr1 ++ removal_notices tr2.
Proof. apply omap_app. Qed.

Lemma removal_failures_app tr1 tr2 :
  removal_failures (tr1 ++ tr2) = removal_failures tr1 ++ removal_failures tr2.
Proof. apply omap_app. Qed.

(** The calls of lines 145-150 remove nothing, announce nothing, start
    nothing. *)
Lemma cleanup_calls_silent (tail : list event) :
  forallb cleanup_call tail = true ->
  removal_attempts tail = [] /\ removal_notices tail = [] /\
  removal_failures tail = [] /\ reports tail = [] /\
  existsb worker_call tail = false.
Proof.
  induction tail as [|e tail IH]; [easy|].
  cbn [forallb]. intros [He Ht]%andb_prop. destruct (IH Ht) as (H1 & H2 & H3 & H4 & H5).
  destruct e as [[]| |]; try discriminate; cbn; auto.
Qed.

Lemma removal_notices_announced (ps : list string) :
  removal_notices (map (fun p => LogInfo (LRemoving p)) ps) = ps /\
  removal_attempts (map (fun p => LogInfo (LRemoving p)) ps) = [] /\
  removal_failures (map (fun p => LogInfo (LRemoving p)) ps) = [] /\
  reports (map (fun p => LogInfo (LRemoving p)) ps) = [] /\
  existsb worker_call (map (fun p => LogInfo (LRemoving p)) ps) = false.
Proof.
  induction ps as [|p ps (H1 & H2 & H3 & H4 & H5)]; [easy|].
  repeat split; [|assumption..].
  change (p :: removal_notices (map (fun p => LogInfo (LRemoving p)) ps) = p :: ps).
  now rewrite H1.
Qed.

(** *** The loop of [clean] *)

Lemma clean_entry_ok (m : message) (s : string) st :
  m !! "status" = Some s ->
  clean_entry m st =
    (Ok tt, emit_all (map (fun p => LogInfo (LRemoving p)) (option_list (cleanable m))) st).
Proof.
  intros Hs. unfold clean_entry, cleanable, bind, getitem. rewrite Hs. cbn.
  destruct (in_failed_fatal s).
  - cbn. now rewrite emit_all_nil.
  - destruct (m !! "output") as [out|]; cbn.
    + reflexivity.
    + now rewrite emit_all_nil.
Qed.

Lemma clean_entry_no_status (m : message) st :
  m !! "status" = None -> clean_entry m st = (Raise (KeyError "status"), st).
Proof. intros Hs. unfold clean_entry, bind, getitem. now rewrite Hs. Qed.

(** The loop gets through only if every entry has a status. *)
Lemma clean_loop_ok_inv (l : list message) st st' :
  for_each clean_entry l st = (Ok tt, st') ->
  Forall (fun m : message => is_Some (m !! "status")) l.
Proof.
  revert st. induction l as [|m l IH]; intros st H; [constructor|].
  cbn [for_each] in H. destruct (m !! "status") as [s|] eqn:Hs.
  - erewrite bind_ok in H by (apply (clean_entry_ok m s); exact Hs).
    constructor; [eauto|]. eapply IH; exact H.
  - erewrite bind_raise in H by (apply clean_entry_no_status; exact Hs).
    discriminate.
Qed.

(** What the loop does depends on the audit log alone: it adds the log
    lines of the entries it gets to, all of them when every entry has a
    status. *)
Lemma clean_loop_uniform (l : list message) :
  exists r ps,
    (forall st, for_each clean_entry l st
                = (r, emit_all (map (fun p => LogInfo (LRemoving p)) ps) st)) /\
    (Forall (fun m : message => is_Some (m !! "status")) l ->
     r = Ok tt /\ ps = omap cleanable l).
Proof.
  induction l as [|x l (r & ps & IH & Hall)].
  - exists (Ok tt), []. split; [|easy]. intros st. cbn. now rewrite emit_all_nil.
  - destruct (x !! "status") as [s|] eqn:Hs.
    + exists r, (option_list (cleanable x) ++ ps). split.
      * intros st. cbn [for_each].
        erewrite bind_ok by (apply (clean_entry_ok x s); exact Hs).
        now rewrite IH, emit_all_app, map_app.
      * intros [_ Hl]%Forall_cons. destruct (Hall Hl) as [-> ->]. split; [reflexivity|].
        cbn [omap]. unfold list_omap. now destruct (cleanable x).
    + exists (Raise (KeyError "status")), []. split.
      * intros st. cbn [for_each].
        erewrite bind_raise by (apply clean_entry_no_status; exact Hs).
        now rewrite emit_all_nil.
      * intros [[s Hs'] _]%Forall_cons. congruence.
Qed.

Lemma set_alive_emit_same tail st : set_alive (alive st) (emit_all tail st) = emit_all tail st.
Proof. now destruct st. Qed.

(** *** Properties kept by a computation *)

Create HintDb keep.

Lemma preserves_ret {A} P (a : A) : preserves P (ret a).
Proof. intros st H. exact H. Qed.

Lemma preserves_raise {A} P e : preserves P (@raise A e).
Proof. intros st H. exact H. Qed.

Lemma preserves_get P : preserves P get.
Proof. intros st H. exact H. Qed.

Lemma preserves_get_job P : preserves P get_job.
Proof. intros st H. exact H. Qed.

Lemma preserves_bind {A B} P (m : M A) (k : A -> M B) :
  preserves P m -> (forall a, preserves P (k a)) -> preserves P (bind m k).
Proof.
  intros Hm Hk st H. unfold bind. specialize (Hm st H).
  destruct (m st) as [[a|e] st1]; cbn in *; [now apply Hk | exact Hm].
Qed.

Lemma preserves_bind_raise {A B} P e (k : A -> M B) : preserves P (bind (raise e) k).
Proof. intros st H. exact H. Qed.

Lemma preserves_try_except {A} P (m : M A) (h : exn -> M A) :
  preserves P m -> (forall e, preserves P (h e)) -> preserves P (try_except m h).
Proof.
  intros Hm Hh st H. unfold try_except. specialize (Hm st H).
  destruct (m st) as [[a|e] st1]; cbn in *; [exact Hm | now apply Hh].
Qed.

Lemma preserves_modify P (f : executor -> executor) :
  (forall st, P st -> P (f st)) -> preserves P (modify f).
Proof. intros Hf st H. now apply Hf. Qed.

Lemma preserves_getitem P (d : message) (k : string) : preserves P (getitem d k).
Proof. intros st H. unfold getitem. now destruct (d !! k). Qed.

Lemma preserves_attr {A} P name (f : Job -> A) j : preserves P (attr name f j).
Proof. intros st H. now destruct j. Qed.

Lemma preserves_for_each {A} P (body : A -> M unit) (l : list A) :
  (forall x, preserves P (body x)) -> preserves P (for_each body l).
Proof.
  intros Hb. induction l as [|x l IH]; cbn [for_each].
  - apply preserves_ret.
  - apply preserves_bind; [apply Hb | intros _; exact IH].
Qed.

Section Properties.

Variable env : Env.

Lemma clean_unfold st :
  clean env st =
    match the_job st with
    | None => (Raise (AttributeError "jobid"), st)
    | Some _ =>
        match for_each clean_entry (all_out_messages st) st with
        | (Ok _, st1) =>
            clean_tail env (set_all [] (set_last None (set_queued [] st1)))
        | (Raise e, st1) => (Raise e, st1)
        end
    end.
Proof.
  unfold clean, clean_tail, bind, get_job, attr, get, modify, ret, raise.
  destruct (the_job st); [|reflexivity].
  now destruct (for_each clean_entry (all_out_messages st) st) as [[[]|e] st1].
Qed.

(** *** stageout_es *)

Lemma drain_all (q acc : list message) st :
  queued_out_messages st = q ->
  drain (length q) acc st = (Ok (acc ++ rev q), set_queued [] st).
Proof.
  revert acc st. induction q as [|x q IH] using rev_ind; intros acc st Hq.
  - simpl. rewrite app_nil_r. rewrite <- Hq. now rewrite set_queued_same.
  - rewrite length_app, Nat.add_comm. simpl.
    unfold bind at 1, get. rewrite Hq, pop_snoc.
    unfold bind at 1, modify.
    rewrite IH by reflexivity.
    rewrite rev_app_distr. simpl. now rewrite <- app_assoc.
Qed.

Lemma finished_range_of_Some (m : message) (r : pyval) :
  finished_range_of m = Some r ->
  exists i o, m !! "id" = Some i /\ m !! "output" = Some o /\ r = finished_range i o.
Proof.
  unfold finished_range_of. intros H.
  destruct (m !! "id") as [i|]; [|discriminate].
  destruct (m !! "output") as [o|]; [|discriminate].
  exists i, o. repeat split. congruence.
Qed.

Lemma finished_loop_ok (msgs : list message) (acc ers : list pyval) st :
  mapM finished_range_of msgs = Some ers ->
  finished_loop msgs acc st = (Ok (acc ++ ers), st).
Proof.
  intros H. apply mapM_Some_1 in H. revert acc.
  induction H as [|m r msgs ers Hm _ IH]; intros acc; simpl.
  - now rewrite app_nil_r.
  - apply finished_range_of_Some in Hm as (i & o & Hi & Ho & ->).
    unfold bind, getitem. rewrite Hi, Ho. simpl.
    rewrite IH. now rewrite <- app_assoc.
Qed.

(** A failing [finished_loop] leaves the executor as it was. *)
Lemma finished_loop_state (msgs : list message) (acc : list pyval) st r st' :
  finished_loop msgs acc st = (r, st') -> st' = st.
Proof.
  revert acc. induction msgs as [|m msgs IH]; intros acc E; simpl in E.
  - now injection E.
  - unfold bind, getitem in E.
    destruct (m !! "id"); simpl in E; [|now injection E].
    destruct (m !! "output"); simpl in E; [|now injection E].
    eauto.
Qed.

(** [stageout_es] never writes the time of the last stage-out. *)
Lemma stageout_es_last_stageout_time force st :
  last_stageout_time (snd (stageout_es env force st)) = last_stageout_time st.
Proof.
  unfold stageout_es, bind, get_job, get.
  destruct (negb _); [|reflexivity].
  assert (Hdrain : forall acc,
             drain (length (queued_out_messages st)) acc st
             = (Ok (acc ++ rev (queued_out_messages st)), set_queued [] st))
    by (intros; now apply drain_all).
  assert (Hupd : forall l st1,
             last_stageout_time (snd (update_finished_event_ranges env l st1))
             = last_stageout_time st1).
  { intros l st1. unfold update_finished_event_ranges.
    destruct (length l =? 0)%nat; [reflexivity|].
    unfold bind.
    destruct (finished_loop l [] st1) as [[ers|e] st2] eqn:E;
      apply finished_loop_state in E as ->; [|reflexivity].
    unfold update_events, ext. destruct (raises env _ _); simpl; [reflexivity|].
    unfold get_job, attr. simpl. destruct (the_job st1); reflexivity. }
  unfold flush_due. destruct force.
  - simpl. rewrite Hdrain. now rewrite Hupd.
  - unfold bind, get. destruct (last_stageout_time st) as [last|] eqn:El.
    + unfold attr. destruct (the_job st); simpl; [|now rewrite El].
      destruct (_ >? _)%Z; simpl; [|now rewrite El].
      rewrite Hdrain, Hupd. simpl. exact El.
    + simpl. rewrite Hdrain, Hupd. simpl. exact El.
Qed.

(** C9: with an empty pending queue [stageout_es] does nothing, whatever
    [force] is: it returns normally and the executor is unchanged, so no
    report is sent, the job's event counter keeps its value and so does the
    time of the last stage-out. *)
Theorem stageout_es_empty_queue (force : bool) (st : executor) :
  queued_out_messages st = [] ->
  stageout_es env force st = (Ok tt, st) /\
  reports (added st (snd (stageout_es env force st))) = [] /\
  the_job (snd (stageout_es env force st)) = the_job st /\
  last_stageout_time (snd (stageout_es env force st)) = last_stageout_time st.
Proof.
  intros Hq.
  assert (E : stageout_es env force st = (Ok tt, st)).
  { unfold stageout_es, bind, get_job, get. now rewrite Hq. }
  rewrite E. simpl. repeat split.
  unfold added. now rewrite drop_all.
Qed.

(** C5: a flush performed by [stageout_es] over a pending queue of N
    messages that carry an id and an output empties the queue and hands
    exactly one report to [update_events]: version 1, [numEvents] N, and
    one record [{eventRangeID: id, eventStatus: 'finished', fileLocation:
    output}] per drained message, last queued first; N is added to the
    job's event counter, and the audit log and the time of the last
    stage-out are left as they were. *)
Theorem stageout_es_flush (force : bool) (st : executor) (j : Job) (ers : list pyval) :
  the_job st = Some j ->
  queued_out_messages st <> [] ->
  (force = true \/ last_stageout_time st = None \/
   exists last, last_stageout_time st = Some last /\
                time_time env (trace st) > last + es_stageout_gap j) ->
  Forall2 (fun (m : message) (r : pyval) =>
             exists i o, m !! "id" = Some i /\ m !! "output" = Some o /\
               r = PDict [("eventRangeID", PStr i); ("eventStatus", PStr "finished");
                          ("fileLocation", PStr o)])
          (rev (queued_out_messages st)) ers ->
  let N := Z.of_nat (length (queued_out_messages st)) in
  let report :=
    PDict [("version", PInt 1);
           ("eventRanges",
            PJson (PList [PDict [("esOutput", PDict [("numEvents", PInt N)]);
                                 ("eventRanges", PList ers)]]))] in
  raises env (trace st) (CUpdateEvents report) = false ->
  exists st',
    stageout_es env force st = (Ok tt, st') /\
    queued_out_messages st' = [] /\
    trace st' = trace st ++ [Call (CUpdateEvents report)] /\
    reports (added st st') = [report] /\
    length ers = length (queued_out_messages st) /\
    the_job st' = Some (mkJob (jobid j) (nevents j + N) (es_stageout_gap j)) /\
    all_out_messages st' = all_out_messages st /\
    last_stageout_time st' = last_stageout_time st.
Proof.
  intros Hj Hq Hdue Hrec N report Hok.
  assert (Hers : mapM finished_range_of (rev (queued_out_messages st)) = Some ers).
  { apply mapM_Some_2. eapply Forall2_impl; [exact Hrec|].
    intros m r (i & o & Hi & Ho & ->). unfold finished_range_of. now rewrite Hi, Ho. }
  assert (Hlen : length ers = length (queued_out_messages st)).
  { apply length_mapM in Hers. now rewrite length_rev in Hers. }
  assert (Hrep : finished_report ers = report).
  { unfold finished_report, report, N. now rewrite Hlen. }
  rewrite <- Hrep in Hok.
  assert (Hne : (length (queued_out_messages st) =? 0)%nat = false).
  { apply Nat.eqb_neq. destruct (queued_out_messages st); simpl; congruence. }
  assert (Hflush : flush_due env force (Some j) st = (Ok true, st)).
  { unfold flush_due. destruct force; [reflexivity|].
    unfold bind, get. destruct Hdue as [?|[->|(last & -> & Hlt)]]; try discriminate.
    - reflexivity.
    - simpl. unfold ret. do 2 f_equal. apply Z.gtb_gt. lia. }
  assert (E : stageout_es env force st =
              (Ok tt,
               set_job (Some (mkJob (jobid j) (nevents j + Z.of_nat (length ers))
                                (es_stageout_gap j)))
                 (emit (Call (CUpdateEvents (finished_report ers))) (set_queued [] st)))).
  { unfold stageout_es, bind at 1, get_job. rewrite Hj.
    unfold bind at 1, get. rewrite Hne. cbn [negb].
    erewrite bind_ok by exact Hflush. cbv iota.
    erewrite bind_ok by (apply drain_all; reflexivity).
    simpl app.
    unfold update_finished_event_ranges.
    rewrite length_rev, Hne.
    erewrite bind_ok by (apply finished_loop_ok; exact Hers).
    simpl app. unfold bind at 1, update_events, ext. simpl trace. rewrite Hok.
    unfold bind, get_job, attr, ret, modify. simpl. rewrite Hj. simpl.
    reflexivity. }
  eexists. split; [exact E|]. rewrite Hrep.
  split; [reflexivity|]. split; [reflexivity|].
  split; [now erewrite added_app by reflexivity|].
  split; [exact Hlen|].
  split; [cbn; unfold N; now rewrite Hlen|]. now split.
Qed.

(** *** update_failed_event_ranges *)

Lemma failed_range_of_Some (m : message) (r : pyval) :
  failed_range_of m = Some r ->
  exists s i, m !! "status" = Some s /\ m !! "id" = Some i /\
              r = failed_range i (if in_failed_fatal s then s else "failed").
Proof.
  unfold failed_range_of. intros H.
  destruct (m !! "status") as [s|]; [|discriminate].
  destruct (m !! "id") as [i|]; [|discriminate].
  exists s, i. repeat split. congruence.
Qed.

(** The loop sends one report per message; the k-th one carries the
    records of the first k messages (after those already in
    [event_ranges]). *)
Lemma failed_loop_trace (msgs : list message) (recs acc : list pyval) st :
  (forall tr m, raises env tr (CUpdateEvents m) = false) ->
  mapM failed_range_of msgs = Some recs ->
  exists st',
    failed_loop env msgs acc st = (Ok tt, st') /\
    trace st' = trace st ++
      map (fun k => Call (CUpdateEvents (failed_report (acc ++ take (S k) recs))))
          (seq 0 (length recs)) /\
    queued_out_messages st' = queued_out_messages st /\
    all_out_messages st' = all_out_messages st.
Proof.
  intros Hok H. apply mapM_Some_1 in H. revert acc st.
  induction H as [|m r msgs recs Hm _ IH]; intros acc st.
  - exists st. simpl. now rewrite app_nil_r.
  - apply failed_range_of_Some in Hm as (s & i & Hs & Hi & ->).
    cbn [failed_loop]. unfold getitem. rewrite Hs, Hi.
    unfold bind at 1, ret. unfold bind at 1.
    unfold bind at 1, update_events, ext. rewrite Hok.
    destruct (IH (acc ++ [failed_range i (if in_failed_fatal s then s else "failed")])
                 (emit (Call (CUpdateEvents (failed_report
                    (acc ++ [failed_range i (if in_failed_fatal s then s else "failed")])))) st))
      as (st' & E & Htr & Hq & Ha).
    exists st'. split; [exact E|]. split; [|split; [exact Hq | exact Ha]].
    rewrite Htr. cbn [trace emit length seq map take].
    rewrite <- app_assoc. cbn [app]. do 2 f_equal.
    rewrite <- seq_shift, map_map. apply map_ext. intros k.
    now rewrite <- app_assoc.
Qed.

(** The number of reports [update_failed_event_ranges] sends is the number
    of messages it is given. *)
Lemma update_failed_event_ranges_reports (msgs : list message) (recs : list pyval) st :
  (forall tr m, raises env tr (CUpdateEvents m) = false) ->
  mapM failed_range_of msgs = Some recs ->
  exists st',
    update_failed_event_ranges env msgs st = (Ok tt, st') /\
    trace st' = trace st ++
      map (fun k => Call (CUpdateEvents (failed_report (take (S k) recs))))
          (seq 0 (length recs)).
Proof.
  intros Hok H. unfold update_failed_event_ranges.
  destruct (failed_loop_trace msgs recs [] st Hok H) as (st' & E & Htr & _).
  destruct msgs as [|m msgs].
  - apply mapM_Some_1 in H. inversion H; subst. exists st. simpl.
    now rewrite app_nil_r.
  - cbn [length Nat.eqb]. exists st'. split; [exact E|exact Htr].
Qed.

(** *** handle_out_message *)

Lemma handle_out_message_unfold (m : message) st :
  handle_out_message env m st =
    match the_job st with
    | None => (Raise (AttributeError "jobid"), st)
    | Some _ =>
        let st1 := set_all (all_out_messages st ++ [m])
                     (emit (LogInfo (LHandling m)) st) in
        match m !! "status" with
        | None => (Raise (KeyError "status"), st1)
        | Some s =>
            if in_failed_fatal s then
              match m !! "id" with
              | None => (Raise (KeyError "id"), st1)
              | Some i =>
                  ext env (CUpdateEvents (failed_report [failed_range i s])) st1
              end
            else (Ok tt, set_queued (queued_out_messages st ++ [m]) st1)
        end
    end.
Proof.
  unfold handle_out_message, update_failed_event_ranges.
  cbn [length Nat.eqb failed_loop].
  unfold bind, get_job, attr, ret, raise, log_info, modify, getitem, update_events.
  destruct (the_job st); [|reflexivity]. cbn.
  destruct (m !! "status") as [s|]; [|reflexivity]. cbn.
  destruct (in_failed_fatal s) eqn:Ef; [|reflexivity]. cbn.
  destruct (m !! "id") as [i|]; [|reflexivity]. cbn.
  unfold ext. now destruct (raises env _ _).
Qed.

Lemma in_failed_fatal_true (s : string) :
  in_failed_fatal s = true <-> s = "failed" \/ s = "fatal".
Proof.
  unfold in_failed_fatal. rewrite orb_true_iff, !bool_decide_eq_true. tauto.
Qed.

Lemma in_failed_fatal_false (s : string) :
  in_failed_fatal s = false <-> s <> "failed" /\ s <> "fatal".
Proof.
  unfold in_failed_fatal. rewrite orb_false_iff, !bool_decide_eq_false. tauto.
Qed.

(** C4: [handle_out_message] appends the message to the audit log exactly
    once whatever its status.  A message whose status is 'failed' or
    'fatal' is reported at once, in a report of its own (version 0, the one
    record [{errorCode: 1220, eventRangeID: id, eventStatus: status}]), and
    the pending queue is left alone.  A message with any other status is
    appended once to the pending queue and nothing is reported: the only
    event is the log line. *)
Theorem handle_out_message_routes (st : executor) (m : message) (j : Job) :
  the_job st = Some j ->
  let st' := snd (handle_out_message env m st) in
  all_out_messages st' = all_out_messages st ++ [m] /\
  (forall s, m !! "status" = Some s -> s = "failed" \/ s = "fatal" ->
     queued_out_messages st' = queued_out_messages st /\
     forall i, m !! "id" = Some i ->
       trace st' = trace st ++
         [LogInfo (LHandling m);
          Call (CUpdateEvents
                  (PDict [("version", PInt 0);
                          ("eventRanges",
                           PJson (PList [PDict [("errorCode", PInt 1220);
                                                ("eventRangeID", PStr i);
                                                ("eventStatus", PStr s)]]))]))] /\
       (raises env (trace st ++ [LogInfo (LHandling m)])
               (CUpdateEvents
                  (PDict [("version", PInt 0);
                          ("eventRanges",
                           PJson (PList [PDict [("errorCode", PInt 1220);
                                                ("eventRangeID", PStr i);
                                                ("eventStatus", PStr s)]]))])) = false ->
        fst (handle_out_message env m st) = Ok tt)) /\
  (forall s, m !! "status" = Some s -> s <> "failed" -> s <> "fatal" ->
     fst (handle_out_message env m st) = Ok tt /\
     queued_out_messages st' = queued_out_messages st ++ [m] /\
     trace st' = trace st ++ [LogInfo (LHandling m)] /\
     reports (added st st') = []).
Proof.
  intros Hj. cbv zeta. rewrite handle_out_message_unfold, Hj. cbv zeta.
  set (st1 := set_all (all_out_messages st ++ [m]) (emit (LogInfo (LHandling m)) st)).
  destruct (m !! "status") as [s|] eqn:Hs.
  - destruct (in_failed_fatal s) eqn:Ef.
    + assert (Hall : all_out_messages
                       (snd match m !! "id" with
                            | Some i => ext env (CUpdateEvents (failed_report [failed_range i s])) st1
                            | None => (Raise (KeyError "id"), st1)
                            end) = all_out_messages st ++ [m]).
      { destruct (m !! "id"); [|reflexivity]. unfold ext.
        now destruct (raises env _ _). }
      split; [exact Hall|]. split.
      * intros s' [= <-] _.
        destruct (m !! "id") as [i|] eqn:Hi.
        -- unfold ext. change (trace st1) with (trace st ++ [LogInfo (LHandling m)]).
           destruct (raises env _ _) eqn:Er;
             (split; [reflexivity|]); intros i' [= <-];
             (split; [cbn [snd trace emit st1 set_all]; now rewrite <- app_assoc|]).
           ++ unfold failed_report, failed_range in Er. congruence.
           ++ reflexivity.
        -- split; [reflexivity|]. intros i' [=].
      * intros s' [= <-] H1 H2. apply in_failed_fatal_true in Ef. tauto.
    + split; [reflexivity|]. split.
      * intros s' [= <-] Hf. apply in_failed_fatal_true in Hf. congruence.
      * intros s' [= <-] _ _. split; [reflexivity|]. split; [reflexivity|].
        split; [reflexivity|]. now erewrite added_app by reflexivity.
  - split; [reflexivity|]. split; intros s' [=].
Qed.

(** *** clean *)

Lemma is_alive_ok st :
  raises env (trace st) CIsAlive = false ->
  is_alive env st =
    (Ok (hd false (alive st)), set_alive (tl (alive st)) (emit (Call CIsAlive) st)).
Proof.
  intros H. unfold is_alive, bind, ext, get. rewrite H. cbn.
  destruct (alive st) as [|a rest] eqn:E; cbn.
  - unfold ret. f_equal. destruct st; cbn in *. now subst.
  - reflexivity.
Qed.

(** A sleep during which the worker delivers nothing is the call alone. *)
Lemma sleep_quiet (d : Z) st :
  quiet env -> sleep env d st = ext env (CSleep d) st.
Proof.
  intros Hq. unfold sleep, bind, ext, get.
  destruct (raises env (trace st) (CSleep d)); [reflexivity|].
  now rewrite Hq.
Qed.

(** Whatever the collaborators do, the wait for the worker's end makes
    cleanup calls only when the worker delivers nothing; it returns when
    they do. *)
Lemma wait_while_alive_events (fuel : nat) (d : Z) st :
  quiet env ->
  exists r tail rest,
    wait_while_alive env fuel d st = (r, set_alive rest (emit_all tail st)) /\
    forallb cleanup_call tail = true /\
    (cleanup_calls_return env -> r = Ok tt).
Proof.
  intros Hquiet.
  revert st. induction fuel as [|fuel IH]; intros st; cbn [wait_while_alive];
    (destruct (raises env (trace st) CIsAlive) eqn:Ea;
     [ exists (Raise (ExternalError CIsAlive)), [Call CIsAlive], (alive st);
       split; [|split; [reflexivity|]];
       [ unfold bind at 1, is_alive, bind, ext; rewrite Ea;
         now rewrite set_alive_emit_same
       | intros Henv; destruct (Henv (trace st)) as (_ & H & _); congruence ]
     | erewrite bind_ok by (apply is_alive_ok; exact Ea) ]).
  - exists (Ok tt), [Call CIsAlive], (tl (alive st)).
    split; [now destruct (hd false (alive st))|]. now split.
  - destruct (hd false (alive st)).
    + set (st1 := set_alive (tl (alive st)) (emit (Call CIsAlive) st)).
      unfold bind. rewrite (sleep_quiet d st1 Hquiet). unfold ext.
      destruct (raises env (trace st1) (CSleep d)) eqn:Es.
      * exists (Raise (ExternalError (CSleep d))), [Call CIsAlive; Call (CSleep d)],
          (tl (alive st)).
        split; [|split; [reflexivity|]].
        -- f_equal. unfold st1, set_alive, emit_all, emit. cbn. f_equal.
           now rewrite <- app_assoc.
        -- intros Henv. destruct (Henv (trace st1)) as (_ & _ & _ & H).
           specialize (H d). congruence.
      * destruct (IH (emit (Call (CSleep d)) st1)) as (r & tail & rest & E & Ht & Hr).
        exists r, (Call CIsAlive :: Call (CSleep d) :: tail), rest.
        split; [|split; [exact Ht | exact Hr]].
        rewrite E. f_equal.
        unfold st1, set_alive, emit_all, emit. cbn. f_equal.
        now rewrite <- !app_assoc.
    + exists (Ok tt), [Call CIsAlive], (tl (alive st)). now split.
Qed.

(** The same for lines 145-150 as a whole. *)
Lemma clean_tail_events st :
  quiet env ->
  exists r tail rest,
    clean_tail env st = (r, set_alive rest (emit_all tail st)) /\
    forallb cleanup_call tail = true /\
    (cleanup_calls_return env -> r = Ok tt).
Proof.
  intros Hquiet.
  assert (Hcomm : forall st1, exists r,
             ext env CStopCommunicator st1 = (r, emit (Call CStopCommunicator) st1) /\
             (cleanup_calls_return env -> r = Ok tt)).
  { intros st1. unfold ext. destruct (raises env (trace st1) CStopCommunicator) eqn:E.
    - eexists. split; [reflexivity|]. intros Henv.
      destruct (Henv (trace st1)) as (_ & _ & H & _). congruence.
    - eexists. split; [reflexivity|]. reflexivity. }
  unfold clean_tail, bind at 1, get.
  destruct (proc st) as [p|].
  - unfold bind at 1. unfold bind at 1, ext at 1.
    destruct (raises env (trace st) CStop) eqn:Es.
    + exists (Raise (ExternalError CStop)), [Call CStop], (alive st).
      split; [now rewrite set_alive_emit_same|]. split; [reflexivity|].
      intros Henv. destruct (Henv (trace st)) as (H & _). congruence.
    + destruct (wait_while_alive_events (length (alive st)) 1 (emit (Call CStop) st)
                  Hquiet)
        as (r & tail & rest & E & Ht & Hr).
      rewrite E. destruct r as [[]|e].
      * destruct (Hcomm (set_alive rest (emit_all tail (emit (Call CStop) st))))
          as (r' & E' & Hr').
        exists r', (Call CStop :: tail ++ [Call CStopCommunicator]), rest.
        split; [|split; [|exact Hr']].
        -- rewrite E'. f_equal. unfold set_alive, emit_all, emit. cbn. f_equal.
           now rewrite <- !app_assoc.
        -- cbn. now rewrite forallb_app, Ht.
      * exists (Raise e), (Call CStop :: tail), rest.
        split; [|split; [exact Ht | exact Hr]].
        f_equal. unfold set_alive, emit_all, emit. cbn. f_equal.
        now rewrite <- !app_assoc.
  - unfold bind, ret. destruct (Hcomm st) as (r & E & Hr).
    exists r, [Call CStopCommunicator], (alive st).
    split; [|split; [reflexivity | exact Hr]].
    rewrite E. destruct r; now rewrite set_alive_emit_same.
Qed.

(** What [clean] adds to the trace, whatever its outcome, when the worker
    delivers nothing: removal notices,
    then cleanup calls.  From an executor with a job handle and a status in
    every entry of the audit log the notices are those of the whole audit
    log and the two lists and the time of the last stage-out are reset; if
    moreover the cleanup calls return, so does [clean]. *)
Lemma clean_events st :
  quiet env ->
  exists r st' ps tail,
    clean env st = (r, st') /\
    trace st' = trace st ++ map (fun p => LogInfo (LRemoving p)) ps ++ tail /\
    forallb cleanup_call tail = true /\
    (cleanable_state st ->
     ps = omap cleanable (all_out_messages st) /\
     st' = cleaned st tail (alive st') /\
     (cleanup_calls_return env -> r = Ok tt)).
Proof.
  intros Hquiet. rewrite clean_unfold.
  destruct (the_job st) as [j|] eqn:Hj.
  - destruct (clean_loop_uniform (all_out_messages st)) as (r & ps & E & Hall).
    rewrite E. destruct r as [[]|e].
    + destruct (clean_tail_events
                  (set_all [] (set_last None (set_queued []
                     (emit_all (map (fun p => LogInfo (LRemoving p)) ps) st))))
                  Hquiet)
        as (r & tail & rest & Et & Ht & Hr).
      rewrite Et. exists r. eexists. exists ps, tail.
      split; [reflexivity|]. split; [cbn; now rewrite <- app_assoc|].
      split; [exact Ht|].
      intros [_ Hs]. destruct (Hall Hs) as [_ ->].
      split; [reflexivity|]. split; [|exact Hr].
      unfold cleaned, set_alive, emit_all. cbn. f_equal. now rewrite <- app_assoc.
    + eexists. eexists. exists ps, []. split; [reflexivity|].
      split; [cbn; now rewrite app_nil_r|]. split; [reflexivity|].
      intros [_ Hs]. now destruct (Hall Hs).
  - eexists. eexists. exists [], []. split; [reflexivity|].
    split; [cbn; now rewrite app_nil_r|]. split; [reflexivity|].
    intros [[j' Hj'] _]. congruence.
Qed.

(** [clean] returns when there is a job handle, every entry of the audit
    log has a status, the calls of lines 145-150 return and the worker
    delivers nothing; it announces
    the outputs of the entries that are neither failed nor fatal, resets
    the two lists and the time of the last stage-out, and stops the worker
    and the communicator. *)
Lemma clean_returns st :
  quiet env ->
  cleanup_calls_return env ->
  cleanable_state st ->
  exists tail rest,
    clean env st = (Ok tt, cleaned st tail rest) /\
    forallb cleanup_call tail = true.
Proof.
  intros Hquiet Henv Hst.
  destruct (clean_events st Hquiet) as (r & st' & ps & tail & E & _ & Ht & H).
  destruct (H Hst) as (_ & Est & Hr). rewrite (Hr Henv) in E.
  exists tail, (alive st'). split; [congruence | exact Ht].
Qed.

(** [clean] returns only from an executor it can get through. *)
Lemma clean_ok_inv st st' :
  clean env st = (Ok tt, st') -> cleanable_state st.
Proof.
  rewrite clean_unfold. intros H.
  destruct (the_job st) as [j|] eqn:Hj; [|discriminate].
  split; [eauto|].
  destruct (for_each clean_entry (all_out_messages st) st) as [[[]|e] st1] eqn:E;
    [|discriminate].
  eapply clean_loop_ok_inv; exact E.
Qed.

Lemma added_cleaned st tail rest :
  added st (cleaned st tail rest) =
    map (fun p => LogInfo (LRemoving p)) (omap cleanable (all_out_messages st)) ++ tail.
Proof. now apply added_app. Qed.

(** C7, as amended: when the calls that stop the worker and the
    communicator return and the worker delivers no message meanwhile, a
    [clean] that has returned can be called again: the second call returns
    as well, attempts no removal and announces none, and after each of the
    two calls the pending queue and the audit log are empty and the time of
    the last stage-out is unset. *)
Theorem clean_idempotent (st st1 : executor) :
  quiet env ->
  cleanup_calls_return env ->
  clean env st = (Ok tt, st1) ->
  exists st2,
    clean env st1 = (Ok tt, st2) /\
    removal_attempts (added st1 st2) = [] /\
    removal_notices (added st1 st2) = [] /\
    (queued_out_messages st1 = [] /\ all_out_messages st1 = [] /\
     last_stageout_time st1 = None) /\
    (queued_out_messages st2 = [] /\ all_out_messages st2 = [] /\
     last_stageout_time st2 = None).
Proof.
  intros Hquiet Henv E1.
  pose proof (clean_ok_inv st st1 E1) as Hst.
  destruct (clean_returns st Hquiet Henv Hst) as (tail1 & rest1 & E1' & _).
  rewrite E1 in E1'. injection E1' as ->.
  assert (Hst1 : cleanable_state (cleaned st tail1 rest1)).
  { split; [exact (proj1 Hst) | constructor]. }
  destruct (clean_returns _ Hquiet Henv Hst1) as (tail2 & rest2 & E2 & Ht2).
  eexists. split; [exact E2|].
  rewrite added_cleaned. cbn [all_out_messages cleaned omap list_omap map app].
  destruct (cleanup_calls_silent tail2 Ht2) as (T1 & T2 & _).
  repeat split; assumption.
Qed.

(** C10: an entry of the audit log that is neither failed nor fatal and has
    no ['output'] field is passed over by [clean]: handling it changes
    nothing and raises nothing, and [clean] behaves as if the entry were
    not in the audit log: same outcome, same executor afterwards (the audit
    log of a call that raised apart, which is the one it was given). *)
Theorem clean_skips_entry_without_output
    (m : message) (s : string) (l1 l2 : list message) (st : executor) :
  m !! "status" = Some s ->
  in_failed_fatal s = false ->
  m !! "output" = None ->
  clean_entry m st = (Ok tt, st) /\
  (forall st1, for_each clean_entry (l1 ++ m :: l2) st1
               = for_each clean_entry (l1 ++ l2) st1) /\
  fst (clean env (set_all (l1 ++ m :: l2) st))
    = fst (clean env (set_all (l1 ++ l2) st)) /\
  set_all [] (snd (clean env (set_all (l1 ++ m :: l2) st)))
    = set_all [] (snd (clean env (set_all (l1 ++ l2) st))).
Proof.
  intros Hs Hf Ho.
  assert (Hentry : forall st1, clean_entry m st1 = (Ok tt, st1)).
  { intros st1. rewrite (clean_entry_ok m s) by exact Hs.
    unfold cleanable. rewrite Hs, Hf, Ho. cbn. now rewrite emit_all_nil. }
  assert (Hloop : forall st1, for_each clean_entry (l1 ++ m :: l2) st1
                              = for_each clean_entry (l1 ++ l2) st1).
  { induction l1 as [|x l1 IH]; intros st1; cbn [app for_each].
    - now erewrite bind_ok by apply Hentry.
    - unfold bind. destruct (clean_entry x st1) as [[[]|e] st2]; [apply IH|reflexivity]. }
  split; [apply Hentry|]. split; [exact Hloop|].
  rewrite !clean_unfold. cbn [the_job all_out_messages set_all].
  destruct (the_job st) as [j|]; [|now split].
  rewrite Hloop.
  destruct (clean_loop_uniform (l1 ++ l2)) as (r & ps & E & _).
  rewrite !E. now destruct r as [[]|e].
Qed.

(** *** run *)

Lemma preserves_finished_loop P msgs acc : preserves P (finished_loop msgs acc).
Proof.
  intros st H. destruct (finished_loop msgs acc st) as [r st'] eqn:E.
  apply finished_loop_state in E as ->. exact H.
Qed.

Lemma preserves_ext P c :
  (forall st, P st -> P (emit (Call c) st)) -> preserves P (ext env c).
Proof. intros Hc st H. unfold ext. destruct (raises env _ _); now apply Hc. Qed.

Lemma preserves_ext_val {A} P c (f : list event -> A) :
  (forall st, P st -> P (emit (Call c) st)) -> preserves P (ext_val env c f).
Proof. intros Hc st H. unfold ext_val. destruct (raises env _ _); now apply Hc. Qed.

Ltac frame := solve [ intros ? ?; assumption ].

Ltac keep :=
  repeat
    match goal with
    | |- preserves _ (bind (raise _) _) => apply preserves_bind_raise
    | |- preserves _ (ret _) => apply preserves_ret
    | |- preserves _ (raise _) => apply preserves_raise
    | |- preserves _ get => apply preserves_get
    | |- preserves _ get_job => apply preserves_get_job
    | |- preserves _ (getitem _ _) => apply preserves_getitem
    | |- preserves _ (attr _ _ _) => apply preserves_attr
    | |- preserves _ (finished_loop _ _) => apply preserves_finished_loop
    | |- preserves _ (ext _ _) => apply preserves_ext; frame
    | |- preserves _ (ext_val _ _ _) => apply preserves_ext_val; frame
    | |- preserves _ (modify _) => apply preserves_modify; frame
    | |- preserves _ (log_info _) => unfold log_info
    | |- preserves _ (log_error _) => unfold log_error
    | |- preserves _ (for_each _ _) => apply preserves_for_each; intros ?
    | |- preserves _ (bind _ _) => apply preserves_bind; [|intros ?]
    | |- preserves _ (try_except _ _) => apply preserves_try_except; [|intros ?]
    | |- preserves _ (match ?x with _ => _ end) => destruct x
    | |- preserves _ _ => solve [auto with keep]
    end.

(** A stage-out does not touch the answers of the worker. *)
Lemma alive_drain l fuel acc : preserves (fun s => alive s = l) (drain fuel acc).
Proof. revert acc. induction fuel as [|fuel IH]; intros acc; cbn [drain]; keep. Qed.
Hint Resolve alive_drain : keep.

Lemma alive_update_finished_event_ranges l msgs :
  preserves (fun s => alive s = l) (update_finished_event_ranges env msgs).
Proof. unfold update_finished_event_ranges, update_events. keep. Qed.
Hint Resolve alive_update_finished_event_ranges : keep.

Lemma alive_stageout_es force st :
  alive (snd (stageout_es env force st)) = alive st.
Proof.
  assert (H : preserves (fun s => alive s = alive st) (stageout_es env force))
    by (unfold stageout_es, flush_due; keep).
  exact (H st eq_refl).
Qed.

(** Nor does a message of the worker, or a sleep during which messages
    arrive. *)
Lemma alive_handle_out_message l m :
  preserves (fun s => alive s = l) (handle_out_message env m).
Proof.
  unfold handle_out_message, update_failed_event_ranges, log_info.
  cbn [length Nat.eqb failed_loop]. unfold update_events. keep.
Qed.

Lemma alive_deliver l m : preserves (fun s => alive s = l) (deliver env m).
Proof. intros st H. exact (alive_handle_out_message l m st H). Qed.
Hint Resolve alive_deliver : keep.

Lemma alive_sleep d st r st1 : sleep env d st = (r, st1) -> alive st1 = alive st.
Proof.
  intros E.
  assert (H : preserves (fun s => alive s = alive st) (sleep env d))
    by (unfold sleep; keep).
  specialize (H st eq_refl). now rewrite E in H.
Qed.

Lemma is_alive_Ok_inv st a st1 :
  is_alive env st = (Ok a, st1) ->
  a = hd false (alive st) /\ alive st1 = tl (alive st).
Proof.
  intros H. destruct (raises env (trace st) CIsAlive) eqn:E.
  - unfold is_alive, bind, ext in H. now rewrite E in H.
  - rewrite (is_alive_ok st E) in H. injection H as <- <-. now split.
Qed.

Lemma alive_ext c st r st1 : ext env c st = (r, st1) -> alive st1 = alive st.
Proof. unfold ext. destruct (raises env _ _); now intros [= _ <-]. Qed.

Lemma alive_ext_val {A} c (f : list event -> A) st r st1 :
  ext_val env c f st = (r, st1) -> alive st1 = alive st.
Proof. unfold ext_val. destruct (raises env _ _); now intros [= _ <-]. Qed.

(** The wait loop does not depend on its fuel once there is one unit per
    answer the worker has left: it ends at the first [False], which comes
    at the latest when the answers are used up. *)
Lemma wait_while_alive_fuel (n m : nat) (d : Z) st :
  (length (alive st) <= n)%nat -> (length (alive st) <= m)%nat ->
  wait_while_alive env n d st = wait_while_alive env m d st.
Proof.
  revert m st. induction n as [|n IH]; intros m st Hn Hm;
    destruct m as [|m]; cbn [wait_while_alive]; try reflexivity;
    apply bind_congr; intros a st1 [-> Ha]%is_alive_Ok_inv;
    destruct (alive st) as [|[] rest]; cbn in *; try lia; try reflexivity.
  apply bind_congr. intros [] st2 E%alive_sleep.
  apply IH; rewrite E, Ha; lia.
Qed.

(** The same for the poll loop. *)
Lemma poll_loop_fuel (n m : nat) (iteration : Z) st :
  (length (alive st) <= n)%nat -> (length (alive st) <= m)%nat ->
  poll_loop env n iteration st = poll_loop env m iteration st.
Proof.
  revert m iteration st. induction n as [|n IH]; intros m iteration st Hn Hm;
    destruct m as [|m]; cbn [poll_loop]; try reflexivity;
    apply bind_congr; intros a st1 [-> Ha]%is_alive_Ok_inv;
    destruct (alive st) as [|[] rest]; cbn in *; try lia; try reflexivity.
  apply bind_congr. intros [] st2 E2%alive_ext_val; [reflexivity|].
  apply bind_congr. intros [] st3 E3.
  pose proof (alive_stageout_es false st2) as H3. rewrite E3 in H3. cbn in H3.
  apply bind_congr. intros code st4 E4%alive_ext_val.
  apply bind_congr. intros [] st5 E5.
  assert (H5 : alive st5 = alive st4)
    by (destruct (_ =? _)%Z; now injection E5 as <-).
  apply bind_congr. intros [] st6 E6%alive_sleep.
  apply IH; rewrite E6, H5, E4, H3, E2, Ha; lia.
Qed.

Lemma run_unfold st :
  run env st =
    match run_body env st with
    | (Ok _, st1) => (Ok tt, emit (LogInfo LExecutorFinished) st1)
    | (Raise e, st1) =>
        match clean env (emit (LogError (LExecuteFailed e)) st1) with
        | (Ok _, st2) =>
            (Ok tt, emit (LogInfo LExecutorFinished) (set_exit_code (Some (-1)) st2))
        | (Raise e', st2) => (Raise e', st2)
        end
    end.
Proof.
  unfold run, try_except, bind, log_error, log_info, modify.
  destruct (run_body env st) as [[[]|e] st1]; [reflexivity|].
  now destruct (clean env (emit (LogError (LExecuteFailed e)) st1)) as [[[]|e'] st2].
Qed.

(** C8 (the code departs from the claim): with neither a pre-set payload
    nor payload retrieval, [run] logs the error and its body fails before
    the worker process is created.  [get_job()] reads the job from the
    payload, so that such an executor has no job: the body raises
    [AttributeError] at line 166, the handler logs it and calls [clean],
    which raises [AttributeError] again at line 130, this time out of
    [run].  No exit code is stored, -1 or other, and the closing log line is
    not written. *)
Theorem run_without_payload_escapes (st : executor) :
  is_set_payload env = false ->
  is_retrieve_payload env = false ->
  (exists e,
      run_body env st =
        (Raise e, emit_all [LogInfo LStarting; LogError LNoPayload] st)) /\
  (the_job st = None ->
   run env st =
     (Raise (AttributeError "jobid"),
      emit_all [LogInfo LStarting; LogError LNoPayload;
                LogError (LExecuteFailed (AttributeError "jobid"))] st) /\
   exit_code (snd (run env st)) = exit_code st /\
   existsb worker_call (added st (snd (run env st))) = false).
Proof.
  intros Hset Hret.
  assert (Hbody : exists e,
             run_body env st =
               (Raise e, emit_all [LogInfo LStarting; LogError LNoPayload] st) /\
             (the_job st = None -> e = AttributeError "jobid")).
  { unfold run_body, bind, log_info, log_error, modify, get_job, attr, ret, raise.
    rewrite Hset, Hret. cbn.
    destruct (the_job st) as [j|]; eexists; (split; [|intros Hj]).
    - f_equal. unfold emit, emit_all. cbn. now rewrite <- app_assoc.
    - discriminate.
    - f_equal. unfold emit, emit_all. cbn. now rewrite <- app_assoc.
    - reflexivity. }
  destruct Hbody as (e & Hbody & He). split; [now exists e|].
  intros Hj. rewrite (He Hj) in Hbody.
  assert (E : run env st =
     (Raise (AttributeError "jobid"),
      emit_all [LogInfo LStarting; LogError LNoPayload;
                LogError (LExecuteFailed (AttributeError "jobid"))] st)).
  { rewrite run_unfold, Hbody, clean_unfold. cbn [the_job emit emit_all]. rewrite Hj.
    f_equal. unfold emit, emit_all. cbn. now rewrite <- app_assoc. }
  rewrite E. split; [reflexivity|]. split; [reflexivity|].
  now erewrite added_app by reflexivity.
Qed.

End Properties.

(** Witness of [stageout_es_empty_queue]: a forced stage-out of the fresh
    executor. *)
Lemma stageout_es_empty_queue_witness :
  stageout_es env0 true st0 = (Ok tt, st0) /\
  reports (added st0 (snd (stageout_es env0 true st0))) = [] /\
  the_job (snd (stageout_es env0 true st0)) = the_job st0 /\
  last_stageout_time (snd (stageout_es env0 true st0)) = last_stageout_time st0.
Proof. apply (stageout_es_empty_queue env0 true st0). reflexivity. Defined.

(** Witness of [stageout_es_flush]: two finished messages are pending, no
    stage-out has happened yet. *)
Lemma stageout_es_flush_witness :
  the_job st_r1_r4 = Some job0 /\
  queued_out_messages st_r1_r4 = [msg_r1; msg_r4] /\
  exists st',
    stageout_es env0 false st_r1_r4 = (Ok tt, st') /\
    queued_out_messages st' = [] /\
    reports (added st_r1_r4 st') =
      [PDict [("version", PInt 1);
              ("eventRanges",
               PJson (PList
                 [PDict [("esOutput", PDict [("numEvents", PInt 2)]);
                         ("eventRanges",
                          PList [PDict [("eventRangeID", PStr "r4");
                                        ("eventStatus", PStr "finished");
                                        ("fileLocation", PStr "/tmp/r4.out")];
                                 PDict [("eventRangeID", PStr "r1");
                                        ("eventStatus", PStr "finished");
                                        ("fileLocation", PStr "/tmp/r1.out")]])]]))]] /\
    the_job st' = Some (mkJob "4711" 2 600).
Proof.
  split; [reflexivity|]. split; [reflexivity|].
  destruct (stageout_es_flush env0 false st_r1_r4 job0
              [PDict [("eventRangeID", PStr "r4"); ("eventStatus", PStr "finished");
                      ("fileLocation", PStr "/tmp/r4.out")];
               PDict [("eventRangeID", PStr "r1"); ("eventStatus", PStr "finished");
                      ("fileLocation", PStr "/tmp/r1.out")]])
    as (st' & H1 & H2 & _ & H4 & _ & H6 & _).
  - reflexivity.
  - discriminate.
  - right; left; reflexivity.
  - constructor; [exists "r4", "/tmp/r4.out"; now repeat split|].
    constructor; [exists "r1", "/tmp/r1.out"; now repeat split|].
    constructor.
  - reflexivity.
  - exists st'. split; [exact H1|]. split; [exact H2|]. split; [exact H4 | exact H6].
Defined.

(** C1 (the code departs from the claim): a non-forced stage-out sends the
    report for r1 and leaves the time of the last stage-out unset; two
    clock ticks later, well within the gap of 600, a second non-forced
    stage-out finds r4 pending and sends a second report. *)
Theorem stageout_es_throttle_not_enforced :
  reports (trace st_r1_flushed) =
    [finished_report [finished_range "r1" "/tmp/r1.out"]] /\
  last_stageout_time st_r1_flushed = None /\
  time_time env0 (trace st_r1) = 1001 /\
  time_time env0 (trace st_r4) = 1003 /\
  es_stageout_gap job0 = 600 /\
  queued_out_messages st_r4 = [msg_r4] /\
  reports (trace st_r4_flushed) =
    [finished_report [finished_range "r1" "/tmp/r1.out"];
     finished_report [finished_range "r4" "/tmp/r4.out"]].
Proof. repeat split; vm_compute; reflexivity. Qed.

(** C3 (the code departs from the claim): given two failure messages,
    [update_failed_event_ranges] forwards two reports, the first with the
    record of r2 alone and the second with the records of r2 and r3. *)
Theorem update_failed_event_ranges_two_reports :
  reports (trace (snd (update_failed_event_ranges env0 [msg_r2; msg_r3] st0))) =
    [failed_report [failed_range "r2" "failed"];
     failed_report [failed_range "r2" "failed"; failed_range "r3" "fatal"]].
Proof. vm_compute. reflexivity. Qed.

(** Witness of [handle_out_message_routes]: the failed message r2, then
    the finished message r1, reach the fresh executor. *)
Lemma handle_out_message_routes_witness :
  the_job st0 = Some job0 /\
  (let st' := snd (handle_out_message env0 msg_r2 st0) in
   all_out_messages st' = [msg_r2] /\
   queued_out_messages st' = [] /\
   trace st' =
     [LogInfo (LHandling msg_r2);
      Call (CUpdateEvents
              (PDict [("version", PInt 0);
                      ("eventRanges",
                       PJson (PList [PDict [("errorCode", PInt 1220);
                                            ("eventRangeID", PStr "r2");
                                            ("eventStatus", PStr "failed")]]))]))] /\
   fst (handle_out_message env0 msg_r2 st0) = Ok tt) /\
  (let st' := snd (handle_out_message env0 msg_r1 st0) in
   all_out_messages st' = [msg_r1] /\
   fst (handle_out_message env0 msg_r1 st0) = Ok tt /\
   queued_out_messages st' = [msg_r1] /\
   trace st' = [LogInfo (LHandling msg_r1)] /\
   reports (added st0 st') = []).
Proof.
  split; [reflexivity|]. split.
  - destruct (handle_out_message_routes env0 st0 msg_r2 job0 eq_refl) as (H1 & H2 & _).
    destruct (H2 "failed" eq_refl (or_introl eq_refl)) as [H3 H4].
    destruct (H4 "r2" eq_refl) as [H5 H6].
    split; [exact H1|]. split; [exact H3|]. split; [exact H5|]. exact (H6 eq_refl).
  - destruct (handle_out_message_routes env0 st0 msg_r1 job0 eq_refl) as (H1 & _ & H2).
    assert (N1 : "finished" <> "failed") by discriminate.
    assert (N2 : "finished" <> "fatal") by discriminate.
    destruct (H2 "finished" eq_refl N1 N2) as (H3 & H4 & H5 & H6).
    split; [exact H1|]. split; [exact H3|]. split; [exact H4|].
    split; [exact H5 | exact H6].
Defined.

(** C6 (the code departs from the claim): r1 finished with output
    /tmp/r1.out and is in the audit log; [clean] returns and logs
    "Removing es premerge file: /tmp/r1.out", yet it makes no call that
    removes /tmp/r1.out (line 138 is commented out). *)
Theorem clean_removes_nothing :
  ~ clean_removes_artifacts env0 st_r1 /\
  all_out_messages st_r1 = [msg_r1] /\
  cleanable msg_r1 = Some "/tmp/r1.out" /\
  fst (clean env0 st_r1) = Ok tt /\
  removal_notices (added st_r1 (snd (clean env0 st_r1))) = ["/tmp/r1.out"] /\
  removal_attempts (added st_r1 (snd (clean env0 st_r1))) = [] /\
  removal_failures (added st_r1 (snd (clean env0 st_r1))) = [].
Proof.
  split; [|repeat split; vm_compute; reflexivity].
  intros H. specialize (H msg_r1 "/tmp/r1.out").
  assert (Hin : msg_r1 ∈ all_out_messages st_r1) by (apply list_elem_of_here).
  specialize (H Hin eq_refl). vm_compute in H. inversion H.
Qed.

(** Witness of [clean_idempotent]: two calls after r1. *)
Lemma clean_idempotent_witness :
  exists st2,
    clean env0 (snd (clean env0 st_r1)) = (Ok tt, st2) /\
    removal_attempts (added (snd (clean env0 st_r1)) st2) = [] /\
    removal_notices (added (snd (clean env0 st_r1)) st2) = [].
Proof.
  destruct (clean_idempotent env0 st_r1 (snd (clean env0 st_r1)))
    as (st2 & E & H1 & H2 & _).
  - intros tr. reflexivity.
  - intros tr. repeat split.
  - reflexivity.
  - exists st2. repeat split; assumption.
Defined.

(** C7, counterexample: the worker delivered r6, which has no status;
    [handle_out_message] put it in the audit log before it raised.  From
    that executor [clean] raises [KeyError] at line 133, before the resets
    of lines 141-143; a second call finds the same audit log and raises
    again.  The same holds of an executor without a job, where both calls
    raise [AttributeError] at line 130. *)
Lemma clean_raises_twice :
  (all_out_messages st_r6 = [msg_r6] /\
   clean env0 st_r6 = (Raise (KeyError "status"), st_r6) /\
   clean env0 (snd (clean env0 st_r6)) = (Raise (KeyError "status"), st_r6) /\
   all_out_messages (snd (clean env0 (snd (clean env0 st_r6)))) = [msg_r6]) /\
  (clean env0 (init None []) = (Raise (AttributeError "jobid"), init None []) /\
   clean env0 (snd (clean env0 (init None []))) =
     (Raise (AttributeError "jobid"), init None [])).
Proof. repeat split; vm_compute; reflexivity. Qed.

(** Witness of [clean_skips_entry_without_output]: r5 finished without an
    output path, between r1 and r4. *)
Lemma clean_skips_entry_without_output_witness :
  clean_entry msg_r5 st0 = (Ok tt, st0) /\
  fst (clean env0 (set_all ([msg_r1] ++ msg_r5 :: [msg_r4]) st0))
    = fst (clean env0 (set_all ([msg_r1] ++ [msg_r4]) st0)).
Proof.
  destruct (clean_skips_entry_without_output env0 msg_r5 "finished"
              [msg_r1] [msg_r4] st0) as (H1 & _ & H3 & _).
  - reflexivity.
  - reflexivity.
  - reflexivity.
  - split; assumption.
Defined.

(** C2 (the code departs from the claim): [run] lets an exception out
    when [clean] raises inside the handler, whose call of line 210 is not
    guarded.  First input: the communicator cannot be stopped; [clean]
    raises at the end of the body, the handler logs the error and calls
    [clean] once more, which raises again.  Second input: the audit log
    holds a message without ['status']; [clean] raises [KeyError] in the
    body and again in the handler.  Third input: a fresh executor without a
    job; line 166 raises [AttributeError], and so does line 130 in the
    handler.  No exit code is stored in any of the three cases, and the
    closing log line is not written. *)
Theorem run_lets_cleanup_failure_escape :
  (fst (run env_stopfail st0) = Raise (ExternalError CStopCommunicator) /\
   exit_code (snd (run env_stopfail st0)) = None /\
   trace (snd (run env_stopfail st0)) =
     [LogInfo LStarting; LogInfo (LPayload "payload");
      LogInfo LStartingESProcess; Call (CNewESProcess "payload");
      LogInfo LESProcessInitialized; Call CSetGetEventRangesHook;
      Call CSetHandleOutMessageHook; LogInfo LESProcessStarts;
      Call CStart; LogInfo LESProcessStarted; Call CIsAlive;
      Call CIsAlive; LogInfo LESProcessFinished;
      Call CStop; Call CIsAlive; Call CStopCommunicator;
      LogError (LExecuteFailed (ExternalError CStopCommunicator));
      Call CStop; Call CIsAlive; Call CStopCommunicator]) /\
  (all_out_messages st_r6 = [msg_r6] /\
   fst (run env0 st_r6) = Raise (KeyError "status") /\
   exit_code (snd (run env0 st_r6)) = None /\
   added st_r6 (snd (run env0 st_r6)) =
     [LogInfo LStarting; LogInfo (LPayload "payload");
      LogInfo LStartingESProcess; Call (CNewESProcess "payload");
      LogInfo LESProcessInitialized; Call CSetGetEventRangesHook;
      Call CSetHandleOutMessageHook; LogInfo LESProcessStarts;
      Call CStart; LogInfo LESProcessStarted; Call CIsAlive;
      Call CIsAlive; LogInfo LESProcessFinished;
      LogError (LExecuteFailed (KeyError "status"))]) /\
  (fst (run env0 (init None [])) = Raise (AttributeError "jobid") /\
   exit_code (snd (run env0 (init None []))) = None /\
   trace (snd (run env0 (init None []))) =
     [LogInfo LStarting; LogError (LExecuteFailed (AttributeError "jobid"))]).
Proof. repeat split; vm_compute; reflexivity. Qed.

(** Witness of [run_without_payload_escapes]: the fresh executor without
    payload, hence without job. *)
Lemma run_without_payload_escapes_witness :
  is_set_payload env_nopayload = false /\
  is_retrieve_payload env_nopayload = false /\
  the_job (init None []) = None /\
  run env_nopayload (init None []) =
    (Raise (AttributeError "jobid"),
     emit_all [LogInfo LStarting; LogError LNoPayload;
               LogError (LExecuteFailed (AttributeError "jobid"))] (init None [])) /\
  exit_code (snd (run env_nopayload (init None []))) = None /\
  existsb worker_call (added (init None []) (snd (run env_nopayload (init None []))))
    = false.
Proof.
  split; [reflexivity|]. split; [reflexivity|]. split; [reflexivity|].
  destruct (run_without_payload_escapes env_nopayload (init None []) eq_refl eq_refl)
    as [_ H].
  exact (H eq_refl).
Defined.

(** * Further properties of the executor *)

Lemma finished_loop_fails (msgs : list message) (acc : list pyval) st :
  mapM finished_range_of msgs = None ->
  exists k, finished_loop msgs acc st = (Raise (KeyError k), st).
Proof.
  intros H. apply mapM_None_1 in H. revert acc.
  induction msgs as [|m msgs IH]; intros acc; [inversion H|].
  cbn [finished_loop]. unfold bind, getitem.
  destruct (finished_range_of m) as [r|] eqn:Er.
  - assert (Hrest : Exists (fun x => finished_range_of x = None) msgs)
      by (inversion H; subst; [congruence | assumption]).
    apply finished_range_of_Some in Er as (i & o & -> & -> & _). cbn.
    now apply IH.
  - unfold finished_range_of in Er.
    destruct (m !! "id") as [i|]; cbn; [|now exists "id"].
    destruct (m !! "output") as [o|]; cbn; [discriminate | now exists "output"].
Qed.

Section Outcomes.

Variable env : Env.

(** The outcomes of [update_finished_event_ranges] on a non-empty list. *)
Lemma update_finished_event_ranges_cases (l : list message) st :
  l <> [] ->
  match mapM finished_range_of l with
  | None => exists k, update_finished_event_ranges env l st = (Raise (KeyError k), st)
  | Some ers =>
      let sent := emit (Call (CUpdateEvents (finished_report ers))) st in
      update_finished_event_ranges env l st =
        if raises env (trace st) (CUpdateEvents (finished_report ers))
        then (Raise (ExternalError (CUpdateEvents (finished_report ers))), sent)
        else match the_job st with
             | Some j =>
                 (Ok tt,
                  set_job (Some (mkJob (jobid j)
                                   (nevents j + Z.of_nat (length ers))
                                   (es_stageout_gap j))) sent)
             | None => (Raise (AttributeError "nevents"), sent)
             end
  end.
Proof.
  intros Hl. unfold update_finished_event_ranges.
  assert ((length l =? 0)%nat = false) as ->
    by (apply Nat.eqb_neq; destruct l; cbn; congruence).
  destruct (mapM finished_range_of l) as [ers|] eqn:Em.
  - cbn zeta. erewrite bind_ok by (apply finished_loop_ok; exact Em).
    cbn [app]. unfold bind at 1, update_events, ext.
    destruct (raises env _ _); [reflexivity|].
    unfold bind, get_job, attr, ret, raise, modify. cbn.
    now destruct (the_job st).
  - destruct (finished_loop_fails l [] st Em) as [k Hk].
    exists k. now erewrite bind_raise by exact Hk.
Qed.

(** The test of line 119 leaves the executor alone. *)
Lemma flush_due_state force job st r st' :
  flush_due env force job st = (r, st') -> st' = st.
Proof.
  unfold flush_due, bind, get, attr, ret, raise.
  destruct force; [now intros [= _ <-]|].
  destruct (last_stageout_time st); [|now intros [= _ <-]].
  destruct job; now intros [= _ <-].
Qed.

Lemma stageout_es_unfold force st :
  stageout_es env force st =
    match queued_out_messages st with
    | [] => (Ok tt, st)
    | _ :: _ =>
        match flush_due env force (the_job st) st with
        | (Ok true, _) =>
            update_finished_event_ranges env (rev (queued_out_messages st))
              (set_queued [] st)
        | (Ok false, _) => (Ok tt, st)
        | (Raise e, _) => (Raise e, st)
        end
    end.
Proof.
  unfold stageout_es, bind at 1, get_job. unfold bind at 1, get.
  destruct (queued_out_messages st) as [|x q] eqn:Eq; [reflexivity|].
  cbn [length Nat.eqb negb]. unfold bind at 1.
  destruct (flush_due env force (the_job st) st) as [[[]|e] st1] eqn:Ef;
    apply flush_due_state in Ef as ->; try reflexivity.
  erewrite bind_ok by (apply (drain_all (x :: q)); exact Eq).
  reflexivity.
Qed.

(** X5: when [stageout_es] raises although there is a job handle, the
    queue has been emptied all the same and the event counter of the job
    has not moved: either a drained message lacks ['id'] or ['output'] and
    nothing was sent, or [update_events] raised on the report. *)
Theorem stageout_es_failure_drops_batch (force : bool) (st st' : executor)
    (j : Job) (e : exn) :
  the_job st = Some j ->
  stageout_es env force st = (Raise e, st') ->
  queued_out_messages st <> [] /\
  queued_out_messages st' = [] /\
  the_job st' = Some j /\
  all_out_messages st' = all_out_messages st /\
  ((exists k, e = KeyError k /\ reports (added st st') = [] /\
              mapM finished_range_of (rev (queued_out_messages st)) = None) \/
   (exists ers, e = ExternalError (CUpdateEvents (finished_report ers)) /\
                reports (added st st') = [finished_report ers] /\
                mapM finished_range_of (rev (queued_out_messages st)) = Some ers)).
Proof.
  intros Hj. rewrite stageout_es_unfold.
  destruct (queued_out_messages st) as [|x q] eqn:Eq; [discriminate|].
  destruct (flush_due env force (the_job st) st) as [[[]|e'] st1] eqn:Ef.
  - assert (Hne : rev (x :: q) <> [])
      by (intros H%(f_equal (@length _)); rewrite length_rev in H; discriminate).
    pose proof (update_finished_event_ranges_cases (rev (x :: q)) (set_queued [] st) Hne)
      as H.
    destruct (mapM finished_range_of (rev (x :: q))) as [ers|].
    + cbn zeta in H. rewrite H. cbn [trace set_queued the_job]. rewrite Hj.
      destruct (raises env (trace st) _); [|discriminate].
      intros [= <- <-]. split; [discriminate|]. repeat split; try assumption.
      right. exists ers. repeat split.
      erewrite added_app by reflexivity. reflexivity.
    + destruct H as [k ->]. intros [= <- <-]. split; [discriminate|].
      repeat split; try assumption.
      left. exists k. repeat split. unfold added. cbn. now rewrite drop_all.
  - discriminate.
  - exfalso. unfold flush_due, bind, get, attr, ret in Ef. rewrite Hj in Ef.
    destruct force; [discriminate|].
    destruct (last_stageout_time st); discriminate.
Qed.

(** When the loop of [clean] raises, it is on a missing status. *)
Lemma clean_loop_raises (l : list message) st e st' :
  for_each clean_entry l st = (Raise e, st') -> e = KeyError "status".
Proof.
  revert st. induction l as [|x l IH]; intros st H; cbn [for_each] in H.
  - discriminate.
  - destruct (x !! "status") as [s|] eqn:Hs.
    + erewrite bind_ok in H by (apply (clean_entry_ok x s); exact Hs). eauto.
    + erewrite bind_raise in H by (apply clean_entry_no_status; exact Hs).
      now injection H as <-.
Qed.

(** X9: without a job handle, or with an entry of the audit log that has no
    status, [clean] raises ([AttributeError], resp. [KeyError]) before it
    resets anything: the pending queue and the audit log are as they were,
    and neither the worker nor the communicator is stopped. *)
Theorem clean_raises_before_reset (st : executor) :
  ~ cleanable_state st ->
  exists e,
    fst (clean env st) = Raise e /\
    (e = AttributeError "jobid" \/ e = KeyError "status") /\
    queued_out_messages (snd (clean env st)) = queued_out_messages st /\
    all_out_messages (snd (clean env st)) = all_out_messages st /\
    proc (snd (clean env st)) = proc st /\
    alive (snd (clean env st)) = alive st /\
    existsb cleanup_call (added st (snd (clean env st))) = false.
Proof.
  intros Hn. rewrite clean_unfold.
  destruct (the_job st) as [j|] eqn:Hj.
  - destruct (clean_loop_uniform (all_out_messages st)) as (r & ps & E & _).
    pose proof (E st) as Est. rewrite Est.
    destruct r as [[]|e].
    + exfalso. apply Hn. split; [rewrite Hj; eauto|].
      eapply clean_loop_ok_inv; exact Est.
    + exists e. cbn [fst snd]. apply clean_loop_raises in Est as ->.
      repeat split; auto.
      erewrite added_app by reflexivity.
      clear. now induction ps.
  - exists (AttributeError "jobid"). cbn [fst snd]. repeat split; auto.
    unfold added. now rewrite drop_all.
Qed.

End Outcomes.

(** ** Rules for triples *)

Lemma triple_conseq {A} (P P' : executor -> Prop) (m : M A)
    (Q Q' : A -> executor -> Prop) (E E' : exn -> executor -> Prop) :
  triple P' m Q' E' ->
  (forall st, P st -> P' st) ->
  (forall a st, Q' a st -> Q a st) ->
  (forall e st, E' e st -> E e st) ->
  triple P m Q E.
Proof.
  intros H HP HQ HE st Hst. specialize (H st (HP st Hst)).
  destruct (m st) as [[a|e] st']; auto.
Qed.

Lemma triple_ret {A} (P : executor -> Prop) (a : A) Q E :
  (forall st, P st -> Q a st) -> triple P (ret a) Q E.
Proof. intros H st Hst. now apply H. Qed.

Lemma triple_raise {A} (P : executor -> Prop) e (Q : A -> executor -> Prop) E :
  (forall st, P st -> E e st) -> triple P (raise e) Q E.
Proof. intros H st Hst. now apply H. Qed.

Lemma triple_bind {A B} (P : executor -> Prop) (m : M A) (k : A -> M B)
    (Q : A -> executor -> Prop) (R : B -> executor -> Prop) E :
  triple P m Q E -> (forall a, triple (Q a) (k a) R E) ->
  triple P (bind m k) R E.
Proof.
  intros Hm Hk st Hst. unfold bind. specialize (Hm st Hst).
  destruct (m st) as [[a|e] st1]; [now apply Hk | exact Hm].
Qed.

Lemma triple_bind_get {B} (P : executor -> Prop) (k : executor -> M B) R E :
  (forall st0, triple (fun st => P st /\ st = st0) (k st0) R E) ->
  triple P (bind get k) R E.
Proof. intros Hk st Hst. unfold bind, get. now apply (Hk st). Qed.

Lemma triple_bind_get_job {B} (P : executor -> Prop) (k : option Job -> M B) R E :
  (forall j, triple (fun st => P st /\ the_job st = j) (k j) R E) ->
  triple P (bind get_job k) R E.
Proof. intros Hk st Hst. unfold bind, get_job. now apply (Hk (the_job st)). Qed.

Lemma triple_modify (P : executor -> Prop) (f : executor -> executor) Q E :
  (forall st, P st -> Q tt (f st)) -> triple P (modify f) Q E.
Proof. intros H st Hst. now apply H. Qed.

Lemma triple_try_except {A} (P : executor -> Prop) (m : M A) (h : exn -> M A)
    (Q : A -> executor -> Prop) (E' E : exn -> executor -> Prop) :
  triple P m Q E' -> (forall e, triple (E' e) (h e) Q E) ->
  triple P (try_except m h) Q E.
Proof.
  intros Hm Hh st Hst. unfold try_except. specialize (Hm st Hst).
  destruct (m st) as [[a|e] st1]; [exact Hm | now apply Hh].
Qed.

Lemma triple_false {A} (m : M A) Q E : triple (fun _ => False) m Q E.
Proof. intros st []. Qed.

(** ** The control flow of [run], for any assertion

    [P] holds until the forced stage-out, [F] after it, [C] after [clean]
    and [Pfinal] when the body returns; [E] is what holds when it raises.
    The two stage-outs and [clean] are taken as given; [P] is kept by every
    message the worker delivers. *)

Section RunTriple.

Variable env : Env.
Variables P F C Pfinal : executor -> Prop.
Variable E : exn -> executor -> Prop.

Hypothesis P_emit : forall ev st,
  match ev with Call (CUpdateEvents _) => False | _ => True end ->
  P st -> P (emit ev st).
Hypothesis P_raise : forall c st,
  P st -> raises env (trace st) c = true -> E (ExternalError c) (emit (Call c) st).
Hypothesis P_set_alive : forall a st, P st -> P (set_alive a st).
Hypothesis P_set_proc : forall p st, P st -> P (set_proc (Some p) st).
Hypothesis P_deliver : forall tr m st,
  m ∈ delivers env tr -> P st -> P (snd (handle_out_message env m st)).
Hypothesis P_no_job : forall st,
  P st -> the_job st = None -> E (AttributeError "jobid") st.
Hypothesis P_no_payload : forall st,
  P st -> is_set_payload env = false -> is_retrieve_payload env = false ->
  E (UnboundLocalError "payload") st.
Hypothesis P_stageout_es : triple P (stageout_es env false) (fun _ => P) E.
Hypothesis P_forced : triple P (stageout_es env true) (fun _ => F) E.
Hypothesis F_clean : triple F (clean env) (fun _ => C) E.
Hypothesis C_final : forall st,
  C st ->
  if raises env (trace st) CPoll
  then E (ExternalError CPoll) (emit (Call CPoll) st)
  else Pfinal (set_exit_code (poll env (trace st)) (emit (Call CPoll) st)).

Lemma triple_log_info l : triple P (log_info l) (fun _ => P) E.
Proof. apply triple_modify. intros st H. now apply P_emit. Qed.

Lemma triple_log_error l : triple P (log_error l) (fun _ => P) E.
Proof. apply triple_modify. intros st H. now apply P_emit. Qed.

Lemma triple_ext c :
  match c with CUpdateEvents _ => False | _ => True end ->
  triple P (ext env c) (fun _ => P) E.
Proof.
  intros Hc st H. unfold ext. destruct (raises env (trace st) c) eqn:Er.
  - now apply P_raise.
  - now apply P_emit.
Qed.

Lemma triple_ext_val {A} c (f : list event -> A) :
  match c with CUpdateEvents _ => False | _ => True end ->
  triple P (ext_val env c f) (fun _ => P) E.
Proof.
  intros Hc st H. unfold ext_val. destruct (raises env (trace st) c) eqn:Er.
  - now apply P_raise.
  - now apply P_emit.
Qed.

Lemma triple_is_alive : triple P (is_alive env) (fun _ => P) E.
Proof.
  unfold is_alive.
  eapply triple_bind; [now apply triple_ext | intros ?; cbv beta].
  apply triple_bind_get. intros st0.
  destruct (alive st0) as [|x rest].
  - apply triple_ret. now intros st [H _].
  - eapply triple_bind; [|intros ?; cbv beta; apply triple_ret; intros st H; exact H].
    apply triple_modify. intros st [H _]. now apply P_set_alive.
Qed.

Lemma triple_deliveries (l : list message) :
  (forall m st, m ∈ l -> P st -> P (snd (handle_out_message env m st))) ->
  triple P (for_each (deliver env) l) (fun _ => P) E.
Proof.
  induction l as [|x l IH]; intros Hl; cbn [for_each].
  - apply triple_ret. now intros.
  - eapply triple_bind with (Q := fun _ => P).
    + intros st H. unfold deliver. apply Hl; [apply list_elem_of_here | exact H].
    + intros ?; cbv beta. apply IH. intros m st Hm. apply Hl.
      now apply list_elem_of_further.
Qed.

Lemma triple_sleep d : triple P (sleep env d) (fun _ => P) E.
Proof.
  unfold sleep.
  eapply triple_bind; [now apply triple_ext | intros ?; cbv beta].
  apply triple_bind_get. intros st0.
  eapply triple_conseq; [apply triple_deliveries | | auto | auto].
  - intros m st. apply P_deliver.
  - now intros st [H _].
Qed.

Lemma triple_wait_while_alive fuel d :
  triple P (wait_while_alive env fuel d) (fun _ => P) E.
Proof.
  induction fuel as [|fuel IH]; cbn [wait_while_alive];
    (eapply triple_bind; [apply triple_is_alive | intros [|]]);
    try (apply triple_ret; now intros).
  eapply triple_bind; [apply triple_sleep | intros ?; cbv beta; exact IH].
Qed.

Lemma triple_poll_loop fuel iteration :
  triple P (poll_loop env fuel iteration) (fun _ => P) E.
Proof.
  revert iteration.
  induction fuel as [|fuel IH]; intros iteration; cbn [poll_loop];
    (eapply triple_bind; [apply triple_is_alive | intros [|]]);
    try (apply triple_ret; now intros).
  eapply triple_bind; [now apply triple_ext_val | intros [|]].
  - eapply triple_bind; [apply triple_log_info | intros ?; cbv beta].
    now apply triple_ext.
  - eapply triple_bind; [apply P_stageout_es | intros ?; cbv beta].
    eapply triple_bind; [now apply triple_ext_val | intros code].
    eapply triple_bind; [|intros ?; cbv beta].
    + destruct (_ =? _)%Z; [apply triple_log_info | apply triple_ret; now intros].
    + eapply triple_bind; [apply triple_sleep | intros ?; cbv beta; apply IH].
Qed.

Lemma triple_run_body : triple P (run_body env) (fun _ => Pfinal) E.
Proof.
  unfold run_body.
  eapply triple_bind; [apply triple_log_info | intros ?; cbv beta].
  eapply triple_bind with
    (Q := fun payload st =>
            P st /\ (payload = None ->
                     is_set_payload env = false /\ is_retrieve_payload env = false)).
  { destruct (is_set_payload env) eqn:Es.
    - apply triple_ret. intros st H. split; [exact H | discriminate].
    - destruct (is_retrieve_payload env) eqn:Er.
      + intros st H. unfold ext_val.
        destruct (raises env (trace st) CRetrievePayload) eqn:Ec.
        * now apply P_raise.
        * split; [now apply P_emit | discriminate].
      + eapply triple_bind; [apply triple_log_error | intros ?; cbv beta].
        apply triple_ret. intros st H. now split. }
  intros payload. apply triple_bind_get_job. intros j.
  eapply triple_bind with
    (Q := fun _ st =>
            P st /\ (payload = None ->
                     is_set_payload env = false /\ is_retrieve_payload env = false)).
  { destruct j as [job|]; cbn [attr].
    - apply triple_ret. now intros st [H _].
    - apply triple_raise. intros st [[H _] Hj]. now apply P_no_job. }
  intros ?; cbv beta.
  eapply triple_bind with (Q := fun _ => P).
  { destruct payload as [p|].
    - apply triple_ret. now intros st [H _].
    - apply triple_raise. intros st [H [Hs Hr]]; [reflexivity|].
      now apply P_no_payload. }
  intros p.
  eapply triple_bind; [apply triple_log_info | intros ?; cbv beta].
  eapply triple_bind; [apply triple_log_info | intros ?; cbv beta].
  eapply triple_bind; [now apply triple_ext | intros ?; cbv beta].
  eapply triple_bind with (Q := fun _ => P);
    [apply triple_modify; intros st H; apply P_set_proc; exact H | intros ?; cbv beta].
  eapply triple_bind; [apply triple_log_info | intros ?; cbv beta].
  eapply triple_bind; [now apply triple_ext | intros ?; cbv beta].
  eapply triple_bind; [now apply triple_ext | intros ?; cbv beta].
  eapply triple_bind; [apply triple_log_info | intros ?; cbv beta].
  eapply triple_bind; [now apply triple_ext | intros ?; cbv beta].
  eapply triple_bind; [apply triple_log_info | intros ?; cbv beta].
  apply triple_bind_get. intros st0.
  eapply triple_bind with (Q := fun _ => P).
  { eapply triple_conseq; [apply triple_poll_loop | | auto | auto]. now intros st [H _]. }
  intros ?; cbv beta. apply triple_bind_get. intros st1.
  eapply triple_bind with (Q := fun _ => P).
  { eapply triple_conseq; [apply triple_wait_while_alive | | auto | auto].
    now intros st [H _]. }
  intros ?; cbv beta.
  eapply triple_bind; [apply triple_log_info | intros ?; cbv beta].
  eapply triple_bind; [apply P_forced | intros ?; cbv beta].
  eapply triple_bind; [apply F_clean | intros ?; cbv beta].
  intros st H. unfold bind, ext_val, modify. specialize (C_final st H).
  destruct (raises env (trace st) CPoll); exact C_final.
Qed.

End RunTriple.

(** ** What every reachable state satisfies *)

Lemma job_frame_refl j : job_frame j j.
Proof. destruct j; cbn; [repeat split; lia | exact I]. Qed.

Lemma job_frame_counted j0 (j : Job) (n : Z) :
  0 <= n -> job_frame j0 (Some j) ->
  job_frame j0 (Some (mkJob (jobid j) (nevents j + n) (es_stageout_gap j))).
Proof.
  intros Hn. destruct j0 as [a|]; cbn; [|easy].
  intros (H1 & H2 & H3). repeat split; try assumption. lia.
Qed.

(** The invariant does not depend on the trace, the worker, the process
    handle or the exit code. *)
Lemma invariant_frame j0 st st' :
  last_stageout_time st' = last_stageout_time st ->
  queued_out_messages st' = queued_out_messages st ->
  all_out_messages st' = all_out_messages st ->
  the_job st' = the_job st ->
  executor_invariant j0 st -> executor_invariant j0 st'.
Proof. unfold executor_invariant. now intros -> -> -> ->. Qed.

Lemma invariant_set_queued_nil j0 st :
  executor_invariant j0 st -> executor_invariant j0 (set_queued [] st).
Proof.
  intros (H1 & H2 & H3 & H4). repeat split; cbn; auto using sublist_nil_l.
Qed.

Lemma invariant_reset j0 st :
  executor_invariant j0 st -> executor_invariant j0 (reset st).
Proof.
  intros (H1 & H2 & H3 & H4). repeat split; cbn; auto using sublist_nil_l.
Qed.

Lemma invariant_counted j0 st (j : Job) (n : Z) :
  the_job st = Some j -> 0 <= n ->
  executor_invariant j0 st ->
  executor_invariant j0
    (set_job (Some (mkJob (jobid j) (nevents j + n) (es_stageout_gap j))) st).
Proof.
  intros Hj Hn (H1 & H2 & H3 & H4). repeat split; cbn; auto.
  apply job_frame_counted; [exact Hn | now rewrite <- Hj].
Qed.

Lemma failed_loop_state env (l : list message) (acc : list pyval) st :
  exists es, snd (failed_loop env l acc st) = emit_all es st.
Proof.
  revert acc st. induction l as [|m l IH]; intros acc st; cbn [failed_loop].
  - exists []. cbn. now rewrite emit_all_nil.
  - unfold bind at 1, getitem. destruct (m !! "status") as [s|]; cbn;
      [|exists []; now rewrite emit_all_nil].
    unfold bind at 1. destruct (m !! "id") as [i|]; cbn;
      [|exists []; now rewrite emit_all_nil].
    unfold bind at 1, update_events, ext.
    destruct (raises env _ _); cbn.
    + now eexists [_].
    + destruct (IH (acc ++ [failed_range i (if in_failed_fatal s then s else "failed")])
                   (emit (Call (CUpdateEvents (failed_report
                      (acc ++ [failed_range i (if in_failed_fatal s then s else "failed")])))) st))
        as [es ->].
      eexists (_ :: es). unfold emit_all, emit. cbn. now rewrite <- app_assoc.
Qed.

Section Invariant.

Variable env : Env.
Variable j0 : option Job.

Lemma invariant_handle_out_message m :
  preserves (executor_invariant j0) (handle_out_message env m).
Proof.
  intros st Hst. rewrite handle_out_message_unfold.
  destruct (the_job st); [|exact Hst]. cbn zeta.
  assert (H1 : executor_invariant j0
                 (set_all (all_out_messages st ++ [m])
                    (emit (LogInfo (LHandling m)) st))).
  { destruct Hst as (H1 & H2 & H3 & H4). repeat split; cbn; auto.
    now apply sublist_inserts_r. }
  destruct (m !! "status") as [s|] eqn:Hs; [|exact H1].
  destruct (in_failed_fatal s) eqn:Ef.
  - destruct (m !! "id") as [i|]; [|exact H1].
    unfold ext. destruct (raises env _ _); exact H1.
  - destruct Hst as (H2 & H3 & H4 & H5). repeat split; cbn; auto.
    + now apply sublist_app.
    + apply Forall_app. split; [exact H4|]. constructor; [|constructor].
      now exists s.
Qed.

Lemma invariant_update_finished_event_ranges l :
  preserves (executor_invariant j0) (update_finished_event_ranges env l).
Proof.
  intros st Hst. destruct l as [|x l]; [exact Hst|].
  pose proof (update_finished_event_ranges_cases env (x :: l) st) as H.
  destruct (mapM finished_range_of (x :: l)) as [ers|].
  - cbn zeta in H. rewrite H by discriminate.
    destruct (raises env _ _); [exact Hst|].
    destruct (the_job st) as [j|] eqn:Hj; [|exact Hst].
    cbn [snd]. apply invariant_counted; [exact Hj | lia | exact Hst].
  - destruct H as [k ->]; [discriminate | exact Hst].
Qed.

Lemma invariant_update_failed_event_ranges l :
  preserves (executor_invariant j0) (update_failed_event_ranges env l).
Proof.
  intros st Hst. unfold update_failed_event_ranges.
  destruct (_ =? _)%nat; [exact Hst|].
  destruct (failed_loop_state env l [] st) as [es ->]. exact Hst.
Qed.

Lemma invariant_stageout_es force :
  preserves (executor_invariant j0) (stageout_es env force).
Proof.
  intros st Hst. rewrite stageout_es_unfold.
  destruct (queued_out_messages st) as [|x q]; [exact Hst|].
  destruct (flush_due env force (the_job st) st) as [[[]|e] st1]; try exact Hst.
  apply invariant_update_finished_event_ranges, invariant_set_queued_nil, Hst.
Qed.

Lemma invariant_is_alive : preserves (executor_invariant j0) (is_alive env).
Proof.
  intros st H. unfold is_alive, bind, ext, get.
  destruct (raises env _ _); [exact H|]. cbn.
  destruct (alive st); exact H.
Qed.

(** The messages that arrive during a sleep keep the invariant. *)
Lemma invariant_sleep d : preserves (executor_invariant j0) (sleep env d).
Proof.
  unfold sleep.
  apply preserves_bind; [apply preserves_ext; now intros | intros _].
  apply preserves_bind; [apply preserves_get | intros s].
  apply preserves_for_each. intros m st H.
  exact (invariant_handle_out_message m st H).
Qed.

Lemma invariant_wait_while_alive fuel d :
  preserves (executor_invariant j0) (wait_while_alive env fuel d).
Proof.
  induction fuel as [|fuel IH]; cbn [wait_while_alive];
    (apply preserves_bind; [apply invariant_is_alive | intros [|]]);
    try apply preserves_ret.
  apply preserves_bind; [apply invariant_sleep | intros _; exact IH].
Qed.

Lemma invariant_clean_tail : preserves (executor_invariant j0) (clean_tail env).
Proof.
  unfold clean_tail.
  apply preserves_bind; [apply preserves_get | intros s].
  apply preserves_bind; [|intros _; apply preserves_ext; now intros].
  destruct (proc s); [|apply preserves_ret].
  apply preserves_bind; [apply preserves_ext; now intros | intros _].
  apply invariant_wait_while_alive.
Qed.

Lemma invariant_clean : preserves (executor_invariant j0) (clean env).
Proof.
  intros st Hst. rewrite clean_unfold.
  destruct (the_job st); [|exact Hst].
  destruct (clean_loop_uniform (all_out_messages st)) as (r & ps & E & _).
  rewrite E. destruct r as [[]|e]; [|exact Hst].
  apply invariant_clean_tail. now apply (invariant_reset j0 st).
Qed.

Lemma triple_of_preserves {A} (P : executor -> Prop) (m : M A) :
  preserves P m -> triple P m (fun _ => P) (fun _ => P).
Proof.
  intros H st Hst. specialize (H st Hst). now destruct (m st) as [[a|e] st'].
Qed.

Lemma invariant_run : preserves (executor_invariant j0) (run env).
Proof.
  assert (Hbody : triple (executor_invariant j0) (run_body env)
                    (fun _ => executor_invariant j0)
                    (fun _ => executor_invariant j0)).
  { apply triple_run_body with
      (F := executor_invariant j0) (C := executor_invariant j0); auto.
    - intros tr m st _ H. exact (invariant_handle_out_message m st H).
    - apply triple_of_preserves, invariant_stageout_es.
    - apply triple_of_preserves, invariant_stageout_es.
    - apply triple_of_preserves, invariant_clean.
    - intros st H. now destruct (raises env _ _). }
  intros st Hst. rewrite run_unfold. specialize (Hbody st Hst).
  destruct (run_body env st) as [[[]|e] st1]; [exact Hbody|].
  pose proof (invariant_clean (emit (LogError (LExecuteFailed e)) st1) Hbody) as Hc.
  destruct (clean env _) as [[[]|e'] st2]; exact Hc.
Qed.

Lemma reachable_invariant script st :
  reachable env j0 script st -> executor_invariant j0 st.
Proof.
  induction 1.
  - repeat split; cbn; auto using sublist_nil_l, job_frame_refl.
  - now apply invariant_handle_out_message.
  - now apply invariant_update_finished_event_ranges.
  - now apply invariant_update_failed_event_ranges.
  - now apply invariant_stageout_es.
  - now apply invariant_clean.
  - now apply invariant_run.
Qed.

(** X1: in every state that can be met, no time of a last stage-out is
    recorded, so that the gap of the queue is never consulted: a stage-out
    that is not forced does exactly what a forced one does. *)
Theorem reachable_never_throttles (script : list bool) (st : executor) :
  reachable env j0 script st ->
  last_stageout_time st = None /\
  forall force, stageout_es env force st = stageout_es env true st.
Proof.
  intros (Hl & _)%reachable_invariant. split; [exact Hl|].
  intros force. rewrite !stageout_es_unfold.
  assert (Hf : flush_due env force (the_job st) st = flush_due env true (the_job st) st).
  { destruct force; [reflexivity|]. unfold flush_due, bind, get. cbn. now rewrite Hl. }
  now rewrite Hf.
Qed.

(** X2: in every state that can be met, the pending queue is a
    subsequence of the audit log, and every pending message has a status,
    which is neither failed nor fatal. *)
Theorem reachable_pending_queue (script : list bool) (st : executor) :
  reachable env j0 script st ->
  sublist (queued_out_messages st) (all_out_messages st) /\
  Forall pending_ok (queued_out_messages st).
Proof. intros (_ & H1 & H2 & _)%reachable_invariant. now split. Qed.

(** X3: no method replaces or drops the job handle or changes its id or its
    stage-out gap, and the event counter never decreases. *)
Theorem reachable_job_frame (script : list bool) (st : executor) :
  reachable env j0 script st -> job_frame j0 (the_job st).
Proof. now intros (_ & _ & _ & H)%reachable_invariant. Qed.

End Invariant.

(** ** Messages delivered in turn *)

Lemma reports_app tr1 tr2 : reports (tr1 ++ tr2) = reports tr1 ++ reports tr2.
Proof. apply omap_app. Qed.

Section Delivery.

Variable env : Env.

(** X7: when the worker's messages are handed to [handle_out_message] one
    after the other (each with a status, the failed and fatal ones with an
    id, the reporting service answering), the audit log grows by all of
    them in order, the pending queue by those that are neither failed nor
    fatal, and exactly one report is sent per failed or fatal message, in
    order, each with the record of that message alone. *)
Theorem handle_out_messages_in_turn (msgs : list message) (st : executor) (j : Job) :
  the_job st = Some j ->
  Forall (fun m : message =>
            is_Some (m !! "status") /\ (is_failure m = true -> is_Some (m !! "id")))
         msgs ->
  (forall tr p, raises env tr (CUpdateEvents p) = false) ->
  exists st',
    for_each (handle_out_message env) msgs st = (Ok tt, st') /\
    all_out_messages st' = all_out_messages st ++ msgs /\
    queued_out_messages st' =
      queued_out_messages st ++ List.filter (fun m => negb (is_failure m)) msgs /\
    reports (added st st') = omap failure_report_of msgs /\
    length (reports (added st st')) = length (List.filter is_failure msgs) /\
    the_job st' = Some j.
Proof.
  intros Hj Hall Hok.
  assert (H : exists st' tr,
             for_each (handle_out_message env) msgs st = (Ok tt, st') /\
             all_out_messages st' = all_out_messages st ++ msgs /\
             queued_out_messages st' =
               queued_out_messages st ++ List.filter (fun m => negb (is_failure m)) msgs /\
             trace st' = trace st ++ tr /\
             reports tr = omap failure_report_of msgs /\
             length (reports tr) = length (List.filter is_failure msgs) /\
             the_job st' = Some j).
  { revert st Hj. induction Hall as [|m msgs [[s Hs] Hid] _ IH]; intros st Hj.
    - exists st, []. cbn. rewrite !app_nil_r. repeat split; auto.
    - cbn [for_each]. unfold bind at 1. rewrite handle_out_message_unfold, Hj.
      cbn zeta. rewrite Hs.
      unfold is_failure in Hid. rewrite Hs in Hid.
      destruct (in_failed_fatal s) eqn:Ef.
      + destruct (Hid eq_refl) as [i Hi]. rewrite Hi.
        unfold ext. rewrite Hok.
        edestruct IH as (st' & tr & E & Ha & Hq & Ht & Hr & Hn & Hj');
          [|exists st', (LogInfo (LHandling m)
                          :: Call (CUpdateEvents (failed_report [failed_range i s]))
                          :: tr);
            split; [exact E|]].
        { exact Hj. }
        assert (Hf : is_failure m = true) by (unfold is_failure; now rewrite Hs).
        assert (Hrep : failure_report_of m = Some (failed_report [failed_range i s])).
        { unfold failure_report_of, failed_range_of. now rewrite Hf, Hs, Hi, Ef. }
        cbn [all_out_messages queued_out_messages trace emit set_all] in *.
        rewrite Ha, Hq, Ht, <- !app_assoc.
        cbn [List.filter omap list_omap]. rewrite Hf, Hrep. cbn [negb].
        unfold reports in *. cbn [omap list_omap length].
        repeat split; auto; (now rewrite Hr) || (now rewrite Hn).
      + edestruct IH as (st' & tr & E & Ha & Hq & Ht & Hr & Hn & Hj');
          [|exists st', (LogInfo (LHandling m) :: tr); split; [exact E|]].
        { exact Hj. }
        assert (Hf : is_failure m = false) by (unfold is_failure; now rewrite Hs).
        assert (Hrep : failure_report_of m = None)
          by (unfold failure_report_of; now rewrite Hf).
        cbn [all_out_messages queued_out_messages trace emit set_all set_queued] in *.
        rewrite Ha, Hq, Ht, <- !app_assoc.
        cbn [List.filter omap list_omap]. rewrite Hf, Hrep. cbn [negb].
        repeat split; auto. }
  destruct H as (st' & tr & E & Ha & Hq & Ht & Hr & Hn & Hj').
  exists st'. rewrite (added_app _ _ _ Ht). repeat split; assumption.
Qed.

End Delivery.

(** ** An audit log with a message that has no status *)

Section Poisoned.

Variable env : Env.

(** What a stage-out leaves alone. *)
Lemma stageout_es_frame force st :
  all_out_messages (snd (stageout_es env force st)) = all_out_messages st /\
  exit_code (snd (stageout_es env force st)) = exit_code st /\
  proc (snd (stageout_es env force st)) = proc st /\
  alive (snd (stageout_es env force st)) = alive st /\
  (is_Some (the_job st) -> is_Some (the_job (snd (stageout_es env force st)))).
Proof.
  rewrite stageout_es_unfold.
  destruct (queued_out_messages st) as [|x q] eqn:Eq; [easy|].
  destruct (flush_due env force (the_job st) st) as [[[]|e] st1]; try easy.
  assert (Hne : rev (x :: q) <> [])
    by (intros H%(f_equal (@length _)); rewrite length_rev in H; discriminate).
  pose proof (update_finished_event_ranges_cases env (rev (x :: q)) (set_queued [] st) Hne)
    as H.
  destruct (mapM finished_range_of (rev (x :: q))) as [ers|].
  - cbn zeta in H. rewrite H. cbn [trace set_queued the_job].
    destruct (raises env _ _); [easy|].
    destruct (the_job st) eqn:Hj; cbn; repeat split; eauto.
    now intros [? [=]].
  - destruct H as [k ->]. easy.
Qed.

Lemma clean_poisoned st :
  poisoned st ->
  exists ps,
    clean env st =
      (Raise (KeyError "status"),
       emit_all (map (fun p => LogInfo (LRemoving p)) ps) st).
Proof.
  intros [[j Hj] Hex]. rewrite clean_unfold, Hj.
  destruct (clean_loop_uniform (all_out_messages st)) as (r & ps & E & _).
  pose proof (E st) as Est. rewrite Est. exists ps.
  destruct r as [[]|e].
  - exfalso. apply clean_loop_ok_inv in Est.
    apply Exists_exists in Hex as (m & Hm & Hs).
    rewrite Forall_forall in Est. destruct (Est m Hm) as [s Hs']. congruence.
  - now apply clean_loop_raises in Est as ->.
Qed.

(** A poisoned audit log stays poisoned when a further message arrives,
    and no exit code is stored. *)
Lemma handle_out_message_poisoned st m :
  poisoned st ->
  poisoned (snd (handle_out_message env m st)) /\
  exit_code (snd (handle_out_message env m st)) = exit_code st.
Proof.
  intros [[j Hj] Hex]. rewrite handle_out_message_unfold, Hj. cbn zeta.
  assert (H1 : poisoned (set_all (all_out_messages st ++ [m])
                           (emit (LogInfo (LHandling m)) st))).
  { split; cbn; [rewrite Hj; eauto|]. apply Exists_app. now left. }
  destruct (m !! "status") as [s|]; [|now split].
  destruct (in_failed_fatal s).
  - destruct (m !! "id"); [|now split].
    unfold ext. now destruct (raises env _ _).
  - now split.
Qed.

(** X6: a message without a status poisons the executor.
    [handle_out_message] has put it in the audit log before it raises
    [KeyError] on the missing key; from then on, and whatever is called in
    between, every [clean()] raises [KeyError('status')] without resetting
    anything, and every [run()] raises it too, out of its handler, and
    stores no exit code. *)
Theorem poisoned_audit_log :
  (forall st m j,
      the_job st = Some j -> m !! "status" = None ->
      fst (handle_out_message env m st) = Raise (KeyError "status") /\
      poisoned (snd (handle_out_message env m st))) /\
  (forall st,
      poisoned st ->
      (forall m, poisoned (snd (handle_out_message env m st))) /\
      (forall force, poisoned (snd (stageout_es env force st))) /\
      (exists st', clean env st = (Raise (KeyError "status"), st') /\
                   poisoned st' /\
                   all_out_messages st' = all_out_messages st /\
                   queued_out_messages st' = queued_out_messages st) /\
      (exists st', run env st = (Raise (KeyError "status"), st') /\
                   poisoned st' /\ exit_code st' = exit_code st)).
Proof.
  split.
  - intros st m j Hj Hs. rewrite handle_out_message_unfold, Hj, Hs. cbn.
    split; [reflexivity|]. split; [rewrite ?Hj; eauto|].
    apply Exists_app. right. now constructor.
  - intros st Hp. split; [|split; [|split]].
    + intros m. now apply handle_out_message_poisoned.
    + intros force. destruct (stageout_es_frame force st) as (Ha & _ & _ & _ & Hj).
      destruct Hp as [Hp1 Hp2]. split; [now apply Hj | now rewrite Ha].
    + destruct (clean_poisoned st Hp) as [ps ->]. eexists. split; [reflexivity|].
      split; [exact Hp | now split].
    + set (Pz := fun s => poisoned s /\ exit_code s = exit_code st).
      assert (Hframe : forall s s',
                 the_job s' = the_job s -> all_out_messages s' = all_out_messages s ->
                 exit_code s' = exit_code s -> Pz s -> Pz s').
      { intros s s' H1 H2 H3 [[H4 H5] H6]. repeat split; congruence. }
      assert (Hbody : triple Pz (run_body env) (fun _ _ => False) (fun _ => Pz)).
      { apply triple_run_body with (F := Pz) (C := fun _ => False).
        - intros ev s _. now apply Hframe.
        - intros c s H _. revert H. now apply Hframe.
        - intros a s. now apply Hframe.
        - intros p s. now apply Hframe.
        - intros tr m s _ [H1 H2].
          destruct (handle_out_message_poisoned s m H1) as [H3 H4].
          split; [exact H3 | congruence].
        - now intros s H _.
        - now intros s H _ _.
        - intros s [[H1 H2] H3].
          destruct (stageout_es_frame false s) as (Ha & He & _ & _ & Hj).
          assert (Pz (snd (stageout_es env false s)))
            by (repeat split; [now apply Hj | now rewrite Ha | congruence]).
          now destruct (stageout_es env false s) as [[[]|e] s'].
        - intros s [[H1 H2] H3].
          destruct (stageout_es_frame true s) as (Ha & He & _ & _ & Hj).
          assert (Pz (snd (stageout_es env true s)))
            by (repeat split; [now apply Hj | now rewrite Ha | congruence]).
          now destruct (stageout_es env true s) as [[[]|e] s'].
        - intros s Hs. destruct (clean_poisoned s (proj1 Hs)) as [ps ->].
          revert Hs. now apply Hframe.
        - now intros s []. }
      specialize (Hbody st (conj Hp eq_refl)). rewrite run_unfold.
      destruct (run_body env st) as [[[]|e] st1]; [destruct Hbody|].
      assert (Hh : Pz (emit (LogError (LExecuteFailed e)) st1))
        by (revert Hbody; now apply Hframe).
      destruct (clean_poisoned _ (proj1 Hh)) as [ps ->].
      eexists. split; [reflexivity|]. destruct Hh as [H1 H2]. split; [|exact H2].
      destruct H1 as [H3 H4]. now split.
Qed.

End Poisoned.

(** ** A run in which nothing fails *)

Lemma reports_other ev :
  match ev with Call (CUpdateEvents _) => False | _ => True end -> reports [ev] = [].
Proof. destruct ev as [[]| |]; easy. Qed.

Lemma job_counted_nothing (j : Job) :
  mkJob (jobid j) (nevents j + Z.of_nat 0) (es_stageout_gap j) = j.
Proof. destruct j. cbn. f_equal. lia. Qed.

Section Reliable.

Variable env : Env.

(** A stage-out with a job handle, well-formed pending messages and a
    reporting service that answers: it does nothing, or it flushes. *)
Lemma stageout_es_ok force st (j : Job) (ers : list pyval) :
  the_job st = Some j ->
  mapM finished_range_of (rev (queued_out_messages st)) = Some ers ->
  raises env (trace st) (CUpdateEvents (finished_report ers)) = false ->
  (stageout_es env force st = (Ok tt, st) /\
   (force = true -> queued_out_messages st = [])) \/
  (queued_out_messages st <> [] /\
   stageout_es env force st = (Ok tt, flushed st ers)).
Proof.
  intros Hj Hm Hok. rewrite stageout_es_unfold.
  destruct (queued_out_messages st) as [|x q] eqn:Eq; [now left|].
  assert (Hf : exists b, flush_due env force (the_job st) st = (Ok b, st) /\
                         (force = true -> b = true)).
  { unfold flush_due, bind, get, attr, ret. rewrite Hj.
    destruct force; [now exists true|].
    destruct (last_stageout_time st); eexists; (split; [reflexivity | discriminate]). }
  destruct Hf as (b & -> & Hb). destruct b.
  - right. split; [discriminate|].
    assert (Hne : rev (x :: q) <> [])
      by (intros H%(f_equal (@length _)); rewrite length_rev in H; discriminate).
    pose proof (update_finished_event_ranges_cases env (rev (x :: q)) (set_queued [] st) Hne)
      as H.
    rewrite Hm in H. cbn zeta in H. rewrite H. cbn [trace set_queued the_job].
    rewrite Hok, Hj. unfold flushed. now rewrite Hj.
  - left. split; [reflexivity|]. intros ->. now specialize (Hb eq_refl).
Qed.

(** X8: when no collaborator fails, the worker delivers no message while
    [run] is under way, a payload is at hand, there is a job handle, every
    entry of the audit log has a status and every pending message an id and
    an output, [run] returns normally however long the worker lives and
    whatever the stop flag does.  The exit code it stores is the answer of
    the last [proc.poll()]; the messages that were pending when [run]
    started were reported exactly once, in one batch (by the first
    stage-out that came due, at the latest by the forced one), the event
    counter grew by their number, and the pending queue, the audit log and
    the time of the last stage-out are reset. *)
Theorem run_reliable (st : executor) (j : Job) (ers : list pyval) :
  reliable env ->
  quiet env ->
  is_set_payload env = true \/ is_retrieve_payload env = true ->
  the_job st = Some j ->
  Forall (fun m : message => is_Some (m !! "status")) (all_out_messages st) ->
  mapM finished_range_of (rev (queued_out_messages st)) = Some ers ->
  exists st' tr,
    run env st = (Ok tt, st') /\
    trace st' = trace st ++ tr ++ [Call CPoll; LogInfo LExecutorFinished] /\
    exit_code st' = poll env (trace st ++ tr) /\
    reports tr =
      match queued_out_messages st with
      | [] => []
      | _ :: _ => [finished_report ers]
      end /\
    the_job st' =
      Some (mkJob (jobid j) (nevents j + Z.of_nat (length ers)) (es_stageout_gap j)) /\
    queued_out_messages st' = [] /\
    all_out_messages st' = [] /\
    last_stageout_time st' = None.
Proof.
  intros Hrel Hquiet Hpay Hj Hall Hm.
  set (j' := mkJob (jobid j) (nevents j + Z.of_nat (length ers)) (es_stageout_gap j)).
  set (expected := match queued_out_messages st with
                   | [] => []
                   | _ :: _ => [finished_report ers]
                   end).
  set (P := fun s =>
    exists tr, trace s = trace st ++ tr /\
      Forall (fun m : message => is_Some (m !! "status")) (all_out_messages s) /\
      ((queued_out_messages s = queued_out_messages st /\ the_job s = Some j /\
        reports tr = []) \/
       (queued_out_messages st <> [] /\ queued_out_messages s = [] /\
        the_job s = Some j' /\ reports tr = [finished_report ers]))).
  set (F := fun s =>
    exists tr, trace s = trace st ++ tr /\
      Forall (fun m : message => is_Some (m !! "status")) (all_out_messages s) /\
      queued_out_messages s = [] /\ the_job s = Some j' /\ reports tr = expected).
  set (C := fun s =>
    exists tr, trace s = trace st ++ tr /\
      all_out_messages s = [] /\ last_stageout_time s = None /\
      queued_out_messages s = [] /\ the_job s = Some j' /\ reports tr = expected).
  set (Pfinal := fun s =>
    exists tr, trace s = trace st ++ tr ++ [Call CPoll] /\
      exit_code s = poll env (trace st ++ tr) /\
      all_out_messages s = [] /\ last_stageout_time s = None /\
      queued_out_messages s = [] /\ the_job s = Some j' /\ reports tr = expected).
  assert (Hstage : forall force s, P s ->
            exists s', stageout_es env force s = (Ok tt, s') /\ P s' /\
                       (force = true -> F s')).
  { intros force s (tr & Ht & Ha & Hd).
    destruct Hd as [(Hq & Hjs & Hr) | (Hne & Hq & Hjs & Hr)].
    - destruct (stageout_es_ok force s j ers Hjs) as [[E Hf] | [Hne E]].
      + now rewrite Hq.
      + apply Hrel.
      + exists s. split; [exact E|]. split.
        * exists tr. split; [exact Ht|]. split; [exact Ha|]. now left.
        * intros Hforce. specialize (Hf Hforce). exists tr.
          split; [exact Ht|]. split; [exact Ha|]. split; [exact Hf|].
          assert (Hst : queued_out_messages st = []) by congruence.
          unfold expected, j'. rewrite Hst in *. cbn in Hm. injection Hm as <-.
          rewrite job_counted_nothing. auto.
      + exists (flushed s ers). split; [exact E|].
        assert (Hst : queued_out_messages st <> []) by congruence.
        assert (Hflushed :
          trace (flushed s ers) =
            trace st ++ (tr ++ [Call (CUpdateEvents (finished_report ers))]) /\
          the_job (flushed s ers) = Some j' /\
          reports (tr ++ [Call (CUpdateEvents (finished_report ers))])
            = [finished_report ers]).
        { unfold flushed. cbn. rewrite Ht, Hjs, reports_app, Hr, <- app_assoc.
          now repeat split. }
        destruct Hflushed as (T1 & T2 & T3). split.
        * eexists. split; [exact T1|]. split; [exact Ha|]. right. now repeat split.
        * intros _. eexists. split; [exact T1|]. split; [exact Ha|].
          repeat split; auto. unfold expected.
          now destruct (queued_out_messages st).
    - assert (E : stageout_es env force s = (Ok tt, s))
        by (rewrite stageout_es_unfold; now rewrite Hq).
      exists s. split; [exact E|]. split.
      + exists tr. split; [exact Ht|]. split; [exact Ha|]. right. now repeat split.
      + intros _. exists tr. split; [exact Ht|]. split; [exact Ha|].
        repeat split; auto. unfold expected. now destruct (queued_out_messages st). }
  assert (Hbody : triple P (run_body env) (fun _ => Pfinal) (fun _ _ => False)).
  { apply triple_run_body with (F := F) (C := C).
    - intros ev s Hev (tr & Ht & Ha & Hd). exists (tr ++ [ev]). cbn.
      rewrite Ht, <- app_assoc. split; [reflexivity|]. split; [exact Ha|].
      rewrite reports_app, (reports_other ev Hev), app_nil_r. exact Hd.
    - intros c s _ Hr. now rewrite Hrel in Hr.
    - intros a s H. exact H.
    - intros p s H. exact H.
    - intros tr m s Hin. rewrite Hquiet in Hin. now apply not_elem_of_nil in Hin.
    - intros s (tr & _ & _ & [(_ & H & _) | (_ & _ & H & _)]) Hn; congruence.
    - intros s _ H1 H2. destruct Hpay; congruence.
    - intros s Hs. destruct (Hstage false s Hs) as (s' & -> & H & _). exact H.
    - intros s Hs. destruct (Hstage true s Hs) as (s' & -> & _ & H). now apply H.
    - intros s (tr & Ht & Ha & Hq & Hjs & Hr).
      destruct (clean_returns env s Hquiet) as (tail & rest & -> & Htail).
      + intros tr'. repeat split; intros; apply (Hrel _ _).
      + split; [rewrite Hjs; eauto | exact Ha].
      + eexists. cbn. rewrite Ht, <- app_assoc. split; [reflexivity|].
        repeat split; auto.
        destruct (cleanup_calls_silent tail Htail) as (_ & _ & _ & T & _).
        destruct (removal_notices_announced (omap cleanable (all_out_messages s)))
          as (_ & _ & _ & N & _).
        now rewrite !reports_app, N, T, !app_nil_r.
    - intros s (tr & Ht & Ha & Hl & Hq & Hjs & Hr). rewrite Hrel.
      exists tr. cbn. rewrite Ht, <- app_assoc. now repeat split. }
  assert (HP : P st).
  { exists []. rewrite app_nil_r. split; [reflexivity|]. split; [exact Hall|].
    left. now repeat split. }
  specialize (Hbody st HP). rewrite run_unfold.
  destruct (run_body env st) as [[[]|e] st1]; [|destruct Hbody].
  destruct Hbody as (tr & Ht & He & Ha & Hl & Hq & Hjs & Hr).
  eexists. exists tr. split; [reflexivity|]. cbn.
  rewrite Ht, <- !app_assoc. now repeat split.
Qed.

End Reliable.

(** ** Failure reports, message by message *)

Section FailureReports.

Variable env : Env.

Hypothesis update_events_returns :
  forall tr m, raises env tr (CUpdateEvents m) = false.

(** The loop of lines 85-90 over a prefix of well-formed messages. *)
Lemma failed_loop_prefix (good rest : list message) (recs acc : list pyval) st :
  mapM failed_range_of good = Some recs ->
  failed_loop env (good ++ rest) acc st =
    failed_loop env rest (acc ++ recs)
      (emit_all
         (map (fun k => Call (CUpdateEvents (failed_report (acc ++ take (S k) recs))))
              (seq 0 (length recs))) st).
Proof.
  intros H. apply mapM_Some_1 in H. revert acc st.
  induction H as [|m r good recs Hm _ IH]; intros acc st.
  - cbn. now rewrite app_nil_r, emit_all_nil.
  - apply failed_range_of_Some in Hm as (s & i & Hs & Hi & ->).
    cbn [app failed_loop]. unfold getitem. rewrite Hs, Hi.
    unfold bind at 1, ret. unfold bind at 1.
    unfold bind at 1, update_events, ext. rewrite update_events_returns.
    rewrite IH. rewrite <- app_assoc. cbn [app]. f_equal.
    change (emit ?e st) with (emit_all [e] st). rewrite emit_all_app.
    f_equal. cbn [length seq map take app]. f_equal.
    rewrite <- seq_shift, map_map. apply map_ext. intros k.
    now rewrite <- app_assoc.
Qed.

Lemma failure_reports_lookup (recs : list pyval) (k : nat) :
  (k < length recs)%nat ->
  failure_reports recs !! k = Some (failed_report (take (S k) recs)).
Proof.
  intros Hk. unfold failure_reports. rewrite list_lookup_fmap.
  now rewrite lookup_seq_lt.
Qed.

(** X4: given well-formed messages and a reporting service that answers,
    [update_failed_event_ranges] returns having changed nothing but the
    calls made: it sends one report per message, and the k-th report
    carries the records of the first k messages again, not the k-th record
    alone. *)
Theorem update_failed_event_ranges_cumulative
    (msgs : list message) (recs : list pyval) st :
  mapM failed_range_of msgs = Some recs ->
  update_failed_event_ranges env msgs st =
    (Ok tt, emit_all (map (fun r => Call (CUpdateEvents r)) (failure_reports recs)) st) /\
  length (failure_reports recs) = length msgs /\
  forall k, (k < length msgs)%nat ->
    failure_reports recs !! k = Some (failed_report (take (S k) recs)).
Proof.
  intros H. pose proof (length_mapM _ _ _ H) as Hlen.
  split; [|split].
  - unfold update_failed_event_ranges.
    destruct msgs as [|m msgs].
    + apply mapM_Some_1 in H. inversion H; subst. cbn. now rewrite emit_all_nil.
    + cbn [length Nat.eqb].
      pose proof (failed_loop_prefix (m :: msgs) [] recs [] st H) as E.
      rewrite app_nil_r in E. rewrite E. cbn [failed_loop ret].
      unfold failure_reports. now rewrite map_map.
  - unfold failure_reports. rewrite length_map, length_seq. congruence.
  - intros k Hk. apply failure_reports_lookup. congruence.
Qed.

(** X10: a message without a status or an id stops
    [update_failed_event_ranges] with the [KeyError] of the missing key,
    after the reports for the messages before it have been sent; nothing
    is sent for the messages after it. *)
Theorem update_failed_event_ranges_stops_at_bad_message
    (good rest : list message) (bad : message) (recs : list pyval) st :
  mapM failed_range_of good = Some recs ->
  failed_range_of bad = None ->
  update_failed_event_ranges env (good ++ bad :: rest) st =
    (Raise (KeyError (match bad !! "status" with None => "status" | Some _ => "id" end)),
     emit_all (map (fun r => Call (CUpdateEvents r)) (failure_reports recs)) st).
Proof.
  intros H Hbad. unfold update_failed_event_ranges.
  replace (length (good ++ bad :: rest) =? 0)%nat with false
    by (rewrite length_app; cbn; symmetry; apply Nat.eqb_neq; lia).
  rewrite (failed_loop_prefix good (bad :: rest) recs [] st H).
  cbn [failed_loop app]. unfold failure_reports. rewrite map_map.
  unfold failed_range_of in Hbad. unfold getitem.
  destruct (bad !! "status") as [s|]; [|reflexivity].
  destruct (bad !! "id") as [i|]; [discriminate|reflexivity].
Qed.

End FailureReports.

(** ** The properties above at the sample data *)

(** [st_r1_r4] and [st_r4_flushed] can be met: each is reached from a fresh
    executor by deliveries of the worker and stage-outs. *)
Lemma reachable_st_r1_r4 : reachable env0 (Some job0) [] st_r1_r4.
Proof.
  unfold st_r1_r4, st_r1, st0. do 2 apply reach_handle_out_message. apply reach_init.
Qed.

Lemma reachable_st_r4_flushed : reachable env0 (Some job0) [] st_r4_flushed.
Proof.
  unfold st_r4_flushed, st_r4, st_r1_flushed, st_r1, st0.
  apply reach_stageout_es, reach_handle_out_message, reach_stageout_es,
    reach_handle_out_message, reach_init.
Qed.

(** Witness of [reachable_never_throttles]: r1 was staged out, r4 is
    pending; forced or not, the next stage-out does the same. *)
Lemma reachable_never_throttles_witness :
  last_stageout_time st_r4 = None /\
  forall force, stageout_es env0 force st_r4 = stageout_es env0 true st_r4.
Proof.
  apply (reachable_never_throttles env0 (Some job0) []).
  unfold st_r4, st_r1_flushed, st_r1, st0.
  apply reach_handle_out_message, reach_stageout_es, reach_handle_out_message,
    reach_init.
Defined.

(** Witness of [reachable_pending_queue]: r1 and r4 are pending. *)
Lemma reachable_pending_queue_witness :
  sublist (queued_out_messages st_r1_r4) (all_out_messages st_r1_r4) /\
  Forall pending_ok (queued_out_messages st_r1_r4).
Proof.
  apply (reachable_pending_queue env0 (Some job0) []). exact reachable_st_r1_r4.
Defined.

(** Witness of [reachable_job_frame]: after two stage-outs the job is the
    one the executor started with, two events further. *)
Lemma reachable_job_frame_witness :
  job_frame (Some job0) (the_job st_r4_flushed).
Proof.
  apply (reachable_job_frame env0 (Some job0) []). exact reachable_st_r4_flushed.
Defined.

(** Witness of [update_failed_event_ranges_cumulative]: a failed and a
    fatal message. *)
Lemma update_failed_event_ranges_cumulative_witness :
  update_failed_event_ranges env0 [msg_r2; msg_r3] st0 =
    (Ok tt,
     emit_all
       [Call (CUpdateEvents (failed_report [failed_range "r2" "failed"]));
        Call (CUpdateEvents (failed_report [failed_range "r2" "failed";
                                            failed_range "r3" "fatal"]))] st0).
Proof.
  destruct (update_failed_event_ranges_cumulative env0 (fun _ _ => eq_refl)
              [msg_r2; msg_r3]
              [failed_range "r2" "failed"; failed_range "r3" "fatal"] st0)
    as (H & _).
  - reflexivity.
  - exact H.
Defined.

(** Witness of [update_failed_event_ranges_stops_at_bad_message]: a failed
    message, one without a status, a fatal one. *)
Lemma update_failed_event_ranges_stops_at_bad_message_witness :
  update_failed_event_ranges env0 [msg_r2; msg_r6; msg_r3] st0 =
    (Raise (KeyError "status"),
     emit_all [Call (CUpdateEvents (failed_report [failed_range "r2" "failed"]))] st0).
Proof.
  apply (update_failed_event_ranges_stops_at_bad_message env0 (fun _ _ => eq_refl)
           [msg_r2] [msg_r3] msg_r6 [failed_range "r2" "failed"] st0);
    reflexivity.
Defined.

(** Witness of [stageout_es_failure_drops_batch]: the pending message r5
    has no output path. *)
Lemma stageout_es_failure_drops_batch_witness :
  the_job st_r5 = Some job0 /\
  stageout_es env0 true st_r5 =
    (Raise (KeyError "output"), set_queued [] st_r5) /\
  queued_out_messages st_r5 = [msg_r5] /\
  all_out_messages (set_queued [] st_r5) = [msg_r5].
Proof.
  assert (E : stageout_es env0 true st_r5 = (Raise (KeyError "output"), set_queued [] st_r5))
    by reflexivity.
  destruct (stageout_es_failure_drops_batch env0 true st_r5 (set_queued [] st_r5) job0
              (KeyError "output") eq_refl E) as (_ & _ & _ & H & _).
  split; [reflexivity|]. split; [exact E|]. split; [reflexivity|].
  rewrite H. reflexivity.
Defined.

(** Witness of [clean_raises_before_reset]: the audit log holds r6, which
    has no status. *)
Lemma clean_raises_before_reset_witness :
  all_out_messages st_r6 = [msg_r6] /\
  exists e,
    fst (clean env0 st_r6) = Raise e /\
    (e = AttributeError "jobid" \/ e = KeyError "status") /\
    all_out_messages (snd (clean env0 st_r6)) = [msg_r6].
Proof.
  split; [reflexivity|].
  destruct (clean_raises_before_reset env0 st_r6) as (e & H1 & H2 & _ & H4 & _).
  - intros [_ H]. apply Forall_inv in H. destruct H as [s Hs]. discriminate Hs.
  - exists e. split; [exact H1|]. split; [exact H2|]. rewrite H4. reflexivity.
Defined.

(** Witness of [poisoned_audit_log]: r6 has no status; once delivered,
    [clean] and [run] raise. *)
Lemma poisoned_audit_log_witness :
  poisoned st_r6 /\
  (exists st', clean env0 st_r6 = (Raise (KeyError "status"), st')) /\
  (exists st', run env0 st_r6 = (Raise (KeyError "status"), st') /\
               exit_code st' = None).
Proof.
  destruct (poisoned_audit_log env0) as [H1 H2].
  destruct (H1 st0 msg_r6 job0 eq_refl eq_refl) as [_ Hp].
  destruct (H2 st_r6 Hp) as (_ & _ & (s1 & E1 & _) & (s2 & E2 & _ & E3)).
  split; [exact Hp|]. split; [now exists s1|].
  exists s2. split; [exact E2 | exact E3].
Defined.

(** Witness of [handle_out_messages_in_turn]: a finished, a failed and a
    finished message. *)
Lemma handle_out_messages_in_turn_witness :
  exists st',
    for_each (handle_out_message env0) [msg_r1; msg_r2; msg_r4] st0 = (Ok tt, st') /\
    all_out_messages st' = [msg_r1; msg_r2; msg_r4] /\
    queued_out_messages st' = [msg_r1; msg_r4] /\
    reports (added st0 st') = [failed_report [failed_range "r2" "failed"]].
Proof.
  destruct (handle_out_messages_in_turn env0 [msg_r1; msg_r2; msg_r4] st0 job0)
    as (st' & H1 & H2 & H3 & H4 & _).
  - reflexivity.
  - repeat constructor; try (now eexists); intros _; now eexists.
  - reflexivity.
  - exists st'. split; [exact H1|]. split; [exact H2|]. split; [exact H3 | exact H4].
Defined.

(** Witness of [run_reliable]: r1 and r4 are pending when [run] is
    called. *)
Lemma run_reliable_witness :
  exists st' tr,
    run env0 st_r1_r4 = (Ok tt, st') /\
    exit_code st' = Some 0 /\
    reports tr = [finished_report [finished_range "r4" "/tmp/r4.out";
                                   finished_range "r1" "/tmp/r1.out"]] /\
    the_job st' = Some (mkJob "4711" 2 600) /\
    queued_out_messages st' = [] /\
    all_out_messages st' = [].
Proof.
  destruct (run_reliable env0 st_r1_r4 job0
              [finished_range "r4" "/tmp/r4.out"; finished_range "r1" "/tmp/r1.out"])
    as (st' & tr & H1 & _ & H3 & H4 & H5 & H6 & H7 & _).
  - intros tr c. reflexivity.
  - intros tr. reflexivity.
  - left. reflexivity.
  - reflexivity.
  - repeat constructor; now eexists.
  - reflexivity.
  - exists st', tr. split; [exact H1|]. split; [exact H3|]. split; [exact H4|].
    split; [exact H5|]. split; [exact H6 | exact H7].
Defined.

(** ** A run that is told to stop *)

Lemma stop_calls_app tr1 tr2 : stop_calls (tr1 ++ tr2) = stop_calls tr1 ++ stop_calls tr2.
Proof. apply omap_app. Qed.

Lemma poll_calls_app tr1 tr2 : poll_calls (tr1 ++ tr2) = poll_calls tr1 ++ poll_calls tr2.
Proof. apply omap_app. Qed.

Lemma waiting_calls_silent (tail : list event) :
  forallb waiting_call tail = true ->
  stop_calls tail = [] /\ poll_calls tail = [] /\ reports tail = [].
Proof.
  induction tail as [|e tail IH]; [easy|].
  cbn [forallb]. intros [He Ht]%andb_prop. destruct (IH Ht) as (H1 & H2 & H3).
  destruct e as [[]| |]; try discriminate; cbn; auto.
Qed.

Section StopRequested.

Variable env : Env.

Hypothesis Hrel : reliable env.
Hypothesis Hquiet : quiet env.

Lemma set_proc_emit_all (p : option payload) (es : list event) st :
  set_proc p (emit_all es st) = emit_all es (set_proc p st).
Proof. reflexivity. Qed.

Lemma emit_emit_all (e : event) (es : list event) st :
  emit e (emit_all es st) = emit_all (es ++ [e]) st.
Proof. unfold emit, emit_all. cbn. now rewrite <- app_assoc. Qed.

Lemma ext_ok (c : call) st : ext env c st = (Ok tt, emit (Call c) st).
Proof. unfold ext. now rewrite Hrel. Qed.

Lemma ext_val_ok {A} (c : call) (answer : list event -> A) st :
  ext_val env c answer st = (Ok (answer (trace st)), emit (Call c) st).
Proof. unfold ext_val. now rewrite Hrel. Qed.

(** A wait for the worker's end when nothing fails and the worker delivers
    nothing. *)
Lemma wait_while_alive_waits (fuel : nat) (d : Z) st :
  exists tail rest,
    wait_while_alive env fuel d st = (Ok tt, set_alive rest (emit_all tail st)) /\
    forallb waiting_call tail = true.
Proof.
  revert st. induction fuel as [|fuel IH]; intros st; cbn [wait_while_alive];
    erewrite bind_ok by (apply is_alive_ok, Hrel).
  - exists [Call CIsAlive], (tl (alive st)).
    split; [now destruct (hd false (alive st))|reflexivity].
  - destruct (hd false (alive st)).
    + erewrite bind_ok by (rewrite (sleep_quiet env _ _ Hquiet); apply ext_ok).
      destruct (IH (emit (Call (CSleep d))
                      (set_alive (tl (alive st)) (emit (Call CIsAlive) st))))
        as (tail & rest & -> & Ht).
      exists (Call CIsAlive :: Call (CSleep d) :: tail), rest.
      split; [|exact Ht]. f_equal.
      unfold set_alive, emit_all, emit. cbn. f_equal. now rewrite <- !app_assoc.
    + exists [Call CIsAlive], (tl (alive st)). now split.
Qed.

(** [clean] when nothing fails and a worker was started: it stops the
    worker once. *)
Lemma clean_stops_once st (p : payload) :
  cleanable_state st ->
  proc st = Some p ->
  exists st' tr,
    clean env st = (Ok tt, st') /\
    trace st' = trace st ++ tr /\
    stop_calls tr = [tt] /\ poll_calls tr = [] /\ reports tr = [] /\
    exit_code st' = exit_code st.
Proof.
  intros [[j Hj] Hall] Hp. rewrite clean_unfold, Hj.
  destruct (clean_loop_uniform (all_out_messages st)) as (r & ps & E & Hr).
  destruct (Hr Hall) as [-> _]. rewrite E.
  unfold clean_tail. unfold bind at 1, get. cbn [proc set_all set_last set_queued emit_all].
  rewrite Hp. unfold bind at 1. erewrite bind_ok by apply ext_ok.
  match goal with
  | |- context [wait_while_alive env ?n ?d ?s] =>
      destruct (wait_while_alive_waits n d s) as (tail & rest & -> & Ht)
  end.
  rewrite ext_ok. eexists. eexists. split; [reflexivity|].
  destruct (waiting_calls_silent tail Ht) as (W1 & W2 & W3).
  destruct (removal_notices_announced ps) as (_ & _ & _ & N & _).
  cbn [trace emit set_alive emit_all set_all set_last set_queued exit_code].
  rewrite <- !app_assoc. split; [reflexivity|].
  rewrite !stop_calls_app, !poll_calls_app, !reports_app, W1, W2, W3, N.
  assert (S1 : stop_calls (map (fun p => LogInfo (LRemoving p)) ps) = [])
    by (clear; induction ps; [reflexivity | assumption]).
  assert (S2 : poll_calls (map (fun p => LogInfo (LRemoving p)) ps) = [])
    by (clear; induction ps; [reflexivity | assumption]).
  rewrite S1, S2. now repeat split.
Qed.

(** [run_body] up to its poll loop, when nothing fails: the payload is
    fetched, the worker is created and started. *)
Lemma run_body_start st (j : Job) :
  is_set_payload env = true \/ is_retrieve_payload env = true ->
  the_job st = Some j ->
  exists p evs,
    (stop_calls evs = [] /\ poll_calls evs = [] /\ reports evs = []) /\
    forall r,
      (poll_loop env (length (alive st)) 0 ;;;
       st <~ get ;;
       wait_while_alive env (length (alive st)) 10 ;;;
       log_info LESProcessFinished ;;;
       stageout_es env true ;;;
       clean env ;;;
       code <~ ext_val env CPoll (poll env) ;;
       modify (set_exit_code code))
        (emit_all evs (set_proc (Some p) st)) = r ->
      run_body env st = r.
Proof.
  intros Hpay Hj.
  assert (Hstate : forall (p : payload) (e0 : list event),
            emit (LogInfo LESProcessStarted)
              (emit (Call CStart)
                 (emit (LogInfo LESProcessStarts)
                    (emit (Call CSetHandleOutMessageHook)
                       (emit (Call CSetGetEventRangesHook)
                          (emit (LogInfo LESProcessInitialized)
                             (set_proc (Some p)
                                (emit (Call (CNewESProcess p))
                                   (emit (LogInfo LStartingESProcess)
                                      (emit (LogInfo (LPayload p))
                                         (emit_all e0 st)))))))))) =
            emit_all
              (e0 ++ [LogInfo (LPayload p); LogInfo LStartingESProcess;
                      Call (CNewESProcess p); LogInfo LESProcessInitialized;
                      Call CSetGetEventRangesHook; Call CSetHandleOutMessageHook;
                      LogInfo LESProcessStarts; Call CStart;
                      LogInfo LESProcessStarted])
              (set_proc (Some p) st)).
  { intros p e0. rewrite !emit_emit_all, set_proc_emit_all, !emit_emit_all.
    now rewrite <- !app_assoc. }
  destruct (is_set_payload env) eqn:Es.
  - exists (get_payload env). eexists. split; [shelve|]. intros r Hr.
    unfold run_body. rewrite Es.
    erewrite bind_ok by reflexivity.
    erewrite bind_ok by reflexivity.
    erewrite bind_ok by reflexivity. cbn [the_job emit]. rewrite Hj.
    do 12 (erewrite bind_ok by first [reflexivity | apply ext_ok]).
    unfold bind at 1. unfold get at 1. cbn [alive emit set_proc].
    change (emit (LogInfo LStarting) st) with (emit_all [LogInfo LStarting] st).
    rewrite Hstate. exact Hr.
  - destruct Hpay as [Hpay|Hpay]; [discriminate|].
    exists (retrieve_payload env). eexists. split; [shelve|]. intros r Hr.
    unfold run_body. rewrite Es, Hpay.
    erewrite bind_ok by reflexivity.
    erewrite bind_ok by apply ext_val_ok.
    erewrite bind_ok by reflexivity. cbn [the_job emit]. rewrite Hj.
    do 12 (erewrite bind_ok by first [reflexivity | apply ext_ok]).
    unfold bind at 1. unfold get at 1. cbn [alive emit set_proc].
    change (emit (LogInfo LStarting) st) with (emit_all [LogInfo LStarting] st).
    rewrite emit_emit_all, Hstate. exact Hr.
  Unshelve. all: now repeat split.
Qed.

(** The poll loop when the worker is alive and the stop flag is set. *)
Lemma poll_loop_stop (fuel : nat) (iteration : Z) st (script : list bool) :
  is_stop env (trace st ++ [Call CIsAlive]) = true ->
  alive st = true :: script ->
  poll_loop env (S fuel) iteration st =
    (Ok tt, set_alive script
              (emit_all [Call CIsAlive; Call CIsStop; LogInfo LStopSet; Call CStop] st)).
Proof.
  intros Hstop Halive. cbn [poll_loop].
  erewrite bind_ok by (apply is_alive_ok, Hrel).
  rewrite Halive. cbn [hd tl]. erewrite bind_ok by apply ext_val_ok.
  cbn [trace set_alive emit]. rewrite Hstop.
  erewrite bind_ok by reflexivity. rewrite ext_ok.
  f_equal. destruct st. unfold set_alive, emit_all, emit. cbn.
  now rewrite <- !app_assoc.
Qed.

(** A forced stage-out when nothing fails. *)
Lemma stageout_es_forced st (j : Job) (ers : list pyval) (p : payload) :
  the_job st = Some j ->
  proc st = Some p ->
  Forall (fun m : message => is_Some (m !! "status")) (all_out_messages st) ->
  mapM finished_range_of (rev (queued_out_messages st)) = Some ers ->
  exists st' tr,
    stageout_es env true st = (Ok tt, st') /\
    trace st' = trace st ++ tr /\
    stop_calls tr = [] /\ poll_calls tr = [] /\
    reports tr = match queued_out_messages st with
                 | [] => []
                 | _ :: _ => [finished_report ers]
                 end /\
    cleanable_state st' /\ proc st' = Some p.
Proof.
  intros Hj Hp Hall Hm.
  destruct (stageout_es_ok env true st j ers Hj Hm) as [[E Hq] | [Hq E]].
  - apply Hrel.
  - exists st, []. rewrite app_nil_r. split; [exact E|]. split; [reflexivity|].
    rewrite (Hq eq_refl). split; [reflexivity|]. split; [reflexivity|].
    split; [reflexivity|]. split; [|exact Hp]. split; [rewrite Hj; eauto | exact Hall].
  - exists (flushed st ers), [Call (CUpdateEvents (finished_report ers))].
    split; [exact E|]. destruct st as [q l a pr ec jb al tr]. cbn in *. subst.
    split; [reflexivity|]. split; [reflexivity|]. split; [reflexivity|].
    split; [now destruct q|]. split; [|reflexivity]. split; [eauto | exact Hall].
Qed.

(** X24: when no collaborator fails, the worker delivers no message while
    [run] is under way, a payload is at hand, there is a job handle, every
    entry of the audit log has a status, every pending message has an id
    and an output, the worker is alive at the first test and the stop flag
    is set, [run] leaves the poll loop at once: it returns having called
    [proc.stop()] twice, in the loop and again in [clean], and
    [proc.poll()] once, for the exit code, after [clean]; the messages that
    were pending when [run] started are reported in one batch by the forced
    stage-out. *)
Theorem run_stop_requested (st : executor) (j : Job) (ers : list pyval)
    (script : list bool) :
  is_set_payload env = true \/ is_retrieve_payload env = true ->
  (forall tr, is_stop env tr = true) ->
  the_job st = Some j ->
  alive st = true :: script ->
  Forall (fun m : message => is_Some (m !! "status")) (all_out_messages st) ->
  mapM finished_range_of (rev (queued_out_messages st)) = Some ers ->
  exists st' tr,
    run env st = (Ok tt, st') /\
    trace st' = trace st ++ tr ++ [Call CPoll; LogInfo LExecutorFinished] /\
    stop_calls tr = [tt; tt] /\
    poll_calls tr = [] /\
    reports tr =
      match queued_out_messages st with
      | [] => []
      | _ :: _ => [finished_report ers]
      end /\
    exit_code st' = poll env (trace st ++ tr).
Proof.
  intros Hpay Hstop Hj Halive Hall Hm.
  destruct (run_body_start st j Hpay Hj) as (p & evs & (S0 & P0 & R0) & Ebody).
  pose (s1 := emit_all evs (set_proc (Some p) st)).
  pose proof (poll_loop_stop (length script) 0 s1 script (Hstop _) Halive) as Eloop.
  pose (s2 := set_alive script
                (emit_all [Call CIsAlive; Call CIsStop; LogInfo LStopSet; Call CStop] s1)).
  destruct (wait_while_alive_waits (length (alive s2)) 10 s2) as (tail & rest & Ewait & Ht).
  destruct (waiting_calls_silent tail Ht) as (W1 & W2 & W3).
  pose (s3 := emit (LogInfo LESProcessFinished) (set_alive rest (emit_all tail s2))).
  assert (Ht3 : trace s3 =
                trace st ++ evs ++ [Call CIsAlive; Call CIsStop; LogInfo LStopSet;
                                    Call CStop] ++ tail ++ [LogInfo LESProcessFinished]).
  { unfold s3, s2, s1. cbn [trace emit set_alive emit_all set_proc].
    now rewrite <- !app_assoc. }
  destruct (stageout_es_forced s3 j ers p Hj eq_refl Hall Hm)
    as (s4 & tr4 & Estage & Ht4 & S4 & P4 & R4 & Hc4 & Hp4).
  change (queued_out_messages s3) with (queued_out_messages st) in R4.
  destruct (clean_stops_once s4 p Hc4 Hp4) as (s5 & tr5 & Eclean & Ht5 & S5 & P5 & R5 & _).
  assert (Ebody' : run_body env st =
                   (Ok tt, set_exit_code (poll env (trace s5)) (emit (Call CPoll) s5))).
  { apply Ebody. rewrite Halive. cbn [length].
    rewrite (bind_ok _ _ _ _ _ Eloop).
    unfold bind at 1. unfold get at 1.
    rewrite (bind_ok _ _ _ _ _ Ewait).
    rewrite (bind_ok (log_info LESProcessFinished) _ _ tt s3 eq_refl).
    rewrite (bind_ok _ _ _ _ _ Estage).
    rewrite (bind_ok _ _ _ _ _ Eclean).
    rewrite (bind_ok _ _ _ _ _ (ext_val_ok CPoll (poll env) s5)).
    reflexivity. }
  rewrite run_unfold, Ebody'.
  eexists. exists (evs ++ [Call CIsAlive; Call CIsStop; LogInfo LStopSet; Call CStop]
                     ++ tail ++ [LogInfo LESProcessFinished] ++ tr4 ++ tr5).
  split; [reflexivity|].
  cbn [trace emit set_exit_code exit_code].
  rewrite Ht5, Ht4, Ht3, <- !app_assoc.
  split; [reflexivity|].
  rewrite !stop_calls_app, !poll_calls_app, !reports_app.
  rewrite S0, P0, R0, W1, W2, W3, S4, P4, R4, S5, P5, R5.
  split; [reflexivity|]. split; [reflexivity|]. split; [|reflexivity].
  destruct (queued_out_messages st); reflexivity.
Qed.

End StopRequested.

(** Witness of [run_stop_requested]: r1 is pending, the worker is found
    alive twice. *)
Lemma run_stop_requested_witness :
  exists st' tr,
    run env_stop (set_alive [true; true] st_r1) = (Ok tt, st') /\
    stop_calls tr = [tt; tt] /\
    poll_calls tr = [] /\
    reports tr = [finished_report [finished_range "r1" "/tmp/r1.out"]] /\
    exit_code st' = Some 0.
Proof.
  destruct (run_stop_requested env_stop (fun _ _ => eq_refl) (fun _ => eq_refl)
              (set_alive [true; true] st_r1) job0
              [finished_range "r1" "/tmp/r1.out"] [true])
    as (st' & tr & H1 & _ & H3 & H4 & H5 & H6).
  - left. reflexivity.
  - reflexivity.
  - reflexivity.
  - reflexivity.
  - repeat constructor. now eexists.
  - reflexivity.
  - exists st', tr. split; [exact H1|]. split; [exact H3|]. split; [exact H4|].
    split; [exact H5 | exact H6].
Defined.

(** ** Messages that arrive while [run] is under way *)

(** X25: a run during which the worker delivers messages.  The worker is
    alive at the first test; during the first sleep of the poll loop it
    delivers the finished message r1 and the failed message r2.  r2 is
    reported at once, r1 by the forced stage-out after the worker's end;
    [clean] announces the removal of the output of r1, and [run] returns
    with the worker's exit status, the event counter at 1 and the two
    lists empty. *)
Theorem run_receives_messages :
  let st := init (Some job0) [true] in
  let st' := snd (run (env_delivering [msg_r1; msg_r2]) st) in
  fst (run (env_delivering [msg_r1; msg_r2]) st) = Ok tt /\
  sleeps (trace st') = [50] /\
  reports (trace st') =
    [failed_report [failed_range "r2" "failed"];
     finished_report [finished_range "r1" "/tmp/r1.out"]] /\
  removal_notices (trace st') = ["/tmp/r1.out"] /\
  the_job st' = Some (mkJob "4711" 1 600) /\
  exit_code st' = Some 0 /\
  queued_out_messages st' = [] /\ all_out_messages st' = [].
Proof. repeat split; vm_compute; reflexivity. Qed.

(** X26: a message without a status that arrives while [run] is under way
    makes [run] raise.  The worker delivers r6 during the first sleep of
    the poll loop; [handle_out_message] puts it in the audit log and raises
    in the worker's thread.  The body of [run] goes on to [clean], which
    raises [KeyError] on the entry; the handler logs the error and calls
    [clean] again, which raises again, out of [run]: no exit code is stored
    and the audit log still holds r6. *)
Theorem run_poisoned_by_delivery :
  let st := init (Some job0) [true] in
  let st' := snd (run (env_delivering [msg_r6]) st) in
  fst (run (env_delivering [msg_r6]) st) = Raise (KeyError "status") /\
  exit_code st' = None /\
  all_out_messages st' = [msg_r6] /\
  trace st' =
    [LogInfo LStarting; LogInfo (LPayload "payload");
     LogInfo LStartingESProcess; Call (CNewESProcess "payload");
     LogInfo LESProcessInitialized; Call CSetGetEventRangesHook;
     Call CSetHandleOutMessageHook; LogInfo LESProcessStarts;
     Call CStart; LogInfo LESProcessStarted; Call CIsAlive;
     Call CIsStop; Call CPoll; Call (CSleep 50); LogInfo (LHandling msg_r6);
     Call CIsAlive; Call CIsAlive; LogInfo LESProcessFinished;
     LogError (LExecuteFailed (KeyError "status"))].
Proof. repeat split; vm_compute; reflexivity. Qed.

(** ** File handling: the monad *)

Section FileHandlingBasics.

Import filehandling.

Variable os : OS.

Lemma io_bind_returns {A B} (m : IO A) (k : A -> IO B) h a h' :
  m h = (Returns a, h') -> bind m k h = k a h'.
Proof. intros H. unfold bind. now rewrite H. Qed.

Lemma io_bind_raises {A B} (m : IO A) (k : A -> IO B) h e h' :
  m h = (Raises e, h') -> bind m k h = (Raises e, h').
Proof. intros H. unfold bind. now rewrite H. Qed.

(** A computation that returns has got through both parts of a bind. *)
Lemma io_bind_inv {A B} (m : IO A) (k : A -> IO B) h b h' :
  bind m k h = (Returns b, h') ->
  exists a h1, m h = (Returns a, h1) /\ k a h1 = (Returns b, h').
Proof.
  unfold bind. destruct (m h) as [[a|e] h1]; [eauto | discriminate].
Qed.

Lemma ask_returns {A} (c : os_call) (answer : history -> A) h :
  fails os h c = None -> ask os c answer h = (Returns (answer h), h ++ [Did c]).
Proof. intros H. unfold ask. now rewrite H. Qed.

Lemma ask_inv {A} (c : os_call) (answer : history -> A) h a h' :
  ask os c answer h = (Returns a, h') ->
  fails os h c = None /\ a = answer h /\ h' = h ++ [Did c].
Proof.
  unfold ask. destruct (fails os h c); [discriminate|].
  intros [= <- <-]. auto.
Qed.

Lemma returns_only_ret {A} (P : A -> Prop) a : P a -> returns_only P (ret a).
Proof. intros H h. exact H. Qed.

Lemma returns_only_raise {A} (P : A -> Prop) e : returns_only P (raise e).
Proof. intros h. exact I. Qed.

Lemma returns_only_bind {A B} (Q : A -> Prop) (P : B -> Prop) (m : IO A) (k : A -> IO B) :
  returns_only Q m -> (forall a, Q a -> returns_only P (k a)) ->
  returns_only P (bind m k).
Proof.
  intros Hm Hk h. unfold bind. specialize (Hm h).
  destruct (m h) as [[a|e] h1]; [|exact I]. now apply Hk.
Qed.

Lemma returns_only_any {A} (m : IO A) : returns_only (fun _ => True) m.
Proof. intros h. now destruct (fst (m h)). Qed.

Lemma returns_only_try_except {A} (P : A -> Prop) (m : IO A) catches handler :
  returns_only P m -> (forall e, returns_only P (handler e)) ->
  returns_only P (try_except m catches handler).
Proof.
  intros Hm Hh h. unfold try_except. specialize (Hm h).
  destruct (m h) as [[a|e] h1]; [exact Hm|].
  destruct (catches e); [apply Hh | exact I].
Qed.

End FileHandlingBasics.

(** ** open_file, write_file *)

Section OpenFile.

Import filehandling.

Variable os : OS.

(** [open_file] returns a file object only, never [None], and only for a
    path that exists. *)
Lemma open_file_returns filename mode h f h' :
  open_file os filename mode h = (Returns f, h') ->
  f = Some filename /\
  path_exists os h filename = true /\
  h' = h ++ [Did (os_path_exists filename); Did (open_ filename mode)].
Proof.
  unfold open_file. intros H.
  apply io_bind_inv in H as (found & h1 & H1 & H).
  apply ask_inv in H1 as (_ & -> & ->).
  apply io_bind_inv in H as (f1 & h2 & H2 & H). injection H as <- <-.
  destruct (path_exists os h filename); [|discriminate].
  unfold try_except, bind, do, ask in H2.
  destruct (fails os _ _) as [e|]; cbn in H2.
  - destruct (is_IOError e); discriminate.
  - injection H2 as <- <-. now rewrite <- app_assoc.
Qed.

(** X11: [write_file] returns [True] or raises, it never returns [False]; it
    returns only for a path that existed before the call (it does not
    create a file), after one call each of [os.path.exists], [open],
    [write] and [close]. *)
Theorem write_file_returns_true (filename contents : string) (h h' : history)
    (status : bool) :
  write_file os filename contents h = (Returns status, h') ->
  status = true /\
  path_exists os h filename = true /\
  h' = h ++ [Did (os_path_exists filename); Did (open_ filename "w");
             Did (f_write filename contents); Did (f_close filename)].
Proof.
  unfold write_file. intros H.
  apply io_bind_inv in H as (f & h1 & H1 & H).
  apply open_file_returns in H1 as (-> & Hex & ->).
  apply io_bind_inv in H as (s & h2 & H2 & H). injection H as <- <-.
  apply io_bind_inv in H2 as (s' & h3 & H3 & H2).
  apply io_bind_inv in H2 as ([] & h4 & H4 & H2). injection H2 as <- <-.
  apply ask_inv in H4 as (_ & _ & ->).
  unfold try_except, bind, do, ask in H3.
  destruct (fails os _ _) as [e|]; cbn in H3.
  - destruct (is_IOError e); discriminate.
  - injection H3 as <- <-. rewrite <- !app_assoc. auto.
Qed.

(** X12: on a path that does not exist [write_file] raises [NoSuchFile]
    without trying to open it, and [read_file] does the same. *)
Theorem write_file_needs_the_file (filename contents : string) (h : history) :
  fails os h (os_path_exists filename) = None ->
  path_exists os h filename = false ->
  write_file os filename contents h =
    (Raises (NoSuchFile ("File does not exist: " +:+ filename)),
     h ++ [Did (os_path_exists filename)]) /\
  read_file os filename h =
    (Raises (NoSuchFile ("File does not exist: " +:+ filename)),
     h ++ [Did (os_path_exists filename)]).
Proof.
  intros Hf Hex. unfold write_file, read_file, open_file, bind, ask.
  now rewrite Hf, Hex.
Qed.

End OpenFile.

(** ** remove, remove_files, remove_empty_directories *)

Section Remove.

Import filehandling.

Variable os : OS.

Lemma removals_app h1 h2 : removals (h1 ++ h2) = removals h1 ++ removals h2.
Proof. apply omap_app. Qed.

Lemma remove_warnings_app h1 h2 :
  remove_warnings (h1 ++ h2) = remove_warnings h1 ++ remove_warnings h2.
Proof. apply omap_app. Qed.

Lemma rmdirs_app h1 h2 : rmdirs (h1 ++ h2) = rmdirs h1 ++ rmdirs h2.
Proof. apply omap_app. Qed.

Lemma archives_app h1 h2 : archives (h1 ++ h2) = archives h1 ++ archives h2.
Proof. apply omap_app. Qed.

(** [remove] when [os.remove] raises nothing but [OSError]. *)
Lemma remove_cases path h :
  fails os h (os_remove path) = None \/ fails os h (os_remove path) = Some OSError ->
  remove os path h = (Returns 0, h ++ [Did (os_remove path)]) \/
  remove os path h =
    (Returns (-1), h ++ [Did (os_remove path); Logged warn_remove_failed]).
Proof.
  unfold remove, try_except, bind, do, ask, log.
  intros [-> | ->]; cbn; [now left | right]. now rewrite <- app_assoc.
Qed.

Lemma remove_files_loop_spec workdir files ec h :
  (forall h p, fails os h (os_remove p) = None \/ fails os h (os_remove p) = Some OSError) ->
  ec = 0 \/ ec = -1 ->
  exists added,
    remove_files_loop os workdir files ec h =
      (Returns (match remove_warnings added with [] => ec | _ :: _ => -1 end),
       h ++ added) /\
    removals added = map (os_path_join workdir) files.
Proof.
  intros Hos. revert ec h. induction files as [|f files IH]; intros ec h Hec.
  - exists []. cbn. now rewrite app_nil_r.
  - cbn [remove_files_loop].
    destruct (remove_cases (os_path_join workdir f) h (Hos _ _)) as [E | E];
      rewrite (io_bind_returns _ _ _ _ _ E).
    + cbn [Z.eqb negb andb].
      destruct (IH ec (h ++ [Did (os_remove (os_path_join workdir f))]) Hec)
        as (added & -> & Hr).
      exists ([Did (os_remove (os_path_join workdir f))] ++ added).
      rewrite app_assoc, remove_warnings_app, removals_app, Hr. now split.
    + replace (if negb (-1 =? 0)%Z && (ec =? 0)%Z then -1 else ec) with (-1)
        by (destruct Hec as [-> | ->]; reflexivity).
      destruct (IH (-1) (h ++ [Did (os_remove (os_path_join workdir f));
                                Logged warn_remove_failed])) as (added & -> & Hr);
        [now right|].
      exists ([Did (os_remove (os_path_join workdir f)); Logged warn_remove_failed]
                ++ added).
      rewrite app_assoc, remove_warnings_app, removals_app, Hr. split; [|reflexivity].
      cbn. now destruct (remove_warnings added).
Qed.

(** X13: when [os.remove] raises nothing but [OSError], [remove_files] on a
    list returns, having called [os.remove] once on every file of the
    list, joined to the work directory, in order and also after a removal
    that failed; it returns 0 when no removal failed and -1 otherwise. *)
Theorem remove_files_tries_every_file (workdir : string) (files : list string)
    (h : history) :
  (forall h p, fails os h (os_remove p) = None \/ fails os h (os_remove p) = Some OSError) ->
  exists added,
    remove_files os workdir (a_list files) h =
      (Returns (match remove_warnings added with [] => 0 | _ :: _ => -1 end),
       h ++ added) /\
    removals added = map (os_path_join workdir) files.
Proof.
  intros Hos. unfold remove_files.
  apply remove_files_loop_spec; [exact Hos | now left].
Qed.

(** What the loop of [remove_empty_directories] does to the history. *)
Lemma remove_empty_directories_loop_history src_dir yielded h :
  exists added,
    snd (remove_empty_directories_loop os src_dir yielded h) = h ++ added /\
    (rmdirs added `prefix_of` map (fun y => fst (fst y)) yielded) /\
    (src_dir ∉ rmdirs added) /\
    removals added = [] /\ archives added = [] /\
    existsb closes_archive added = false.
Proof.
  revert h. induction yielded as [|[[dirpath subdirs] files] yielded IH]; intros h.
  - exists []. cbn. rewrite app_nil_r.
    repeat split; first [apply prefix_nil | apply not_elem_of_nil].
  - cbn [remove_empty_directories_loop].
    destruct (String.eqb dirpath src_dir) eqn:Ed.
    + exists []. cbn. rewrite app_nil_r.
      repeat split; first [apply prefix_nil | apply not_elem_of_nil].
    + apply String.eqb_neq in Ed.
      assert (Hstep : forall r : outcome unit * history,
                 snd r = h ++ [Did (os_rmdir dirpath)] ->
                 (exists added,
                    snd (match r with
                         | (Returns a, h') =>
                             remove_empty_directories_loop os src_dir yielded h'
                         | (Raises e, h') => (Raises e, h')
                         end) = h ++ added /\
                    (rmdirs added `prefix_of`
                      map (fun y => fst (fst y)) ((dirpath, subdirs, files) :: yielded)) /\
                    (src_dir ∉ rmdirs added) /\
                    removals added = [] /\ archives added = [] /\
                    existsb closes_archive added = false)).
      { intros [[[]|e] h1] Hh; cbn in Hh; subst h1.
        - destruct (IH (h ++ [Did (os_rmdir dirpath)])) as (added & E & Hp & Hn & R & A & C).
          exists ([Did (os_rmdir dirpath)] ++ added).
          rewrite E, <- app_assoc. split; [reflexivity|].
          rewrite rmdirs_app, removals_app, archives_app, existsb_app, R, A, C.
          cbn. split; [now apply prefix_cons|]. split; [|easy].
          apply not_elem_of_cons. split; [congruence | exact Hn].
        - exists [Did (os_rmdir dirpath)]. cbn. split; [reflexivity|].
          split; [apply prefix_cons, prefix_nil|]. split; [|easy].
          apply not_elem_of_cons. split; [congruence | apply not_elem_of_nil]. }
      unfold bind at 1. apply Hstep.
      unfold try_except, do, ask, ret.
      destruct (fails os h (os_rmdir dirpath)) as [e|]; [|reflexivity].
      now destruct (is_OSError e).
Qed.

(** When [os.rmdir] raises nothing but [OSError], the loop returns. *)
Lemma remove_empty_directories_loop_returns src_dir yielded h :
  (forall h p, fails os h (os_rmdir p) = None \/ fails os h (os_rmdir p) = Some OSError) ->
  fst (remove_empty_directories_loop os src_dir yielded h) = Returns tt.
Proof.
  intros Hos. revert h.
  induction yielded as [|[[dirpath subdirs] files] yielded IH]; intros h; [reflexivity|].
  cbn [remove_empty_directories_loop].
  destruct (String.eqb dirpath src_dir); [reflexivity|].
  unfold bind at 1, try_except, do, ask, ret.
  destruct (Hos h dirpath) as [-> | ->]; cbn; apply IH.
Qed.

(** X14: whatever [os.walk] yields and whatever fails,
    [remove_empty_directories] never calls [os.rmdir] on the directory it
    is given; the directories it calls it on are the first ones yielded,
    in order, and it removes no file. *)
Theorem remove_empty_directories_spares_top (src_dir : string) (h : history) :
  exists added,
    snd (remove_empty_directories os src_dir h) = h ++ added /\
    (src_dir ∉ rmdirs added) /\
    (rmdirs added `prefix_of`
      map (fun y => fst (fst y)) (walked os h src_dir false)) /\
    removals added = [].
Proof.
  unfold remove_empty_directories, bind, ask.
  destruct (fails os h (os_walk src_dir false)) as [e|].
  - exists [Did (os_walk src_dir false)]. cbn.
    repeat split; first [apply prefix_nil | apply not_elem_of_nil].
  - destruct (remove_empty_directories_loop_history src_dir
                (walked os h src_dir false) (h ++ [Did (os_walk src_dir false)]))
      as (added & E & Hp & Hn & R & _).
    exists ([Did (os_walk src_dir false)] ++ added).
    rewrite E, <- app_assoc, rmdirs_app, removals_app, R. now repeat split.
Qed.

End Remove.

(** ** tar_files *)

Section TarFiles.

Import filehandling.

Variable os : OS.

(** A call with an attempt number other than 0 does not call itself. *)
Lemma tar_files_body_last_attempt again1 again2 wkdir excludedfiles logfile_name attempt h :
  attempt <> 0 ->
  tar_files_body os again1 wkdir excludedfiles logfile_name attempt h =
  tar_files_body os again2 wkdir excludedfiles logfile_name attempt h.
Proof.
  intros Ha%Z.eqb_neq. unfold tar_files_body. now rewrite Ha.
Qed.

Lemma tar_files_body_ext again1 again2 wkdir excludedfiles logfile_name attempt h :
  (forall name h, again1 name h = again2 name h) ->
  tar_files_body os again1 wkdir excludedfiles logfile_name attempt h =
  tar_files_body os again2 wkdir excludedfiles logfile_name attempt h.
Proof.
  intros Hag. unfold tar_files_body, bind.
  destruct (ask os time_time (clock os) h) as [[t|e] h1]; [|reflexivity].
  destruct (ask os (os_walk wkdir true) _ h1) as [[y|e] h2]; [|reflexivity].
  destruct (to_pack_walk os wkdir excludedfiles y) as [|f fs]; [reflexivity|].
  unfold try_except.
  destruct (pack os _ _ h2) as [[[]|e] h3]; [reflexivity|].
  destruct (is_IOError e); [|reflexivity].
  destruct (attempt =? 0)%Z; [|reflexivity].
  unfold log. destruct (do os _ _) as [[[]|e'] h4]; [|reflexivity].
  now rewrite Hag.
Qed.

(** [tar_files] satisfies the equation of the source: its body, where the
    call of line 342 is [tar_files] itself with [attempt=1]. *)
Lemma tar_files_unfold wkdir excludedfiles logfile_name attempt h :
  tar_files os wkdir excludedfiles logfile_name attempt h =
  tar_files_body os (fun name => tar_files os wkdir excludedfiles name 1)
    wkdir excludedfiles logfile_name attempt h.
Proof.
  unfold tar_files at 1. apply tar_files_body_ext. intros name h'.
  unfold tar_files, tar_files_again. now apply tar_files_body_last_attempt.
Qed.

(** X15: called with [attempt=0], as by default, [tar_files] never returns
    1: it returns 0 or raises.  With another attempt number it returns 0
    or 1. *)
Theorem tar_files_return_code (wkdir : string) (excludedfiles : list string)
    (logfile_name : string) (attempt : Z) (h : history) :
  match fst (tar_files os wkdir excludedfiles logfile_name attempt h) with
  | Returns code => code = 0 \/ (code = 1 /\ attempt <> 0)
  | Raises _ => True
  end.
Proof.
  revert h.
  change (returns_only (fun code => code = 0 \/ (code = 1 /\ attempt <> 0))
            (tar_files os wkdir excludedfiles logfile_name attempt)).
  unfold tar_files, tar_files_body.
  eapply returns_only_bind; [apply returns_only_any | intros pack_start _].
  eapply returns_only_bind; [apply returns_only_any | intros yielded _].
  apply returns_only_bind
    with (Q := fun r => r = None \/ (r = Some 1 /\ attempt <> 0)).
  - destruct (to_pack_walk os wkdir excludedfiles yielded) as [|f fs].
    + apply returns_only_ret. now left.
    + apply returns_only_try_except.
      * eapply returns_only_bind; [apply returns_only_any | intros ? _].
        apply returns_only_ret. now left.
      * intros e. destruct (attempt =? 0)%Z eqn:Ea.
        -- eapply returns_only_bind; [apply returns_only_any | intros ? _].
           eapply returns_only_bind; [apply returns_only_any | intros ? _].
           eapply returns_only_bind; [apply returns_only_any | intros ? _].
           apply returns_only_ret. now left.
        -- eapply returns_only_bind; [apply returns_only_any | intros ? _].
           apply returns_only_ret. right. split; [reflexivity|].
           now apply Z.eqb_neq.
  - intros r [-> | [-> Ha]].
    + eapply returns_only_bind; [apply returns_only_any | intros ? _].
      eapply returns_only_bind; [apply returns_only_any | intros ? _].
      eapply returns_only_bind; [apply returns_only_any | intros ? _].
      eapply returns_only_bind; [apply returns_only_any | intros ? _].
      apply returns_only_ret. now left.
    + apply returns_only_ret. now right.
Qed.

(** When the archive cannot be opened, nothing else fails. *)
Lemma for_each_remove (to_pack : list (string * string)) h :
  (forall h p, fails os h (os_remove p) = None) ->
  for_each (fun f => remove os (fst f) ;;; ret tt) to_pack h =
    (Returns tt, h ++ map (fun f => Did (os_remove (fst f))) to_pack).
Proof.
  intros Hos. revert h. induction to_pack as [|f fs IH]; intros h.
  - cbn. now rewrite app_nil_r.
  - cbn [for_each map]. unfold bind at 1. unfold bind at 1.
    unfold remove, try_except, bind, do, ask. rewrite Hos. cbn.
    rewrite IH, <- app_assoc. reflexivity.
Qed.

Lemma removals_map_remove (to_pack : list (string * string)) :
  removals (map (fun f => Did (os_remove (fst f))) to_pack) = map fst to_pack /\
  archives (map (fun f => Did (os_remove (fst f))) to_pack) = [] /\
  existsb closes_archive (map (fun f => Did (os_remove (fst f))) to_pack) = false.
Proof.
  induction to_pack as [|f fs (H1 & H2 & H3)]; [easy|].
  cbn [map]. repeat split; [|exact H2 | exact H3].
  change (fst f :: removals (map (fun f => Did (os_remove (fst f))) fs) = fst f :: map fst fs).
  now rewrite H1.
Qed.

Lemma remove_empty_directories_returns src_dir h :
  (forall h p, fails os h (os_rmdir p) = None \/ fails os h (os_rmdir p) = Some OSError) ->
  fails os h (os_walk src_dir false) = None ->
  exists added,
    remove_empty_directories os src_dir h = (Returns tt, h ++ added) /\
    removals added = [] /\ archives added = [] /\
    existsb closes_archive added = false.
Proof.
  intros Hos Hw. unfold remove_empty_directories, bind, ask. rewrite Hw.
  pose proof (remove_empty_directories_loop_returns os src_dir
                (walked os h src_dir false) (h ++ [Did (os_walk src_dir false)]) Hos) as Hr.
  destruct (remove_empty_directories_loop_history os src_dir
              (walked os h src_dir false) (h ++ [Did (os_walk src_dir false)]))
    as (added & E & _ & _ & R & A & C).
  exists ([Did (os_walk src_dir false)] ++ added).
  destruct (remove_empty_directories_loop os src_dir _ _) as [r h'].
  cbn in Hr, E. subst. rewrite <- app_assoc, removals_app, archives_app, existsb_app, R, A, C.
  now repeat split.
Qed.

(** The end of [tar_files], lines 347-354. *)
Lemma tar_files_tail (to_pack : list (string * string)) wkdir pack_start h :
  cannot_open_archive os ->
  exists added,
    (for_each (fun f => remove os (fst f) ;;; ret tt) to_pack ;;;
     remove_empty_directories os wkdir ;;;
     now <~ ask os time_time (clock os) ;;
     log (debug_pack_time (now - pack_start)) ;;;
     ret 0) h = (Returns 0, h ++ added) /\
    removals added = map fst to_pack /\ archives added = [] /\
    existsb closes_archive added = false.
Proof.
  intros Hos.
  erewrite io_bind_returns by (apply for_each_remove; intros; apply Hos).
  destruct (remove_empty_directories_returns wkdir
              (h ++ map (fun f => Did (os_remove (fst f))) to_pack))
    as (cleaned & E & R & A & C).
  { intros h' p. left. apply Hos. }
  { apply Hos. }
  erewrite io_bind_returns by exact E.
  erewrite io_bind_returns by (apply ask_returns, Hos).
  unfold bind, log, ret.
  destruct (removals_map_remove to_pack) as (R' & A' & C').
  eexists (map (fun f => Did (os_remove (fst f))) to_pack ++ cleaned ++ [_; _]).
  rewrite <- !app_assoc. split; [reflexivity|].
  rewrite !removals_app, !archives_app, !existsb_app, R, A, C, R', A', C'.
  cbn. now rewrite app_nil_r.
Qed.

Lemma try_except_caught {A} (m : IO A) catches handler h e h' :
  m h = (Raises e, h') -> catches e = true ->
  try_except m catches handler h = handler e h'.
Proof. intros H Hc. unfold try_except. now rewrite H, Hc. Qed.

Lemma pack_cannot_open logfile_name (to_pack : list (string * string)) h :
  cannot_open_archive os ->
  (pack os logfile_name to_pack ;;; ret (@None Z)) h =
    (Raises IOError, h ++ [Did (tarfile_open logfile_name "w:gz")]).
Proof.
  intros Hos. unfold pack, bind, do, ask. now rewrite Hos.
Qed.

Lemma log_returns l h : log l h = (Returns tt, h ++ [Logged l]).
Proof. reflexivity. Qed.

(** The second attempt when the archive cannot be opened: nothing is
    removed. *)
Lemma tar_files_again_cannot_open wkdir excludedfiles logfile_name h :
  cannot_open_archive os ->
  exists code added,
    tar_files_again os wkdir excludedfiles logfile_name h = (Returns code, h ++ added) /\
    removals added = [] /\
    existsb closes_archive added = false /\
    archives added =
      match to_pack_walk os wkdir excludedfiles
              (walked os (h ++ [Did time_time]) wkdir true) with
      | [] => []
      | _ :: _ => [os_path_join wkdir logfile_name]
      end.
Proof.
  intros Hos. unfold tar_files_again, tar_files_body.
  erewrite io_bind_returns by (apply ask_returns, Hos).
  erewrite io_bind_returns by (apply ask_returns, Hos).
  destruct (to_pack_walk os wkdir excludedfiles _) as [|f fs] eqn:Etp.
  - erewrite io_bind_returns by reflexivity.
    destruct (tar_files_tail [] wkdir (clock os h)
                ((h ++ [Did time_time]) ++ [Did (os_walk wkdir true)]) Hos)
      as (added & E & R & A & C).
    rewrite E. exists 0, ([Did time_time; Did (os_walk wkdir true)] ++ added).
    rewrite <- !app_assoc. split; [reflexivity|].
    rewrite removals_app, archives_app, existsb_app, R, A, C. now repeat split.
  - erewrite io_bind_returns.
    2:{ erewrite try_except_caught by (apply pack_cannot_open, Hos || reflexivity).
        cbn [Z.eqb]. erewrite io_bind_returns by apply log_returns. reflexivity. }
    exists 1. eexists [_; _; _; _]. rewrite <- !app_assoc.
    split; [reflexivity|]. now repeat split.
Qed.

(** [tar_files] with [attempt=0] when the archive cannot be opened. *)
Lemma tar_files_cannot_open wkdir excludedfiles logfile_name h :
  cannot_open_archive os ->
  to_pack_walk os wkdir excludedfiles (walked os (h ++ [Did time_time]) wkdir true) <> [] ->
  exists added,
    tar_files os wkdir excludedfiles logfile_name 0 h = (Returns 0, h ++ added) /\
    removals added =
      map fst (to_pack_walk os wkdir excludedfiles
                 (walked os (h ++ [Did time_time]) wkdir true)) /\
    existsb closes_archive added = false /\
    archives added =
      os_path_join wkdir logfile_name ::
      match to_pack_walk os wkdir excludedfiles
              (walked os
                 (h ++ [Did time_time; Did (os_walk wkdir true);
                        Did (tarfile_open (os_path_join wkdir logfile_name) "w:gz");
                        Logged (warn_io_retry 15); Did (time_sleep 15);
                        Did time_time]) wkdir true) with
      | [] => []
      | _ :: _ => [os_path_join wkdir (os_path_join wkdir logfile_name)]
      end.
Proof.
  intros Hos Htp. unfold tar_files, tar_files_body.
  erewrite io_bind_returns by (apply ask_returns, Hos).
  erewrite io_bind_returns by (apply ask_returns, Hos).
  destruct (to_pack_walk os wkdir excludedfiles _) as [|f fs] eqn:Etp; [easy|].
  destruct (tar_files_again_cannot_open wkdir excludedfiles
              (os_path_join wkdir logfile_name)
              (((((h ++ [Did time_time]) ++ [Did (os_walk wkdir true)]) ++
                  [Did (tarfile_open (os_path_join wkdir logfile_name) "w:gz")]) ++
                 [Logged (warn_io_retry 15)]) ++ [Did (time_sleep 15)]) Hos)
    as (code & again & Eagain & R & C & A).
  erewrite io_bind_returns.
  2:{ erewrite try_except_caught by (apply pack_cannot_open, Hos || reflexivity).
      cbn [Z.eqb]. erewrite io_bind_returns by apply log_returns.
      erewrite io_bind_returns by (apply ask_returns, Hos).
      erewrite io_bind_returns by exact Eagain. reflexivity. }
  destruct (tar_files_tail (f :: fs) wkdir (clock os h)
              ((((((h ++ [Did time_time]) ++ [Did (os_walk wkdir true)]) ++
                  [Did (tarfile_open (os_path_join wkdir logfile_name) "w:gz")]) ++
                 [Logged (warn_io_retry 15)]) ++ [Did (time_sleep 15)]) ++ again) Hos)
    as (tail & -> & R' & A' & C').
  exists ([Did time_time; Did (os_walk wkdir true);
           Did (tarfile_open (os_path_join wkdir logfile_name) "w:gz");
           Logged (warn_io_retry 15); Did (time_sleep 15)] ++ again ++ tail).
  rewrite <- !app_assoc. split; [reflexivity|].
  rewrite !removals_app, !existsb_app, !archives_app, R, R', C, C', A, A'.
  rewrite <- !app_assoc in *. cbn. rewrite app_nil_r. now repeat split.
Qed.

(** X16: when opening the archive fails with [IOError] each time, and
    nothing else fails, [tar_files] with [attempt=0] still returns 0, and it
    has removed every file it meant to pack although no archive was ever
    written: the result of the second attempt is dropped, and lines 347-354
    run all the same. *)
Theorem tar_files_removes_what_it_did_not_pack (wkdir : string)
    (excludedfiles : list string) (logfile_name : string) (h : history) :
  cannot_open_archive os ->
  to_pack_walk os wkdir excludedfiles (walked os (h ++ [Did time_time]) wkdir true) <> [] ->
  exists added,
    tar_files os wkdir excludedfiles logfile_name 0 h = (Returns 0, h ++ added) /\
    removals added =
      map fst (to_pack_walk os wkdir excludedfiles
                 (walked os (h ++ [Did time_time]) wkdir true)) /\
    existsb closes_archive added = false.
Proof.
  intros Hos Htp.
  destruct (tar_files_cannot_open wkdir excludedfiles logfile_name h Hos Htp)
    as (added & E & R & C & _).
  now exists added.
Qed.

Lemma string_length_app (a b : string) :
  String.length (a +:+ b) = (String.length a + String.length b)%nat.
Proof.
  induction a as [|c a IH]; [reflexivity|].
  change (S (String.length (a +:+ b)) = S (String.length a + String.length b)).
  now rewrite IH.
Qed.

Lemma prefix_slash (c : Ascii.ascii) (s s' : string) :
  String.prefix "/" (String c s) = String.prefix "/" (String c s').
Proof.
  cbn -[Ascii.ascii_dec]. destruct (Ascii.ascii_dec _ c); [|reflexivity].
  now destruct s, s'.
Qed.

Lemma relative_app (a b : string) : a <> "" -> relative a -> relative (a +:+ b).
Proof.
  unfold relative. destruct a as [|c a]; [easy|]. intros _ H.
  change (String c a +:+ b) with (String c (a +:+ b)).
  now rewrite (prefix_slash c _ a).
Qed.

(** Joining a relative path twice to a relative directory gives another
    path than joining it once. *)
Lemma os_path_join_twice (a b : string) :
  a <> "" -> relative a -> relative b ->
  os_path_join a (os_path_join a b) <> os_path_join a b.
Proof.
  intros Ha Hra Hrb.
  assert (Hlen : forall x, relative x ->
            (String.length x < String.length (os_path_join a x))%nat /\
            relative (os_path_join a x)).
  { intros x Hx. unfold os_path_join. rewrite Hx.
    assert (0 < String.length a)%nat by (destruct a; [easy | cbn; lia]).
    destruct (String.eqb a "" || endswith a "/");
      (split; [rewrite !string_length_app; cbn; lia | now apply relative_app]). }
  destruct (Hlen b Hrb) as [_ Hr]. destruct (Hlen _ Hr) as [Hlt _].
  intros E. rewrite E in Hlt. lia.
Qed.

(** X17: the second attempt does not write to the archive of the first.
    Line 332 rebinds [logfile_name] to the joined path, and line 342 hands
    that on, so the second attempt joins it to the work directory again;
    for a relative work directory and a relative name the two paths
    differ. *)
Theorem tar_files_second_attempt_archive (wkdir : string)
    (excludedfiles : list string) (logfile_name : string) (h : history) :
  cannot_open_archive os ->
  (forall h', to_pack_walk os wkdir excludedfiles (walked os h' wkdir true) <> []) ->
  exists added,
    snd (tar_files os wkdir excludedfiles logfile_name 0 h) = h ++ added /\
    archives added =
      [os_path_join wkdir logfile_name;
       os_path_join wkdir (os_path_join wkdir logfile_name)] /\
    (wkdir <> "" -> relative wkdir -> relative logfile_name ->
     os_path_join wkdir (os_path_join wkdir logfile_name)
       <> os_path_join wkdir logfile_name).
Proof.
  intros Hos Htp.
  destruct (tar_files_cannot_open wkdir excludedfiles logfile_name h Hos (Htp _))
    as (added & E & _ & _ & A).
  exists added. rewrite E. split; [reflexivity|]. split.
  - rewrite A.
    destruct (to_pack_walk os wkdir excludedfiles _) eqn:Etp; [|reflexivity].
    now apply Htp in Etp.
  - apply os_path_join_twice.
Qed.

End TarFiles.

(** ** get_files *)

Section GetFiles.

Import filehandling.

Variable os : OS.

Lemma string_app_nil_r (s : string) : s +:+ "" = s.
Proof.
  induction s as [|c s IH]; [reflexivity|].
  change (String c (s +:+ "") = String c s). now rewrite IH.
Qed.

Lemma string_app_assoc (a b c : string) : (a +:+ b) +:+ c = a +:+ (b +:+ c).
Proof.
  induction a as [|x a IH]; [reflexivity|].
  change (String x ((a +:+ b) +:+ c) = String x (a +:+ (b +:+ c))). now rewrite IH.
Qed.

Lemma endswith_app_nl (s : string) : endswith (s +:+ nl) nl = true.
Proof.
  induction s as [|c s IH]; [reflexivity|].
  change (String c s +:+ nl) with (String c (s +:+ nl)).
  cbn [endswith]. rewrite IH. now destruct (String.eqb _ _).
Qed.

Lemma drop_last_app_nl (s : string) : drop_last (s +:+ nl) = s.
Proof.
  induction s as [|c s IH]; [reflexivity|].
  change (String c s +:+ nl) with (String c (s +:+ nl)).
  cbn [drop_last]. rewrite IH.
  destruct s; reflexivity.
Qed.

Lemma prefix_nl (c : Ascii.ascii) (s : string) :
  String.prefix nl (String c s) = Ascii.eqb c (Ascii.ascii_of_nat 10).
Proof.
  unfold nl. cbn -[Ascii.ascii_dec Ascii.eqb Ascii.ascii_of_nat].
  destruct (Ascii.ascii_dec (Ascii.ascii_of_nat 10) c) as [<- | Hne].
  - rewrite Ascii.eqb_refl. now destruct s.
  - symmetry. apply Ascii.eqb_neq. congruence.
Qed.

(** Splitting at newlines: a piece without a newline is read to its end,
    or up to the newline that follows it. *)
Lemma split_from_piece (name cur : string) :
  has_newline name = false ->
  split_from nl 0 cur name = [cur +:+ name] /\
  forall rest,
    split_from nl 0 cur (name +:+ nl +:+ rest)
      = (cur +:+ name) :: split_from nl 0 "" rest.
Proof.
  revert cur. induction name as [|c name IH]; intros cur Hn.
  - rewrite string_app_nil_r. split; [reflexivity|]. intros rest.
    change ("" +:+ nl +:+ rest) with (String (Ascii.ascii_of_nat 10) rest).
    cbn [split_from]. rewrite prefix_nl, Ascii.eqb_refl. reflexivity.
  - cbn [has_newline] in Hn. apply orb_false_iff in Hn as [Hc Hn].
    destruct (IH (cur +:+ String c "") Hn) as [IH1 IH2].
    rewrite string_app_assoc in IH1, IH2. split.
    + cbn [split_from]. now rewrite prefix_nl, Hc.
    + intros rest.
      change (String c name +:+ nl +:+ rest) with (String c (name +:+ nl +:+ rest)).
      cbn [split_from]. rewrite prefix_nl, Hc. apply IH2.
Qed.

(** The names joined by newlines, as [stdout[:-1]] has them. *)
Lemma find_output_split (name : string) (names : list string) :
  Forall (fun n => has_newline n = false) (name :: names) ->
  exists joined,
    find_output (name :: names) = joined +:+ nl /\
    forall cur, split_from nl 0 cur joined = (cur +:+ name) :: names.
Proof.
  revert name. induction names as [|n names IH]; intros name H.
  - exists name. cbn [find_output]. rewrite string_app_nil_r.
    split; [reflexivity|]. intros cur.
    apply split_from_piece. now apply Forall_inv in H.
  - destruct (IH n (Forall_inv_tail H)) as (joined & E & Hs).
    exists (name +:+ nl +:+ joined). split.
    + change (find_output (name :: n :: names))
        with (name +:+ nl +:+ find_output (n :: names)).
      now rewrite E, !string_app_assoc.
    + intros cur.
      destruct (split_from_piece name cur (Forall_inv H)) as [_ ->].
      now rewrite Hs.
Qed.

Lemma app_nl_not_empty (s : string) : s +:+ nl <> "".
Proof. now destruct s. Qed.

(** X18: when the output of [find] is one name per line, there is at least
    one name and no name has a newline in it, [get_files] returns the
    names, in order. *)
Theorem get_files_names (pattern : string) (names : list string) (h : history) :
  fails os h (execute ("find . -name " +:+ pattern)) = None ->
  stdout os h ("find . -name " +:+ pattern) = Some (find_output names) ->
  names <> [] ->
  Forall (fun n => has_newline n = false) names ->
  get_files os pattern h =
    (Returns names, h ++ [Did (execute ("find . -name " +:+ pattern))]).
Proof.
  intros Hf Hout Hne Hnames. unfold get_files.
  erewrite io_bind_returns by (apply ask_returns, Hf). rewrite Hout.
  destruct names as [|name names]; [easy|].
  destruct (find_output_split name names Hnames) as (joined & -> & Hs).
  replace (joined +:+ nl =? "")%string with false
    by (symmetry; apply String.eqb_neq, app_nl_not_empty).
  cbn [negb]. rewrite endswith_app_nl, drop_last_app_nl.
  unfold py_split. cbn [String.eqb nl]. rewrite Hs. reflexivity.
Qed.

End GetFiles.

(** ** get_table_from_file *)

Section TableFacts.

Import filehandling.

Variable os : OS.
Variable float : Type.
Variable to_float : string -> option float.

Abbreviation table := (gmap string (list (cell float))).

(** The table with an empty column for every key. *)
Lemma define_keys_loop_spec (fields : list string) (T : table) (L : list string) :
  define_keys_loop fields T L =
    (foldl (fun T k => <[k := []]> T) T (keys_of fields), L ++ keys_of fields).
Proof.
  revert T L. induction fields as [|key rest IH]; intros T L.
  - cbn. now rewrite app_nil_r.
  - cbn [define_keys_loop]. unfold keys_of. cbn [List.filter].
    destruct (String.eqb key ""); cbn [negb].
    + apply IH.
    + rewrite IH. cbn [map foldl]. unfold keys_of, key_of.
      now rewrite <- app_assoc.
Qed.

Lemma lookup_empty_columns (keys : list string) (T : table) (k : string) :
  foldl (fun T k => <[k := []]> T) T keys !! k =
    if decide (k ∈ keys) then Some [] else T !! k.
Proof.
  revert T. induction keys as [|key keys IH]; intros T.
  - cbn. destruct (decide _) as [H|_]; [|reflexivity]. now apply elem_of_nil in H.
  - cbn [foldl]. rewrite IH.
    destruct (decide (k ∈ keys)) as [Hin|Hin].
    + rewrite decide_True; [reflexivity | apply elem_of_cons; now right].
    + destruct (decide (k = key)) as [->|Hne].
      * rewrite decide_True by (apply elem_of_cons; now left).
        apply lookup_insert_eq.
      * rewrite lookup_insert_ne by congruence.
        rewrite decide_False; [reflexivity|].
        intros [?|?]%elem_of_cons; contradiction.
Qed.

(** One line whose fields all convert and fit the key list. *)
Lemma fill_fields_row convert (keylist fields : list string)
    (cells : list (cell float)) (i : nat) (T : table) h :
  NoDup keylist ->
  Forall2 (fun f c => convert_field to_float convert f = Some c) fields cells ->
  (i + length fields <= length keylist)%nat ->
  (forall key, key ∈ keylist -> is_Some (T !! key)) ->
  exists T' : table,
    fill_fields to_float convert keylist fields i T h = (Returns (Some T'), h) /\
    (forall key, key ∉ keylist -> T' !! key = T !! key) /\
    (forall j key, keylist !! j = Some key ->
       T' !! key = (fun col => col ++ cell_at i j cells) <$> T !! key).
Proof.
  intros Hnd Hconv. revert i T.
  induction Hconv as [|f c fields cells Hc _ IH]; intros i T Hlen Hall.
  - exists T. split; [reflexivity|]. split; [reflexivity|].
    intros j key Hj. unfold cell_at.
    destruct (T !! key) as [col|]; [|reflexivity]. cbn.
    destruct (decide _); cbn; now rewrite ?lookup_nil, app_nil_r.
  - cbn [length] in Hlen. cbn [fill_fields].
    destruct (keylist !! i) as [key|] eqn:Hi;
      [|apply lookup_ge_None in Hi; lia].
    assert (Hc' : (if convert
                   then match to_float f with
                        | Some x => ret (Some (Float x))
                        | None => log (warn_float_failed f) ;;; ret None
                        end
                   else ret (Some (Str f))) h = (Returns (Some c), h)).
    { unfold convert_field in Hc. destruct convert; [|now injection Hc as <-].
      destruct (to_float f); [now injection Hc as <- | discriminate]. }
    rewrite (io_bind_returns _ _ _ _ _ Hc').
    destruct (Hall key) as [col Hcol]; [now apply list_elem_of_lookup_2 in Hi|].
    rewrite Hcol.
    destruct (IH (S i) (<[key := col ++ [c]]> T)) as (T' & -> & Hout & Hin);
      [lia | |].
    { intros key' Hk. apply lookup_insert_is_Some'. right. now apply Hall. }
    exists T'. split; [reflexivity|]. split.
    + intros key' Hk. rewrite (Hout key' Hk). apply lookup_insert_ne.
      intros <-. apply Hk. now apply list_elem_of_lookup_2 in Hi.
    + intros j key' Hj. rewrite (Hin j key' Hj). unfold cell_at.
      destruct (decide (j = i)) as [->|Hne].
      * assert (key' = key) as -> by congruence.
        rewrite lookup_insert_eq, Hcol. cbn.
        rewrite decide_False by lia. rewrite decide_True by lia.
        now rewrite Nat.sub_diag, app_nil_r.
      * assert (key' <> key).
        { intros ->. apply Hne. eapply NoDup_lookup; eauto. }
        rewrite lookup_insert_ne by congruence.
        destruct (T !! key') as [col'|]; [|reflexivity]. cbn. do 2 f_equal.
        destruct (decide (S i <= j)%nat), (decide (i <= j)%nat); try lia.
        -- replace (j - i)%nat with (S (j - S i)) by lia. reflexivity.
        -- reflexivity.
Qed.

(** The lines after the first, when all of them are well formed. *)
Lemma table_loop_rows header separator convert (keylist : list string)
    (rows : list string) (fields : list (list string))
    (cells : list (list (cell float))) (T : table) h :
  NoDup keylist ->
  Forall2 (fun line fs => py_split line separator = Some fs) rows fields ->
  Forall2 (Forall2 (fun f c => convert_field to_float convert f = Some c)) fields cells ->
  Forall (fun fs => length fs = length keylist) fields ->
  (forall key, key ∈ keylist -> is_Some (T !! key)) ->
  exists T' : table,
    table_loop to_float header separator convert rows false T keylist h
      = (Returns (Some T'), h) /\
    (forall key, key ∉ keylist -> T' !! key = T !! key) /\
    (forall j key, keylist !! j = Some key ->
       T' !! key = (fun col => col ++ omap (fun cs => cs !! j) cells) <$> T !! key).
Proof.
  intros Hnd Hsplit. revert cells T.
  induction Hsplit as [|line fs rows fields Hl _ IH]; intros cells T Hconv Hlen Hall.
  - inversion Hconv; subst. exists T. split; [reflexivity|]. split; [reflexivity|].
    intros j key _. cbn. destruct (T !! key); cbn; now rewrite ?app_nil_r.
  - inversion Hconv as [|? cs ? cells' Hc Hcs]; subst.
    apply Forall_cons in Hlen as [Hlen1 Hlen].
    cbn [table_loop]. rewrite Hl.
    destruct (fill_fields_row convert keylist fs cs 0 T h Hnd Hc) as (T1 & E & Hout1 & Hin1);
      [lia | exact Hall |].
    rewrite (io_bind_returns _ _ _ _ _ E).
    destruct (IH cells' T1 Hcs Hlen) as (T' & -> & Hout & Hin).
    { intros key Hk. destruct (list_elem_of_lookup_1 _ _ Hk) as [j Hj].
      rewrite (Hin1 j key Hj). destruct (Hall key Hk) as [col ->]. now eexists. }
    exists T'. split; [reflexivity|]. split.
    + intros key Hk. now rewrite (Hout key Hk), (Hout1 key Hk).
    + intros j key Hj. rewrite (Hin j key Hj), (Hin1 j key Hj).
      destruct (T !! key) as [col|]; [|reflexivity]. cbn.
      rewrite <- app_assoc. do 2 f_equal. unfold cell_at.
      rewrite decide_True by lia. rewrite Nat.sub_0_r.
      now destruct (cs !! j).
Qed.

(** The first line: it gives the keys, and with a header it is data as
    well. *)
Lemma table_loop_first header separator convert (first : string)
    (rest first_fields source : list string) h :
  py_split first separator = Some first_fields ->
  header_fields header separator first_fields = Some source ->
  table_loop to_float header separator convert (first :: rest) true ∅ [] h =
  table_loop to_float header separator convert (data_lines header first rest) false
    (foldl (fun T k => <[k := []]> T) ∅ (keys_of source)) (keys_of source) h.
Proof.
  intros Hf Hs. cbn [table_loop]. rewrite Hf.
  unfold _define_tabledict_keys, header_fields, data_lines in *.
  destruct (no_header header).
  - injection Hs as <-. unfold bind at 1, ret.
    now rewrite define_keys_loop_spec.
  - rewrite Hs. unfold bind at 1, ret. rewrite define_keys_loop_spec.
    cbn [fst snd app table_loop]. now rewrite Hf.
Qed.

(** [get_table_from_file] up to its loop, for a file that can be
    opened. *)
Lemma get_table_from_file_opened filename header separator convert h :
  reliable_os os ->
  path_exists os h filename = true ->
  get_table_from_file os to_float filename header separator convert h =
    (filled <~ table_loop to_float header separator convert
                 (lines os (h ++ [Did (os_path_exists filename);
                                  Did (open_ filename "r")]) filename)
                 true ∅ [] ;;
     match filled with
     | None => ret None
     | Some tabledict => do os (f_close filename) ;;; ret (Some tabledict)
     end)
      (h ++ [Did (os_path_exists filename); Did (open_ filename "r");
             Did (f_iter filename)]).
Proof.
  intros Hos Hex. unfold get_table_from_file.
  assert (E : open_file os filename "r" h =
              (Returns (Some filename),
               h ++ [Did (os_path_exists filename); Did (open_ filename "r")])).
  { unfold open_file. erewrite io_bind_returns by (apply ask_returns, Hos).
    rewrite Hex. unfold bind, try_except, do, ask. rewrite Hos.
    now rewrite <- app_assoc. }
  rewrite E. erewrite io_bind_returns by (apply ask_returns, Hos).
  now rewrite <- app_assoc.
Qed.

(** X19: a file whose lines all have as many fields as there are keys, the
    keys being distinct and every field convertible, is read column by
    column: the table has exactly the keys, column [j] holds the [j]-th
    value of each data line, in the order of the lines, and the file is
    closed.  With a header the first line of the file is data, without
    one it gives the keys. *)
Theorem get_table_from_file_columns (filename : string) (header : option string)
    (separator : string) (convert : bool) (first : string)
    (rest first_fields source : list string) (fields : list (list string))
    (cells : list (list (cell float))) (h : history) :
  reliable_os os ->
  path_exists os h filename = true ->
  lines os (h ++ [Did (os_path_exists filename); Did (open_ filename "r")]) filename
    = first :: rest ->
  py_split first separator = Some first_fields ->
  header_fields header separator first_fields = Some source ->
  NoDup (keys_of source) ->
  Forall2 (fun line fs => py_split line separator = Some fs)
    (data_lines header first rest) fields ->
  Forall (fun fs => length fs = length (keys_of source)) fields ->
  Forall2 (Forall2 (fun f c => convert_field to_float convert f = Some c)) fields cells ->
  exists T : table,
    get_table_from_file os to_float filename header separator convert h =
      (Returns (Some T),
       h ++ [Did (os_path_exists filename); Did (open_ filename "r");
             Did (f_iter filename); Did (f_close filename)]) /\
    (forall j key, keys_of source !! j = Some key ->
       T !! key = Some (omap (fun cs => cs !! j) cells)) /\
    (forall key, key ∉ keys_of source -> T !! key = None).
Proof.
  intros Hos Hex Hlines Hfirst Hsrc Hnd Hsplit Hlen Hconv.
  rewrite (get_table_from_file_opened _ _ _ _ _ Hos Hex), Hlines.
  set (h3 := h ++ _).
  destruct (table_loop_rows header separator convert (keys_of source)
              (data_lines header first rest) fields cells
              (foldl (fun T k => <[k := []]> T) ∅ (keys_of source)) h3
              Hnd Hsplit Hconv Hlen) as (T & E & Hout & Hin).
  { intros key Hk. rewrite lookup_empty_columns, decide_True by exact Hk. now eexists. }
  rewrite <- (table_loop_first header separator convert first rest first_fields source
                h3 Hfirst Hsrc) in E.
  exists T. split.
  - rewrite (io_bind_returns _ _ _ _ _ E).
    erewrite io_bind_returns by (apply ask_returns, Hos).
    unfold ret, h3. now rewrite <- app_assoc.
  - split.
    + intros j key Hj. rewrite (Hin j key Hj), lookup_empty_columns.
      rewrite decide_True by (now apply list_elem_of_lookup_2 in Hj). reflexivity.
    + intros key Hk. rewrite (Hout key Hk), lookup_empty_columns.
      rewrite decide_False by exact Hk. apply lookup_empty.
Qed.

(** A line with more fields than there are keys. *)
Lemma fill_fields_long_row convert (keylist fields : list string) (i : nat)
    (T : table) h :
  (forall key, key ∈ keylist -> is_Some (T !! key)) ->
  (length keylist < i + length fields)%nat ->
  (i <= length keylist)%nat ->
  Forall (fun f => is_Some (convert_field to_float convert f)) fields ->
  fill_fields to_float convert keylist fields i T h = (Raises IndexError, h).
Proof.
  intros Hall Hlen Hi Hconv. revert i T Hall Hlen Hi.
  induction Hconv as [|f fields [c Hc] _ IH]; intros i T Hall Hlen Hi.
  - cbn in Hlen. lia.
  - cbn [length] in Hlen. cbn [fill_fields].
    destruct (keylist !! i) as [key|] eqn:Hk; [|reflexivity].
    assert (Hc' : (if convert
                   then match to_float f with
                        | Some x => ret (Some (Float x))
                        | None => log (warn_float_failed f) ;;; ret None
                        end
                   else ret (Some (Str f))) h = (Returns (Some c), h)).
    { unfold convert_field in Hc. destruct convert; [|now injection Hc as <-].
      destruct (to_float f); [now injection Hc as <- | discriminate]. }
    rewrite (io_bind_returns _ _ _ _ _ Hc').
    destruct (Hall key) as [col ->]; [now apply list_elem_of_lookup_2 in Hk|].
    apply lookup_lt_Some in Hk. apply IH; [|lia|lia].
    intros key' Hk'. apply lookup_insert_is_Some'. right. now apply Hall.
Qed.

(** X20: when the first data line has more fields than there are keys (an
    empty field of the header gives no key, for one), all of them
    convertible, [get_table_from_file] raises [IndexError], and the file
    is left open. *)
Theorem get_table_from_file_long_row (filename : string) (header : option string)
    (separator : string) (convert : bool) (first line : string)
    (rest more first_fields source fields : list string) (h : history) :
  reliable_os os ->
  path_exists os h filename = true ->
  lines os (h ++ [Did (os_path_exists filename); Did (open_ filename "r")]) filename
    = first :: rest ->
  py_split first separator = Some first_fields ->
  header_fields header separator first_fields = Some source ->
  data_lines header first rest = line :: more ->
  py_split line separator = Some fields ->
  Forall (fun f => is_Some (convert_field to_float convert f)) fields ->
  (length (keys_of source) < length fields)%nat ->
  get_table_from_file os to_float filename header separator convert h =
    (Raises IndexError,
     h ++ [Did (os_path_exists filename); Did (open_ filename "r");
           Did (f_iter filename)]).
Proof.
  intros Hos Hex Hlines Hfirst Hsrc Hdata Hline Hconv Hlen.
  rewrite (get_table_from_file_opened _ _ _ _ _ Hos Hex), Hlines.
  apply io_bind_raises.
  rewrite (table_loop_first header separator convert first rest first_fields source
             _ Hfirst Hsrc), Hdata.
  cbn [table_loop]. rewrite Hline. apply io_bind_raises.
  apply fill_fields_long_row; [|lia|lia|exact Hconv].
  intros key Hk. rewrite lookup_empty_columns, decide_True by exact Hk. now eexists.
Qed.

(** A line with a field that is not a number. *)
Lemma fill_fields_not_a_number (keylist before after : list string) (bad : string)
    (i : nat) (T : table) h :
  (forall key, key ∈ keylist -> is_Some (T !! key)) ->
  (i + length before < length keylist)%nat ->
  Forall (fun f => is_Some (to_float f)) before ->
  to_float bad = None ->
  fill_fields to_float true keylist (before ++ bad :: after) i T h =
    (Returns None, h ++ [Logged (warn_float_failed bad)]).
Proof.
  intros Hall Hlen Hconv Hbad. revert i T Hall Hlen.
  induction Hconv as [|f before [x Hx] _ IH]; intros i T Hall Hlen.
  - cbn [app fill_fields]. cbn in Hlen.
    destruct (keylist !! i) as [key|] eqn:Hk;
      [|apply lookup_ge_None in Hk; lia].
    now rewrite Hbad.
  - cbn [length] in Hlen. cbn [app fill_fields].
    destruct (keylist !! i) as [key|] eqn:Hk;
      [|apply lookup_ge_None in Hk; lia].
    rewrite Hx. unfold bind at 1, ret.
    destruct (Hall key) as [col ->]; [now apply list_elem_of_lookup_2 in Hk|].
    apply IH; [|lia].
    intros key' Hk'. apply lookup_insert_is_Some'. right. now apply Hall.
Qed.

(** X21: when a field of the first data line is not a number, the fields
    before it being numbers, [get_table_from_file] with
    [convert_to_float=True] returns [None] after a warning, and the file
    is left open: line 514 returns from inside the loop, past line 517. *)
Theorem get_table_from_file_not_a_number (filename : string) (header : option string)
    (separator : string) (first line bad : string)
    (rest more first_fields source before after : list string) (h : history) :
  reliable_os os ->
  path_exists os h filename = true ->
  lines os (h ++ [Did (os_path_exists filename); Did (open_ filename "r")]) filename
    = first :: rest ->
  py_split first separator = Some first_fields ->
  header_fields header separator first_fields = Some source ->
  data_lines header first rest = line :: more ->
  py_split line separator = Some (before ++ bad :: after) ->
  Forall (fun f => is_Some (to_float f)) before ->
  to_float bad = None ->
  (length before < length (keys_of source))%nat ->
  get_table_from_file os to_float filename header separator true h =
    (Returns None,
     h ++ [Did (os_path_exists filename); Did (open_ filename "r");
           Did (f_iter filename); Logged (warn_float_failed bad)]).
Proof.
  intros Hos Hex Hlines Hfirst Hsrc Hdata Hline Hconv Hbad Hlen.
  rewrite (get_table_from_file_opened _ _ _ _ _ Hos Hex), Hlines.
  set (h3 := h ++ _).
  assert (E : table_loop to_float header separator true (first :: rest) true ∅ [] h3 =
              (Returns None, h3 ++ [Logged (warn_float_failed bad)])).
  { rewrite (table_loop_first header separator true first rest first_fields source
               _ Hfirst Hsrc), Hdata.
    cbn [table_loop]. rewrite Hline.
    rewrite (io_bind_returns _ _ _ None (h3 ++ [Logged (warn_float_failed bad)]));
      [reflexivity|].
    apply fill_fields_not_a_number; [|lia|exact Hconv|exact Hbad].
    intros key Hk. rewrite lookup_empty_columns, decide_True by exact Hk. now eexists. }
  rewrite (io_bind_returns _ _ _ _ _ E). unfold ret, h3. now rewrite <- app_assoc.
Qed.

End TableFacts.

(** ** _define_tabledict_keys, add_to_total_size *)

Section Keys.

Import filehandling.

Variable os : OS.
Variable float : Type.

Lemma endswith_nil (suffix : string) : suffix <> "" -> endswith "" suffix = false.
Proof. intros H. cbn. destruct suffix; [easy | reflexivity]. Qed.

(** The field that gives the empty key is the lone newline. *)
Lemma key_of_empty (field : string) :
  field <> "" -> (key_of field = "" <-> field = nl).
Proof.
  intros Hne. split; [|now intros ->].
  unfold key_of. destruct (endswith field nl) eqn:He; [|easy].
  destruct field as [|c [|c' field]]; [easy| |discriminate].
  intros _. cbn [endswith] in He.
  destruct (String.eqb_spec (String c "") nl) as [E|_]; [exact E|].
  discriminate He.
Qed.

(** X22: [_define_tabledict_keys] returns one key for each field of its
    source that is not empty, the field without its final newline, in
    order, and a table that has exactly these keys, each with an empty
    column.  The empty string is among the keys exactly when a field is a
    lone newline: such a field passes the test of line 540 and is
    shortened after it. *)
Theorem define_tabledict_keys_keys (header : option string)
    (fields source : list string) (separator : string) (h : history) :
  header_fields header separator fields = Some source ->
  exists T : gmap string (list (cell float)),
    _define_tabledict_keys header fields separator h =
      (Returns (T, keys_of source), h) /\
    (forall key, T !! key = if decide (key ∈ keys_of source) then Some [] else None) /\
    ("" ∈ keys_of source <-> nl ∈ source).
Proof.
  intros Hs. unfold _define_tabledict_keys, header_fields in *.
  exists (foldl (fun T k => <[k := []]> T) ∅ (keys_of source)). split; [|split].
  - destruct (no_header header).
    + injection Hs as <-. unfold ret. now rewrite define_keys_loop_spec.
    + rewrite Hs. unfold ret. now rewrite define_keys_loop_spec.
  - intros key. rewrite lookup_empty_columns.
    destruct (decide _); [reflexivity | apply lookup_empty].
  - unfold keys_of. rewrite list_elem_of_fmap. split.
    + intros (f & Hk & Hf). apply list_elem_of_In, filter_In in Hf as [Hin Hf].
      assert (f <> "") by (intros ->; discriminate Hf).
      symmetry in Hk. apply key_of_empty in Hk as <-; [|assumption].
      now apply list_elem_of_In.
    + intros Hin. exists nl. split; [reflexivity|].
      apply list_elem_of_In, filter_In. split; [now apply list_elem_of_In | reflexivity].
Qed.

(** X23: when [os.path.exists] does not raise, [add_to_total_size] does
    not raise either, whatever [os.path.getsize] does: it returns the
    total it was given, or that total plus a size other than 0 that it
    has logged. *)
Theorem add_to_total_size_returns (path : string) (total_size : Z) (h : history) :
  (forall h p, fails os h (os_path_exists p) = None) ->
  exists total added,
    add_to_total_size os path total_size h = (Returns total, h ++ added) /\
    (total = total_size \/
     exists size, size <> 0 /\ total = total_size + size /\
                  Logged (info_file_size path size) ∈ added).
Proof.
  intros Hos. unfold add_to_total_size.
  erewrite io_bind_returns by (apply ask_returns, Hos).
  destruct (path_exists os h path).
  - unfold get_local_file_size.
    unfold bind at 1. erewrite io_bind_returns by (apply ask_returns, Hos).
    destruct (path_exists os _ path).
    + destruct (fails os _ (os_path_getsize path)) as [e|].
      * eexists total_size, [_; _; _; _]. rewrite <- !app_assoc.
        split; [reflexivity | now left].
      * set (size := getsize os _ path).
        destruct (size =? 0)%Z eqn:Ez; cbn [negb].
        -- eexists total_size, [_; _; _]. rewrite <- !app_assoc.
           split; [reflexivity | now left].
        -- eexists _, [_; _; _; _]. unfold bind, log, ret. rewrite <- !app_assoc.
           split; [reflexivity|]. right. exists size. split; [now apply Z.eqb_neq|].
           split; [reflexivity|]. rewrite !elem_of_cons. auto.
    + eexists total_size, [_; _; _]. unfold bind, log, ret. rewrite <- !app_assoc.
      split; [reflexivity | now left].
  - eexists total_size, [_; _]. unfold bind, log, ret. rewrite <- !app_assoc.
    split; [reflexivity | now left].
Qed.

End Keys.

(** ** The file-handling properties at the sample data *)

Section FileHandlingWitnesses.

Import filehandling.

(** Witness of [write_file_returns_true]: the file exists. *)
Lemma write_file_returns_true_witness :
  write_file os0 "out.txt" "data" [] =
    (Returns true,
     [Did (os_path_exists "out.txt"); Did (open_ "out.txt" "w");
      Did (f_write "out.txt" "data"); Did (f_close "out.txt")]) /\
  path_exists os0 [] "out.txt" = true.
Proof.
  assert (E : write_file os0 "out.txt" "data" [] =
              (Returns true,
               [Did (os_path_exists "out.txt"); Did (open_ "out.txt" "w");
                Did (f_write "out.txt" "data"); Did (f_close "out.txt")]))
    by reflexivity.
  destruct (write_file_returns_true os0 "out.txt" "data" [] _ true E) as (_ & H & _).
  split; [exact E | exact H].
Defined.

(** Witness of [write_file_needs_the_file]: the file does not exist. *)
Lemma write_file_needs_the_file_witness :
  write_file os_absent "out.txt" "data" [] =
    (Raises (NoSuchFile "File does not exist: out.txt"),
     [Did (os_path_exists "out.txt")]) /\
  read_file os_absent "out.txt" [] =
    (Raises (NoSuchFile "File does not exist: out.txt"),
     [Did (os_path_exists "out.txt")]).
Proof.
  apply (write_file_needs_the_file os_absent "out.txt" "data" []); reflexivity.
Defined.

(** Witness of [remove_files_tries_every_file]: the first of two files
    cannot be removed, the second is removed all the same. *)
Lemma remove_files_tries_every_file_witness :
  exists added,
    remove_files os_denied "w" (a_list ["a.log"; "b.log"]) [] =
      (Returns (match remove_warnings added with [] => 0 | _ :: _ => -1 end), added) /\
    removals added = ["w/a.log"; "w/b.log"] /\
    remove_warnings added = [tt].
Proof.
  destruct (remove_files_tries_every_file os_denied "w" ["a.log"; "b.log"] [])
    as (added & E & R).
  - intros h p. cbn. destruct (String.eqb p "w/a.log"); auto.
  - exists added. split; [exact E|]. split; [exact R|].
    assert (C : snd (remove_files os_denied "w" (a_list ["a.log"; "b.log"]) []) =
                [Did (os_remove "w/a.log"); Logged warn_remove_failed;
                 Did (os_remove "w/b.log")]) by reflexivity.
    rewrite E in C. cbn in C. now subst added.
Defined.

Lemma os_noarchive_cannot_open : cannot_open_archive os_noarchive.
Proof. intros h c. reflexivity. Qed.

(** Witness of [tar_files_removes_what_it_did_not_pack]: two logs are to
    be packed, one file is excluded. *)
Lemma tar_files_removes_what_it_did_not_pack_witness :
  exists added,
    tar_files os_noarchive "w" ["skip.me"] "log.tgz" 0 [] = (Returns 0, added) /\
    removals added = ["w/a.log"; "w/sub/b.log"] /\
    existsb closes_archive added = false.
Proof.
  destruct (tar_files_removes_what_it_did_not_pack os_noarchive "w" ["skip.me"]
              "log.tgz" [] os_noarchive_cannot_open) as (added & E & R & C).
  - vm_compute. discriminate.
  - exists added. split; [exact E|]. split; [exact R | exact C].
Defined.

(** Witness of [tar_files_second_attempt_archive]: the work directory [w]
    is relative. *)
Lemma tar_files_second_attempt_archive_witness :
  exists added,
    snd (tar_files os_noarchive "w" ["skip.me"] "log.tgz" 0 []) = added /\
    archives added = ["w/log.tgz"; "w/w/log.tgz"].
Proof.
  destruct (tar_files_second_attempt_archive os_noarchive "w" ["skip.me"]
              "log.tgz" [] os_noarchive_cannot_open) as (added & E & A & _).
  - intros h'. vm_compute. discriminate.
  - exists added. split; [exact E | exact A].
Defined.

(** Witness of [get_files_names]: [find] prints two names. *)
Lemma get_files_names_witness :
  get_files os0 "*.log" [] =
    (Returns ["./a.log"; "./b.log"], [Did (execute "find . -name *.log")]).
Proof.
  apply (get_files_names os0 "*.log" ["./a.log"; "./b.log"] []).
  - reflexivity.
  - reflexivity.
  - discriminate.
  - repeat constructor.
Defined.

(** Witness of [get_table_from_file_columns]: no header is given, the
    first line names the two columns. *)
Lemma get_table_from_file_columns_witness :
  exists T : gmap string (list (cell Z)),
    get_table_from_file os0 to_float0 "mem.txt" None tab true [] =
      (Returns (Some T),
       [Did (os_path_exists "mem.txt"); Did (open_ "mem.txt" "r");
        Did (f_iter "mem.txt"); Did (f_close "mem.txt")]) /\
    T !! "Time" = Some [Float 1; Float 3] /\
    T !! "VMEM" = Some [Float 2; Float 4].
Proof.
  destruct (get_table_from_file_columns os0 Z to_float0 "mem.txt" None tab true
              ("Time" +:+ tab +:+ "VMEM" +:+ nl)
              ["1" +:+ tab +:+ "2" +:+ nl; "3" +:+ tab +:+ "4" +:+ nl]
              ["Time"; "VMEM" +:+ nl] ["Time"; "VMEM" +:+ nl]
              [["1"; "2" +:+ nl]; ["3"; "4" +:+ nl]]
              [[Float 1; Float 2]; [Float 3; Float 4]] [])
    as (T & E & Hin & _).
  - intros h c. reflexivity.
  - reflexivity.
  - reflexivity.
  - reflexivity.
  - reflexivity.
  - apply (bool_decide_unpack _). vm_compute. exact I.
  - repeat constructor.
  - repeat constructor.
  - repeat constructor.
  - exists T. split; [exact E|]. split.
    + exact (Hin 0%nat "Time" eq_refl).
    + exact (Hin 1%nat "VMEM" eq_refl).
Defined.

(** Witness of [get_table_from_file_long_row]: the second line has three
    fields for two keys. *)
Lemma get_table_from_file_long_row_witness :
  get_table_from_file os_long to_float0 "mem.txt" None tab true [] =
    (Raises IndexError,
     [Did (os_path_exists "mem.txt"); Did (open_ "mem.txt" "r");
      Did (f_iter "mem.txt")]).
Proof.
  apply (get_table_from_file_long_row os_long Z to_float0 "mem.txt" None tab true
           ("Time" +:+ tab +:+ "VMEM" +:+ nl)
           ("1" +:+ tab +:+ "2" +:+ tab +:+ "3" +:+ nl)
           [("1" +:+ tab +:+ "2" +:+ tab +:+ "3" +:+ nl)] []
           ["Time"; "VMEM" +:+ nl] ["Time"; "VMEM" +:+ nl]
           ["1"; "2"; "3" +:+ nl] []).
  - intros h c. reflexivity.
  - reflexivity.
  - reflexivity.
  - reflexivity.
  - reflexivity.
  - reflexivity.
  - reflexivity.
  - repeat constructor; now eexists.
  - vm_compute. lia.
Defined.

(** Witness of [get_table_from_file_not_a_number]: a header is given for
    a file whose first line names the columns too. *)
Lemma get_table_from_file_not_a_number_witness :
  get_table_from_file os0 to_float0 "mem.txt" (Some ("Time" +:+ tab +:+ "VMEM"))
      tab true [] =
    (Returns None,
     [Did (os_path_exists "mem.txt"); Did (open_ "mem.txt" "r");
      Did (f_iter "mem.txt"); Logged (warn_float_failed "Time")]).
Proof.
  apply (get_table_from_file_not_a_number os0 Z to_float0 "mem.txt"
           (Some ("Time" +:+ tab +:+ "VMEM")) tab
           ("Time" +:+ tab +:+ "VMEM" +:+ nl)
           ("Time" +:+ tab +:+ "VMEM" +:+ nl) "Time"
           ["1" +:+ tab +:+ "2" +:+ nl; "3" +:+ tab +:+ "4" +:+ nl]
           ["1" +:+ tab +:+ "2" +:+ nl; "3" +:+ tab +:+ "4" +:+ nl]
           ["Time"; "VMEM" +:+ nl] ["Time"; "VMEM"]
           [] ["VMEM" +:+ nl] []).
  - intros h c. reflexivity.
  - reflexivity.
  - reflexivity.
  - reflexivity.
  - reflexivity.
  - reflexivity.
  - reflexivity.
  - constructor.
  - reflexivity.
  - vm_compute. lia.
Defined.

(** Witness of [define_tabledict_keys_keys]: a first line with an empty
    field and a lone newline. *)
Lemma define_tabledict_keys_keys_witness :
  exists T : gmap string (list (cell Z)),
    _define_tabledict_keys None ["Time"; ""; nl] tab [] =
      (Returns (T, ["Time"; ""]), []) /\
    T !! "" = Some [].
Proof.
  destruct (define_tabledict_keys_keys Z None ["Time"; ""; nl] ["Time"; ""; nl] tab [])
    as (T & E & H & _).
  - reflexivity.
  - exists T. split; [exact E|]. rewrite H. reflexivity.
Defined.

(** Witness of [add_to_total_size_returns]: a file of 42 bytes. *)
Lemma add_to_total_size_returns_witness :
  exists total added,
    add_to_total_size os0 "a.log" 100 [] = (Returns total, added) /\
    total = 142.
Proof.
  destruct (add_to_total_size_returns os0 "a.log" 100 []) as (total & added & E & _).
  - intros h p. reflexivity.
  - exists total, added. split; [exact E|].
    assert (C : fst (add_to_total_size os0 "a.log" 100 []) = Returns 142) by reflexivity.
    rewrite E in C. now injection C.
Defined.

End FileHandlingWitnesses.
